(** * HomeKit utility functions of Home Assistant

    A shallow embedding of [homeassistant/components/homekit/util.py]:
    the validator of per-entity configuration, the media-player feature
    check, the safe float conversion, the two temperature conversions and
    the density-to-air-quality mapping, together with the properties the
    specification states about them. *)

From Stdlib Require Import ZArith QArith Qround Qabs Qpower Lia Lqa.
From Stdlib Require Import List String Ascii Bool DecimalString.
Import ListNotations.

Local Open Scope string_scope.
Local Open Scope Z_scope.

(** ** Python values *)

(** A Python float is either a finite number, an infinity or a NaN.  A
    finite value is carried as the rational it is: comparison is exact, and
    each arithmetic operation rounds its exact result to binary64 (see
    [binary64_round] below).  The sign of a zero is not kept. *)
Inductive real_num : Type :=
| Finite (q : Q)
| PosInf
| NegInf
| NaN.

#[warnings="-register-all"]
Inductive pyval : Type :=
| PNone
| PBool (b : bool)
| PInt (z : Z)
| PFloat (x : real_num)
| PStr (s : string)
| PList (l : list pyval)
| PDict (d : list (pyval * pyval)).

(** A dict is an association list in insertion order, as Python keeps it. *)
Definition dict : Type := list (pyval * pyval).

(** The exception classes that occur. [Invalid] is [vol.Invalid] with its
    subclasses. *)
Inductive exn : Type :=
| Invalid
| TypeError
| ValueError
| KeyError
| OverflowError.

Inductive result (A : Type) : Type :=
| Ok (a : A)
| Raise (e : exn).

Arguments Ok {A} a.
Arguments Raise {A} e.

Definition bind {A B : Type} (r : result A) (k : A -> result B) : result B :=
  match r with
  | Ok a => k a
  | Raise e => Raise e
  end.

Notation "x <- r ;; k" := (bind r (fun x => k))
  (at level 61, r at next level, right associativity).

(** A voluptuous validator returns the validated value or raises
    [vol.Invalid]. *)
Definition validator : Type := pyval -> option pyval.

Definition of_validated {A : Type} (o : option A) : result A :=
  match o with
  | Some a => Ok a
  | None => Raise Invalid
  end.

(** ** Dict operations *)

(** Equality of hashable keys: [None], strings, and numbers compared by
    value ([True == 1 == 1.0]). *)
Definition num_of_key (k : pyval) : option real_num :=
  match k with
  | PBool b => Some (Finite (inject_Z (Z.b2z b)))
  | PInt z => Some (Finite (inject_Z z))
  | PFloat x => Some x
  | _ => None
  end.

Definition real_eqb (x y : real_num) : bool :=
  match x, y with
  | Finite p, Finite q => Qeq_bool p q
  | PosInf, PosInf => true
  | NegInf, NegInf => true
  | _, _ => false
  end.

Definition key_eqb (a b : pyval) : bool :=
  match a, b with
  | PNone, PNone => true
  | PStr s, PStr t => String.eqb s t
  | _, _ =>
      match num_of_key a, num_of_key b with
      | Some x, Some y => real_eqb x y
      | _, _ => false
      end
  end.

(** [d.get(k)] *)
Fixpoint dict_get (d : dict) (k : pyval) : option pyval :=
  match d with
  | [] => None
  | (k', v) :: rest => if key_eqb k' k then Some v else dict_get rest k
  end.

(** [k in d] *)
Definition dict_mem (d : dict) (k : pyval) : bool :=
  match dict_get d k with
  | Some _ => true
  | None => false
  end.

(** [d.get(k, default)] *)
Definition dict_get_default (d : dict) (k default : pyval) : pyval :=
  match dict_get d k with
  | Some v => v
  | None => default
  end.

(** [d[k]] *)
Definition dict_getitem (d : dict) (k : pyval) : result pyval :=
  match dict_get d k with
  | Some v => Ok v
  | None => Raise KeyError
  end.

(** [d[k] = v]: an existing key keeps its place, a new one goes last. *)
Fixpoint dict_set (d : dict) (k v : pyval) : dict :=
  match d with
  | [] => [(k, v)]
  | (k', v') :: rest =>
      if key_eqb k' k then (k', v) :: rest else (k', v') :: dict_set rest k v
  end.

(** [del d[k]], as [d.pop(k)] leaves the dict. *)
Fixpoint dict_remove (d : dict) (k : pyval) : dict :=
  match d with
  | [] => []
  | (k', v') :: rest =>
      if key_eqb k' k then rest else (k', v') :: dict_remove rest k
  end.

(** [d.pop(k)] *)
Definition dict_pop (d : dict) (k : pyval) : result (pyval * dict) :=
  match dict_get d k with
  | Some v => Ok (v, dict_remove d k)
  | None => Raise KeyError
  end.

(** [for x in v]: the items a [for] loop visits. *)
Definition py_iter (v : pyval) : result (list pyval) :=
  match v with
  | PList l => Ok l
  | PDict d => Ok (map fst d)
  | PStr s => Ok (map (fun c => PStr (String c EmptyString)) (list_ascii_of_string s))
  | _ => Raise TypeError
  end.

(** [x in l] for a list of strings. *)
Definition str_in (x : string) (l : list string) : bool :=
  existsb (String.eqb x) l.

(** ** Constants defined outside this file *)

(** The constants that [util.py] imports from [homeassistant.const],
    [homeassistant.components.media_player] and [.const].  Their values are
    not part of this file; the functions are defined for any values. *)
Class Consts : Type := {
  ATTR_CODE : string;
  ATTR_SUPPORTED_FEATURES : string;
  CONF_NAME : string;
  CONF_TYPE : string;
  CONF_FEATURE : string;
  CONF_FEATURE_LIST : string;
  FEATURE_ON_OFF : string;
  FEATURE_PLAY_PAUSE : string;
  FEATURE_PLAY_STOP : string;
  FEATURE_TOGGLE_MUTE : string;
  TYPE_FAUCET : string;
  TYPE_OUTLET : string;
  TYPE_SHOWER : string;
  TYPE_SPRINKLER : string;
  TYPE_SWITCH : string;
  TYPE_VALVE : string;
  media_player_DOMAIN : string;
  SUPPORT_TURN_ON : Z;
  SUPPORT_TURN_OFF : Z;
  SUPPORT_PLAY : Z;
  SUPPORT_PAUSE : Z;
  SUPPORT_STOP : Z;
  SUPPORT_VOLUME_MUTE : Z
}.

(** The values Home Assistant gives them. *)
#[export] Instance ha_consts : Consts := {|
  ATTR_CODE := "code";
  ATTR_SUPPORTED_FEATURES := "supported_features";
  CONF_NAME := "name";
  CONF_TYPE := "type";
  CONF_FEATURE := "feature";
  CONF_FEATURE_LIST := "feature_list";
  FEATURE_ON_OFF := "on_off";
  FEATURE_PLAY_PAUSE := "play_pause";
  FEATURE_PLAY_STOP := "play_stop";
  FEATURE_TOGGLE_MUTE := "toggle_mute";
  TYPE_FAUCET := "faucet";
  TYPE_OUTLET := "outlet";
  TYPE_SHOWER := "shower";
  TYPE_SPRINKLER := "sprinkler";
  TYPE_SWITCH := "switch";
  TYPE_VALVE := "valve";
  media_player_DOMAIN := "media_player";
  SUPPORT_TURN_ON := 128;
  SUPPORT_TURN_OFF := 256;
  SUPPORT_PLAY := 16384;
  SUPPORT_PAUSE := 1;
  SUPPORT_STOP := 4096;
  SUPPORT_VOLUME_MUTE := 8
|}.

(** ** The media-player feature check *)

(** An entity state: its identifier and its attribute dict. *)
Record State : Type := {
  entity_id : string;
  attributes : dict
}.

(** One call of [_LOGGER.error]: the entity and the unsupported features. *)
Record log_record : Type := {
  log_entity : string;
  log_features : list string
}.

(** [v & m] for an integer constant [m]: defined on ints and bools. *)
Definition py_and (v : pyval) (m : Z) : result Z :=
  match v with
  | PInt z => Ok (Z.land z m)
  | PBool b => Ok (Z.land (Z.b2z b) m)
  | _ => Raise TypeError
  end.

(** Truth value of an int. *)
Definition truthy (z : Z) : bool := negb (z =? 0).

Section MediaPlayerFeatures.
Context {C : Consts}.

Definition validate_media_player_features (state : State) (feature_list : list string)
  : result (bool * list log_record) :=
  let features :=
    dict_get_default (attributes state) (PStr ATTR_SUPPORTED_FEATURES) (PInt 0) in
  let supported_modes : list string := [] in
  on_off <- py_and features (Z.lor SUPPORT_TURN_ON SUPPORT_TURN_OFF) ;;
  let supported_modes :=
    if truthy on_off then (supported_modes ++ [FEATURE_ON_OFF])%list else supported_modes in
  play_pause <- py_and features (Z.lor SUPPORT_PLAY SUPPORT_PAUSE) ;;
  let supported_modes :=
    if truthy play_pause then (supported_modes ++ [FEATURE_PLAY_PAUSE])%list else supported_modes in
  play_stop <- py_and features (Z.lor SUPPORT_PLAY SUPPORT_STOP) ;;
  let supported_modes :=
    if truthy play_stop then (supported_modes ++ [FEATURE_PLAY_STOP])%list else supported_modes in
  mute <- py_and features SUPPORT_VOLUME_MUTE ;;
  let supported_modes :=
    if truthy mute then (supported_modes ++ [FEATURE_TOGGLE_MUTE])%list else supported_modes in
  let error_list :=
    filter (fun feature => negb (str_in feature supported_modes)) feature_list in
  match error_list with
  | [] => Ok (true, [])
  | _ :: _ =>
      Ok (false, [{| log_entity := entity_id state; log_features := error_list |}])
  end.

End MediaPlayerFeatures.

(** ** The density mapping *)

(** [x <= n] for a number [x] and an integer literal [n]; false on NaN. *)
Definition real_le_int (x : real_num) (n : Z) : bool :=
  match x with
  | Finite q => Qle_bool q (inject_Z n)
  | NegInf => true
  | PosInf => false
  | NaN => false
  end.

(** [n < x]; false on NaN. *)
Definition int_lt_real (n : Z) (x : real_num) : bool :=
  match x with
  | Finite q => negb (Qle_bool q (inject_Z n))
  | PosInf => true
  | NegInf => false
  | NaN => false
  end.

Definition density_to_air_quality (density : real_num) : Z :=
  if real_le_int density 35 then 1
  else if real_le_int density 75 then 2
  else if real_le_int density 115 then 3
  else if real_le_int density 150 then 4
  else 5.

(** ** Binary64 arithmetic *)

(** Python's [round] on a float: the nearest integer, a tie going to the even
    one. *)
Definition round_half_even (q : Q) : Z :=
  let f := Qfloor q in
  match Qcompare (q - inject_Z f)%Q (1 # 2) with
  | Lt => f
  | Gt => f + 1
  | Eq => if Z.even f then f else f + 1
  end.

(** [2^e], for an exponent of either sign. *)
Definition two_power (e : Z) : Q := Qpower 2 e.

(** [floor (log2 q)] for a positive [q]: the difference of the bit lengths
    of numerator and denominator, or one less. *)
Definition floor_log2 (q : Q) : Z :=
  let d := Z.log2 (Qnum q) - Z.log2 (Z.pos (Qden q)) in
  if Qle_bool (two_power d) q then d else d - 1.

(** The exponent of the last of the 53 bits binary64 keeps of [q]; it is no
    less than -1074, the exponent of the subnormal numbers. *)
Definition rounding_exponent (q : Q) : Z :=
  Z.max (-1074) (floor_log2 (Qabs q) - 52).

(** The finite binary64 numbers: an integer of 53 bits scaled by a power of
    two no less than [2^-1074], of magnitude below [2^1024]. *)
Definition is_binary64 (q : Q) : Prop :=
  exists m e : Z,
    Z.abs m < 2 ^ 53 /\ -1074 <= e
    /\ (q == inject_Z m * two_power e)%Q /\ (Qabs q < two_power 1024)%Q.

(** Rounding to binary64, as every float operation does with its exact
    result: the nearest multiple of [2^e] for the rounding exponent [e], a
    tie going to the even multiple; a result of magnitude [2^1024] or more
    is an infinity. *)
Definition binary64_round (q : Q) : real_num :=
  if Qeq_bool q 0 then Finite 0
  else
    let e := rounding_exponent q in
    let m := round_half_even (q / two_power e) in
    let r := Qred (inject_Z m * two_power e) in
    if Qle_bool (two_power 1024) (Qabs r)
    then (if Qle_bool 0 q then PosInf else NegInf)
    else Finite r.

(** A float operation with a constant: adding or subtracting a finite
    constant, multiplying or dividing by a positive one.  The exact result
    [f q] is rounded; an infinity or a NaN comes out as it went in. *)
Definition float_op (f : Q -> Q) (x : real_num) : real_num :=
  match x with
  | Finite q => binary64_round (f q)
  | other => other
  end.

(** [round(x)]: an infinity or a NaN has no nearest integer. *)
Definition py_round (x : real_num) : result Z :=
  match x with
  | Finite q => Ok (round_half_even q)
  | PosInf => Raise OverflowError
  | NegInf => Raise OverflowError
  | NaN => Raise ValueError
  end.

(** [n / 2] for an int [n]: true division, the exact quotient rounded to
    binary64; a quotient out of the float range raises. *)
Definition int_halved (n : Z) : result real_num :=
  match binary64_round (inject_Z n / 2) with
  | Finite r => Ok (Finite r)
  | _ => Raise OverflowError
  end.

(** ** The safe float conversion *)

(** The text of a float, as [float(str)] reads it (ASCII input, the grammar
    of Python 3.6 and later): surrounding blanks, a sign, then [inf],
    [infinity], [nan] in any case, or a decimal literal with optional
    fraction and exponent, whose digit groups may be joined by single
    underscores.  The blanks are the six ASCII ones: tab, line feed,
    vertical tab, form feed, carriage return and space. *)
Definition is_space (c : ascii) : bool :=
  let n := nat_of_ascii c in
  ((9 <=? n) && (n <=? 13) || (n =? 32))%nat.

Definition is_digit (c : ascii) : bool :=
  let n := nat_of_ascii c in ((48 <=? n) && (n <=? 57))%nat.

Definition digit_value (c : ascii) : Z := Z.of_nat (nat_of_ascii c) - 48.

Definition ascii_lower (c : ascii) : ascii :=
  let n := nat_of_ascii c in
  if ((65 <=? n) && (n <=? 90))%nat then ascii_of_nat (n + 32) else c.

Fixpoint lstrip (cs : list ascii) : list ascii :=
  match cs with
  | c :: rest => if is_space c then lstrip rest else cs
  | [] => []
  end.

Definition strip (cs : list ascii) : list ascii :=
  rev (lstrip (rev (lstrip cs))).

(** The longest prefix made of digits and underscores, and what follows. *)
Fixpoint span_digits (cs : list ascii) : list ascii * list ascii :=
  match cs with
  | c :: rest =>
      if is_digit c || Ascii.eqb c "_"
      then let (run, tl) := span_digits rest in (c :: run, tl)
      else ([], cs)
  | [] => ([], [])
  end.

(** A digit group: digits, with single underscores strictly inside; no
    other character. *)
Fixpoint digitpart_tail (cs : list ascii) : bool :=
  match cs with
  | [] => true
  | c :: rest =>
      if is_digit c then digitpart_tail rest
      else if Ascii.eqb c "_" then
        match rest with
        | d :: _ => is_digit d && digitpart_tail rest
        | [] => false
        end
      else false
  end.

Definition is_digitpart (cs : list ascii) : bool :=
  match cs with
  | c :: rest => is_digit c && digitpart_tail rest
  | [] => false
  end.

Definition digits_of (cs : list ascii) : list ascii := filter is_digit cs.

Definition digits_value (cs : list ascii) : Z :=
  fold_left (fun acc c => 10 * acc + digit_value c) (digits_of cs) 0.

(** The exponent part: empty, or [e] with an optional sign and a digit
    group that runs to the end of the text. *)
Definition parse_exponent (cs : list ascii) : option Z :=
  match cs with
  | [] => Some 0
  | c :: rest =>
      if Ascii.eqb (ascii_lower c) "e" then
        let (neg, ds) :=
          match rest with
          | "-"%char :: ds => (true, ds)
          | "+"%char :: ds => (false, ds)
          | _ => (false, rest)
          end in
        if is_digitpart ds
        then Some (if neg then - digits_value ds else digits_value ds)
        else None
      else None
  end.

(** The exact value of a decimal literal. *)
Definition parse_decimal (cs : list ascii) : option Q :=
  let (ip, r1) := span_digits cs in
  let (fp, r2) :=
    match r1 with
    | "."%char :: r => span_digits r
    | _ => ([], r1)
    end in
  let ip_ok := match ip with [] => true | _ => is_digitpart ip end in
  let fp_ok := match fp with [] => true | _ => is_digitpart fp end in
  let some_digit := match ip, fp with [], [] => false | _, _ => true end in
  if ip_ok && fp_ok && some_digit then
    match parse_exponent r2 with
    | Some e =>
        let scale := Z.of_nat (List.length (digits_of fp)) in
        let mantissa := digits_value ip * 10 ^ scale + digits_value fp in
        Some (Qred (inject_Z mantissa * Qpower (10 # 1) (e - scale))%Q)
    | None => None
    end
  else None.

(** [float(s)]: the decimal value is rounded to binary64, so that a literal
    beyond the float range reads as an infinity. *)
Definition float_of_string (s : string) : option real_num :=
  let cs := strip (list_ascii_of_string s) in
  let (neg, body) :=
    match cs with
    | "-"%char :: r => (true, r)
    | "+"%char :: r => (false, r)
    | _ => (false, cs)
    end in
  let word := string_of_list_ascii (map ascii_lower body) in
  if String.eqb word "inf" || String.eqb word "infinity"
  then Some (if neg then NegInf else PosInf)
  else if String.eqb word "nan" then Some NaN
  else match parse_decimal body with
       | Some q => Some (binary64_round (if neg then - q else q))
       | None => None
       end.

(** [float(n)] for an int [n]: the nearest binary64 number, an
    [OverflowError] when that is out of range. *)
Definition float_of_int (z : Z) : result real_num :=
  match binary64_round (inject_Z z) with
  | Finite r => Ok (Finite r)
  | _ => Raise OverflowError
  end.

(** The builtin [float]: a [TypeError] for what is neither text nor a
    number, a [ValueError] for text that is not a float, an
    [OverflowError] for an int beyond the float range. *)
Definition py_float (v : pyval) : result real_num :=
  match v with
  | PNone => Raise TypeError
  | PBool b => Ok (Finite (inject_Z (Z.b2z b)))
  | PInt z => float_of_int z
  | PFloat x => Ok x
  | PStr s =>
      match float_of_string s with
      | Some x => Ok x
      | None => Raise ValueError
      end
  | PList _ => Raise TypeError
  | PDict _ => Raise TypeError
  end.

Definition convert_to_float (state : pyval) : result pyval :=
  match py_float state with
  | Ok x => Ok (PFloat x)
  | Raise ValueError => Ok PNone
  | Raise TypeError => Ok PNone
  | Raise e => Raise e
  end.

(** ** The temperature conversions *)

(** The units [homeassistant.util.temperature] converts between. *)
Inductive temperature_unit : Type :=
| TEMP_CELSIUS
| TEMP_FAHRENHEIT.

(** The float literal [1.8]: the binary64 number nearest to 9/5. *)
Definition float_1_8 : Q := 8106479329266893 # 4503599627370496.

(** [(fahrenheit - 32.0) / 1.8] *)
Definition fahrenheit_to_celsius (fahrenheit : real_num) : real_num :=
  float_op (fun d => d / float_1_8)%Q (float_op (fun f => f - 32)%Q fahrenheit).

(** [celsius * 1.8 + 32.0] *)
Definition celsius_to_fahrenheit (celsius : real_num) : real_num :=
  float_op (fun p => p + 32)%Q (float_op (fun c => c * float_1_8)%Q celsius).

(** Modelled from the spec: [temp_util.convert] is defined in
    [homeassistant/util/temperature.py], outside this file.  The spec has it
    convert a value between a given unit and Celsius; the same unit on both
    sides leaves the value as it is, Fahrenheit is [C * 1.8 + 32] and
    Celsius [(F - 32) / 1.8], computed in floats. *)
Definition convert (temperature : real_num) (from_unit to_unit : temperature_unit)
  : real_num :=
  match from_unit, to_unit with
  | TEMP_CELSIUS, TEMP_CELSIUS => temperature
  | TEMP_FAHRENHEIT, TEMP_FAHRENHEIT => temperature
  | TEMP_CELSIUS, TEMP_FAHRENHEIT => celsius_to_fahrenheit temperature
  | TEMP_FAHRENHEIT, TEMP_CELSIUS => fahrenheit_to_celsius temperature
  end.

(** [round(x * 2) / 2] *)
Definition round_to_half (x : real_num) : result real_num :=
  n <- py_round (float_op (fun q => q * 2)%Q x) ;;
  int_halved n.

Definition temperature_to_homekit (temperature : real_num) (unit : temperature_unit)
  : result real_num :=
  round_to_half (convert temperature unit TEMP_CELSIUS).

Definition temperature_to_states (temperature : real_num) (unit : temperature_unit)
  : result real_num :=
  round_to_half (convert temperature TEMP_CELSIUS unit).

(** The floats [33.4] and [1e308]. *)
Definition float_33_4 : Q := 4700632111067955 # 140737488355328.

Definition float_1e308 : Q := inject_Z (5010420900022432 * 2 ^ 971).

(** ** Schemas *)

(** The part of voluptuous the schemas of this file use: a dict schema whose
    keys are [Optional] or [Required] markers around a string, with or
    without a default, no extra key allowed. *)
Inductive marker : Type :=
| Optional
| Required.

Record schema_key : Type := {
  key_marker : marker;
  key_schema : string;
  key_default : option pyval
}.

Definition Schema : Type := list (schema_key * validator).

Definition vol_Optional (name : string) : schema_key :=
  {| key_marker := Optional; key_schema := name; key_default := None |}.

Definition vol_Optional_default (name : string) (default : pyval) : schema_key :=
  {| key_marker := Optional; key_schema := name; key_default := Some default |}.

Definition vol_Required (name : string) : schema_key :=
  {| key_marker := Required; key_schema := name; key_default := None |}.

(** [Schema.extend]: a key of the extension replaces the key of the same
    name, or is added. *)
Definition schema_extend (base extension : Schema) : Schema :=
  fold_left
    (fun acc kv =>
       filter (fun old => negb (String.eqb (key_schema (fst old)) (key_schema (fst kv)))) acc
       ++ [kv])%list
    extension base.

(** The literal [None] as a schema: the value must equal it. *)
Definition vol_None : validator :=
  fun v => match v with PNone => Some v | _ => None end.

(** [vol.Any]: the first validator that accepts the value. *)
Fixpoint vol_Any (validators : list validator) : validator :=
  fun v =>
    match validators with
    | [] => None
    | f :: rest => match f v with Some r => Some r | None => vol_Any rest v end
    end.

(** [vol.All]: the validators in turn, each on the result of the one
    before. *)
Fixpoint vol_All (validators : list validator) : validator :=
  fun v =>
    match validators with
    | [] => Some v
    | f :: rest => match f v with Some r => vol_All rest r | None => None end
    end.

(** [vol.In] over a tuple of strings. *)
Definition vol_In (container : list string) : validator :=
  fun v =>
    match v with
    | PStr s => if str_in s container then Some v else None
    | _ => None
    end.

(** The mapping that is validated is a copy of the data, with the default of
    each key the data lacks: a default is validated like a given value. *)
Definition insert_defaults (schema : Schema) (data : dict) : dict :=
  fold_left
    (fun key_value_map kv =>
       match key_default (fst kv) with
       | Some default =>
           if dict_mem key_value_map (PStr (key_schema (fst kv)))
           then key_value_map
           else dict_set key_value_map (PStr (key_schema (fst kv))) default
       | None => key_value_map
       end)
    schema data.

Definition find_schema_key (schema : Schema) (key : pyval) : option (schema_key * validator) :=
  find (fun kv => key_eqb key (PStr (key_schema (fst kv)))) schema.

(** Each item against the schema key it matches; a key that matches none is
    an extra key.  voluptuous gathers the failures and raises them together
    as one [vol.Invalid], so the first one decides. *)
Fixpoint validate_items (schema : Schema) (items out : dict) : option dict :=
  match items with
  | [] => Some out
  | (key, value) :: rest =>
      match find_schema_key schema key with
      | Some (_, cvalue) =>
          match cvalue value with
          | Some cval => validate_items schema rest (dict_set out key cval)
          | None => None
          end
      | None => None
      end
  end.

Definition required_keys_found (schema : Schema) (key_value_map : dict) : bool :=
  forallb
    (fun kv =>
       match key_marker (fst kv) with
       | Required => dict_mem key_value_map (PStr (key_schema (fst kv)))
       | Optional => true
       end)
    schema.

Definition validate_mapping (schema : Schema) (data : dict) : option dict :=
  let key_value_map := insert_defaults schema data in
  match validate_items schema key_value_map [] with
  | Some out => if required_keys_found schema key_value_map then Some out else None
  | None => None
  end.

(** Calling a schema: the validated dict, or [vol.Invalid]. *)
Definition call_schema (schema : Schema) (data : pyval) : result dict :=
  match data with
  | PDict d => of_validated (validate_mapping schema d)
  | _ => Raise Invalid
  end.

(** ** Helpers of the host framework *)

(** [cv.string], [cv.entity_id] and [split_entity_id] are defined outside
    this file.  The first two return the validated text or raise
    [vol.Invalid]; the third splits a valid identifier into domain and
    object id. *)
Class Helpers : Type := {
  cv_string : pyval -> option string;
  cv_entity_id : pyval -> option string;
  split_entity_id : string -> string * string
}.

(** Modelled from the spec: [cv.ensure_list] is defined in
    [homeassistant/helpers/config_validation.py], outside this file.  The
    spec has the feature list a list and has every valid record returned
    with its defaults filled in; the helper wraps a value in a list unless
    it is one, and gives the empty list for null. *)
Definition cv_ensure_list : validator :=
  fun value =>
    match value with
    | PNone => Some (PList [])
    | PList _ => Some value
    | _ => Some (PList [value])
    end.

(** ** The configuration validator *)

Section ValidateEntityConfig.
Context {C : Consts} {H : Helpers}.

Definition string_validator : validator :=
  fun v => option_map PStr (cv_string v).

Definition BASIC_INFO_SCHEMA : Schema :=
  [(vol_Optional CONF_NAME, string_validator)].

Definition FEATURE_SCHEMA : Schema :=
  schema_extend BASIC_INFO_SCHEMA
    [(vol_Optional_default CONF_FEATURE_LIST PNone, cv_ensure_list)].

Definition CODE_SCHEMA : Schema :=
  schema_extend BASIC_INFO_SCHEMA
    [(vol_Optional_default ATTR_CODE PNone, vol_Any [vol_None; string_validator])].

Definition MEDIA_PLAYER_SCHEMA : Schema :=
  [(vol_Required CONF_FEATURE,
    vol_All [string_validator;
             vol_In [FEATURE_ON_OFF; FEATURE_PLAY_PAUSE;
                     FEATURE_PLAY_STOP; FEATURE_TOGGLE_MUTE]])].

Definition SWITCH_TYPE_SCHEMA : Schema :=
  schema_extend BASIC_INFO_SCHEMA
    [(vol_Optional_default CONF_TYPE (PStr TYPE_SWITCH),
      vol_All [string_validator;
               vol_In [TYPE_FAUCET; TYPE_OUTLET; TYPE_SHOWER; TYPE_SPRINKLER;
                       TYPE_SWITCH; TYPE_VALVE]])].

(** The loop over the features of a media player. *)
Fixpoint add_features (features : list pyval) (feature_list : dict) : result dict :=
  match features with
  | [] => Ok feature_list
  | feature :: rest =>
      params <- call_schema MEDIA_PLAYER_SCHEMA feature ;;
      popped <- dict_pop params (PStr CONF_FEATURE) ;;
      let (key, params) := popped : pyval * dict in
      if dict_mem feature_list key then Raise Invalid
      else add_features rest (dict_set feature_list key (PDict params))
  end.

(** The branch on the domain. *)
Definition validate_config (domain : string) (config : pyval) : result dict :=
  if str_in domain ["alarm_control_panel"; "lock"] then
    call_schema CODE_SCHEMA config
  else if String.eqb domain media_player_DOMAIN then
    config <- call_schema FEATURE_SCHEMA config ;;
    listed <- dict_getitem config (PStr CONF_FEATURE_LIST) ;;
    features <- py_iter listed ;;
    feature_list <- add_features features [] ;;
    Ok (dict_set config (PStr CONF_FEATURE_LIST) (PDict feature_list))
  else if String.eqb domain "switch" then
    call_schema SWITCH_TYPE_SCHEMA config
  else
    call_schema BASIC_INFO_SCHEMA config.

(** The loop over the items of [values]. *)
Fixpoint validate_entities (items entities : dict) : result dict :=
  match items with
  | [] => Ok entities
  | (entity_id, config) :: rest =>
      entity <- of_validated (cv_entity_id entity_id) ;;
      let (domain, _) := split_entity_id entity in
      match config with
      | PDict _ =>
          config <- validate_config domain config ;;
          validate_entities rest (dict_set entities (PStr entity) (PDict config))
      | _ => Raise Invalid
      end
  end.

Definition validate_entity_config (values : pyval) : result dict :=
  match values with
  | PDict items => validate_entities items []
  | _ => Raise Invalid
  end.

End ValidateEntityConfig.

(** ** Home Assistant's helpers on ASCII text *)

Definition is_word_char (c : ascii) : bool :=
  let n := nat_of_ascii c in
  (is_digit c || (65 <=? n) && (n <=? 90) || (97 <=? n) && (n <=? 122)
   || (n =? 95))%nat.

(** [str(v)] for null-free scalars; the text of floats, lists and dicts is
    not modelled and these are rejected. *)
Definition ha_string (v : pyval) : option string :=
  match v with
  | PStr s => Some s
  | PInt z => Some (NilZero.string_of_int (Z.to_int z))
  | PBool true => Some "True"
  | PBool false => Some "False"
  | _ => None
  end.

(** The first dot splits the identifier. *)
Fixpoint split_dot (cs : list ascii) : list ascii * option (list ascii) :=
  match cs with
  | [] => ([], None)
  | c :: rest =>
      if Ascii.eqb c "." then ([], Some rest)
      else let (a, b) := split_dot rest in (c :: a, b)
  end.

(** [^(\w+)\.(\w+)$]: two words around a dot, a final newline allowed. *)
Definition valid_entity_id (s : string) : bool :=
  match split_dot (list_ascii_of_string s) with
  | (domain, Some object_id) =>
      let object_id :=
        match rev object_id with
        | c :: r => if (nat_of_ascii c =? 10)%nat then rev r else object_id
        | [] => object_id
        end in
      negb (Nat.eqb (List.length domain) 0) && forallb is_word_char domain
      && negb (Nat.eqb (List.length object_id) 0) && forallb is_word_char object_id
  | (_, None) => false
  end.

Definition ha_entity_id (v : pyval) : option string :=
  match ha_string v with
  | Some s =>
      let value := string_of_list_ascii (map ascii_lower (list_ascii_of_string s)) in
      if valid_entity_id value then Some value else None
  | None => None
  end.

Definition ha_split_entity_id (entity : string) : string * string :=
  match split_dot (list_ascii_of_string entity) with
  | (domain, Some object_id) =>
      (string_of_list_ascii domain, string_of_list_ascii object_id)
  | (domain, None) => (string_of_list_ascii domain, "")
  end.

(** Modelled from the spec: [cv.string], [cv.entity_id] and
    [split_entity_id] as Home Assistant defines them, on ASCII text: an
    entity identifier is a domain and an object id around a dot
    ([switch.kitchen]), lower-cased; null is no string. *)
#[export] Instance ha_helpers : Helpers := {|
  cv_string := ha_string;
  cv_entity_id := ha_entity_id;
  split_entity_id := ha_split_entity_id
|}.

(** ** What the specification says, as definitions *)

Section FeatureSupport.
Context {C : Consts}.

(** The supported set the spec derives from a bitmask: each feature name
    with the pair of flags tested for it. *)
Definition supports (bits : Z) (feature : string) : Prop :=
  (feature = FEATURE_ON_OFF /\ Z.land bits (Z.lor SUPPORT_TURN_ON SUPPORT_TURN_OFF) <> 0)
  \/ (feature = FEATURE_PLAY_PAUSE /\ Z.land bits (Z.lor SUPPORT_PLAY SUPPORT_PAUSE) <> 0)
  \/ (feature = FEATURE_PLAY_STOP /\ Z.land bits (Z.lor SUPPORT_PLAY SUPPORT_STOP) <> 0)
  \/ (feature = FEATURE_TOGGLE_MUTE /\ Z.land bits SUPPORT_VOLUME_MUTE <> 0).

(** The same set as a test. *)
Definition supportsb (bits : Z) (feature : string) : bool :=
  String.eqb feature FEATURE_ON_OFF
    && truthy (Z.land bits (Z.lor SUPPORT_TURN_ON SUPPORT_TURN_OFF))
  || String.eqb feature FEATURE_PLAY_PAUSE
    && truthy (Z.land bits (Z.lor SUPPORT_PLAY SUPPORT_PAUSE))
  || String.eqb feature FEATURE_PLAY_STOP
    && truthy (Z.land bits (Z.lor SUPPORT_PLAY SUPPORT_STOP))
  || String.eqb feature FEATURE_TOGGLE_MUTE
    && truthy (Z.land bits SUPPORT_VOLUME_MUTE).

(** The bitmask a state carries, when it is an integer or missing. *)
Definition bitmask_is (state : State) (bits : Z) : Prop :=
  dict_get (attributes state) (PStr ATTR_SUPPORTED_FEATURES) = Some (PInt bits)
  \/ (dict_get (attributes state) (PStr ATTR_SUPPORTED_FEATURES) = None /\ bits = 0).

(** The bitmask the check computes with: the attribute when it is an
    integer, [True] and [False] counting as 1 and 0 as Python's [&] takes
    them, 0 when the attribute is missing; a value of any other type has no
    bitmask. *)
Definition state_bitmask (state : State) : option Z :=
  match dict_get (attributes state) (PStr ATTR_SUPPORTED_FEATURES) with
  | None => Some 0
  | Some (PInt bits) => Some bits
  | Some (PBool b) => Some (Z.b2z b)
  | Some _ => None
  end.

End FeatureSupport.

(** A media player that can only be turned on and off, in Home Assistant's
    constants. *)
Definition on_off_player : State :=
  {| entity_id := "media_player.demo";
     attributes := [(PStr "supported_features", PInt 384)] |}.

Definition play_only_player : State :=
  {| entity_id := "media_player.demo";
     attributes := [(PStr "supported_features", PInt 16384)] |}.

Definition bare_player : State :=
  {| entity_id := "media_player.demo"; attributes := [] |}.

(** A Python dict holds a key once. *)
Fixpoint unique_keys (d : dict) : bool :=
  match d with
  | [] => true
  | (k, _) :: rest => negb (dict_mem rest k) && unique_keys rest
  end.

(** The values Python can build: no dict inside has a key twice. *)
Fixpoint well_formed (v : pyval) : bool :=
  match v with
  | PList l => forallb well_formed l
  | PDict d => unique_keys d && forallb (fun '(_, x) => well_formed x) d
  | _ => true
  end.

(** The schemas extend the name schema by a key of another name. *)
Definition schema_keys_distinct {C : Consts} : bool :=
  negb (String.eqb CONF_NAME ATTR_CODE)
  && negb (String.eqb CONF_NAME CONF_FEATURE_LIST)
  && negb (String.eqb CONF_NAME CONF_TYPE).

Section ValidateEntityConfigSpec.
Context {C : Consts} {H : Helpers}.

(** The schema a domain selects. *)
Inductive domain_kind : Type :=
| CodeDomain
| MediaPlayerDomain
| SwitchDomain
| OtherDomain.

Definition kind_of_domain (domain : string) : domain_kind :=
  if str_in domain ["alarm_control_panel"; "lock"] then CodeDomain
  else if String.eqb domain media_player_DOMAIN then MediaPlayerDomain
  else if String.eqb domain "switch" then SwitchDomain
  else OtherDomain.

(** The two enumerations. *)
Definition feature_names : list string :=
  [FEATURE_ON_OFF; FEATURE_PLAY_PAUSE; FEATURE_PLAY_STOP; FEATURE_TOGGLE_MUTE].

Definition switch_types : list string :=
  [TYPE_FAUCET; TYPE_OUTLET; TYPE_SHOWER; TYPE_SPRINKLER; TYPE_SWITCH; TYPE_VALVE].

(** A value given for an enumerated field that is none of its names. *)
Definition unknown_enum_value (enum : list string) (v : pyval) : bool :=
  match cv_string v with
  | Some s => negb (str_in s enum)
  | None => true
  end.


(** The features a record lists: a missing or null list is empty, a single
    entry stands for the list of it. *)
Definition listed_features (config : dict) : list pyval :=
  match dict_get config (PStr CONF_FEATURE_LIST) with
  | None => []
  | Some PNone => []
  | Some (PList l) => l
  | Some v => [v]
  end.

Definition feature_value (feature : pyval) : option pyval :=
  match feature with
  | PDict p => dict_get p (PStr CONF_FEATURE)
  | _ => None
  end.

Definition feature_name (feature : pyval) : option string :=
  match feature_value feature with
  | Some v => cv_string v
  | None => None
  end.

Definition names_of (features : list pyval) : list string :=
  flat_map
    (fun feature => match feature_name feature with Some n => [n] | None => [] end)
    features.

Fixpoint has_repeat (names : list string) : bool :=
  match names with
  | [] => false
  | n :: rest => str_in n rest || has_repeat rest
  end.

(** The problems the spec lists for a record: an unknown enum value, a
    repeated feature. *)
Definition unknown_feature (config : dict) : bool :=
  existsb
    (fun feature =>
       match feature_value feature with
       | Some v => unknown_enum_value feature_names v
       | None => false
       end)
    (listed_features config).

Definition repeated_feature (config : dict) : bool :=
  has_repeat (names_of (listed_features config)).

Definition unknown_switch_type (config : dict) : bool :=
  match dict_get config (PStr CONF_TYPE) with
  | Some v => unknown_enum_value switch_types v
  | None => false
  end.

Definition listed_record_problem (kind : domain_kind) (config : dict) : bool :=
  match kind with
  | MediaPlayerDomain => unknown_feature config || repeated_feature config
  | SwitchDomain => unknown_switch_type config
  | _ => false
  end.

(** The further problems of a record: a key its schema does not have, a
    name or a code that is no string, a feature entry that is not a
    mapping of the feature key alone. *)
Definition allowed_keys (kind : domain_kind) : list string :=
  match kind with
  | CodeDomain => [CONF_NAME; ATTR_CODE]
  | MediaPlayerDomain => [CONF_NAME; CONF_FEATURE_LIST]
  | SwitchDomain => [CONF_NAME; CONF_TYPE]
  | OtherDomain => [CONF_NAME]
  end.

Definition foreign_key (allowed : list string) (config : dict) : bool :=
  existsb
    (fun kv => match fst kv with PStr n => negb (str_in n allowed) | _ => true end)
    config.

Definition rejected_name (config : dict) : bool :=
  match dict_get config (PStr CONF_NAME) with
  | Some v => match cv_string v with Some _ => false | None => true end
  | None => false
  end.

Definition rejected_code (config : dict) : bool :=
  match dict_get config (PStr ATTR_CODE) with
  | Some PNone => false
  | Some v => match cv_string v with Some _ => false | None => true end
  | None => false
  end.

Definition malformed_feature (feature : pyval) : bool :=
  match feature with
  | PDict p => foreign_key [CONF_FEATURE] p || negb (dict_mem p (PStr CONF_FEATURE))
  | _ => true
  end.

Definition other_record_problem (kind : domain_kind) (config : dict) : bool :=
  foreign_key (allowed_keys kind) config
  || rejected_name config
  || match kind with
     | CodeDomain => rejected_code config
     | MediaPlayerDomain => existsb malformed_feature (listed_features config)
     | _ => false
     end.

(** A problem of some entry: a malformed identifier, a record that is not
    a mapping, or a problem of the record. *)
Definition entry_problem (record_problem : domain_kind -> dict -> bool)
           (entry : pyval * pyval) : bool :=
  match cv_entity_id (fst entry) with
  | None => true
  | Some entity =>
      match snd entry with
      | PDict config =>
          record_problem (kind_of_domain (fst (split_entity_id entity))) config
      | _ => true
      end
  end.

(** The failures the spec lists: the value is not a mapping, a record is
    not a mapping, an identifier is malformed, an enum value is unknown,
    a feature is repeated. *)
Definition listed_problem (values : pyval) : bool :=
  match values with
  | PDict items => existsb (entry_problem listed_record_problem) items
  | _ => true
  end.

(** The same with the further problems of a record. *)
Definition record_problem (kind : domain_kind) (config : dict) : bool :=
  listed_record_problem kind config || other_record_problem kind config.

Definition any_problem (values : pyval) : bool :=
  match values with
  | PDict items => existsb (entry_problem record_problem) items
  | _ => true
  end.

End ValidateEntityConfigSpec.

(** Building a dict with string keys. *)
Definition str_dict (items : list (string * pyval)) : pyval :=
  PDict (map (fun kv => (PStr (fst kv), snd kv)) items).

(** The names of the keys of a schema, and the test that an item of a
    mapping matches a key whose validator accepts its value. *)
Definition schema_names (schema : Schema) : list string :=
  map (fun kv => key_schema (fst kv)) schema.

Definition item_ok (schema : Schema) (item : pyval * pyval) : bool :=
  match find_schema_key schema (fst item) with
  | Some (_, cvalue) =>
      match cvalue (snd item) with
      | Some _ => true
      | None => false
      end
  | None => false
  end.

(** Configurations in Home Assistant's constants. *)
Definition unknown_key_config : pyval :=
  str_dict [("light.kitchen", str_dict [("brightness", PInt 1)])].

Definition null_name_config : pyval :=
  str_dict [("demo.test", str_dict [("name", PNone)])].

Definition bare_media_player_config : pyval :=
  str_dict [("media_player.demo", str_dict [])].

Definition repeated_feature_config : pyval :=
  str_dict
    [("media_player.demo",
      str_dict
        [("feature_list",
          PList [str_dict [("feature", PStr "on_off")];
                 str_dict [("feature", PStr "on_off")]])])].

Definition bare_lock_config : pyval :=
  str_dict [("lock.demo", str_dict [])].

(** The six capability flags the feature check reads. *)
Definition tested_flags {C : Consts} : Z :=
  Z.lor (Z.lor (Z.lor SUPPORT_TURN_ON SUPPORT_TURN_OFF) (Z.lor SUPPORT_PLAY SUPPORT_PAUSE))
        (Z.lor SUPPORT_STOP SUPPORT_VOLUME_MUTE).

(** States for the examples below, in Home Assistant's constants. *)
Definition text_bitmask_player : State :=
  {| entity_id := "media_player.demo";
     attributes := [(PStr "supported_features", PStr "384")] |}.

Definition flag_bitmask_player : State :=
  {| entity_id := "media_player.demo";
     attributes := [(PStr "supported_features", PBool true)] |}.

Definition on_off_seek_player : State :=
  {| entity_id := "media_player.demo";
     attributes := [(PStr "supported_features", PInt 386)] |}.

(** An item of a validated mapping: the key of the item it comes from, with
    the value the validator of that key gives. *)
Definition item_validated (schema : Schema) (item validated : pyval * pyval) : Prop :=
  fst validated = fst item
  /\ exists sk f,
      find_schema_key schema (fst item) = Some (sk, f)
      /\ f (snd item) = Some (snd validated).

(** A validator that returns what it has returned unchanged, and one that
    keeps values well formed. *)
Definition idempotent_validator (f : validator) : Prop :=
  forall v w, f v = Some w -> f w = Some w.

Definition sound_validator (f : validator) : Prop :=
  forall v w, well_formed v = true -> f v = Some w -> well_formed w = true.

Section SchemaOfKind.
Context {C : Consts} {H : Helpers}.

(** The schema each kind of domain is validated against. *)
Definition schema_of_kind (kind : domain_kind) : Schema :=
  match kind with
  | CodeDomain => CODE_SCHEMA
  | MediaPlayerDomain => FEATURE_SCHEMA
  | SwitchDomain => SWITCH_TYPE_SCHEMA
  | OtherDomain => BASIC_INFO_SCHEMA
  end.

End SchemaOfKind.

(** The feature mapping of a normalized media-player record: each feature
    name with its parameters, which are empty. *)
Definition feature_mapping (names : list string) : dict :=
  map (fun n => (PStr n, PDict [])) names.

(** Two spellings of one lock, and a configuration without media player. *)
Definition twice_configured_lock : dict :=
  [(PStr "Lock.Demo", str_dict [("code", PStr "1234")]);
   (PStr "lock.demo", str_dict [])].

Definition lock_and_switch_config : pyval :=
  str_dict [("lock.demo", str_dict [("code", PInt 1234)]);
            ("switch.demo", str_dict [("name", PStr "Demo")])].

Definition media_player_config : pyval :=
  str_dict
    [("media_player.demo",
      str_dict
        [("feature_list",
          PList [str_dict [("feature", PStr "on_off")];
                 str_dict [("feature", PStr "play_pause")]])])].

(** What the validator returns for two of the configurations above. *)
Definition lock_and_switch_entities : dict :=
  [(PStr "lock.demo", PDict [(PStr "code", PStr "1234")]);
   (PStr "switch.demo", PDict [(PStr "name", PStr "Demo"); (PStr "type", PStr "switch")])].

Definition media_player_entities : dict :=
  [(PStr "media_player.demo",
    PDict [(PStr "feature_list",
            PDict [(PStr "on_off", PDict []); (PStr "play_pause", PDict [])])])].

(** ** The setup notification *)

(** What the two helpers do to the world around them: a line of the log, a
    call of the notification service. *)
Inductive effect : Type :=
| LogInfo (format : string) (argument : string)
| NotificationCreate (message title : string) (notification_id : pyval)
| NotificationDismiss (notification_id : pyval).

(** [bytes.decode()]: the text of bytes that are UTF-8, and a
    [UnicodeDecodeError], which is a [ValueError], for other bytes.  Text is
    carried as its UTF-8 bytes. *)
Definition continuation (b : nat) : bool := ((128 <=? b) && (b <=? 191))%nat.

Fixpoint utf8_valid (bytes : list nat) : bool :=
  match bytes with
  | [] => true
  | b0 :: rest =>
      if (b0 <? 128)%nat then utf8_valid rest
      else if ((194 <=? b0) && (b0 <=? 223))%nat then
        match rest with
        | b1 :: r => continuation b1 && utf8_valid r
        | _ => false
        end
      else if ((224 <=? b0) && (b0 <=? 239))%nat then
        match rest with
        | b1 :: b2 :: r =>
            (if (b0 =? 224)%nat then ((160 <=? b1) && (b1 <=? 191))%nat
             else if (b0 =? 237)%nat then ((128 <=? b1) && (b1 <=? 159))%nat
             else continuation b1)
            && continuation b2 && utf8_valid r
        | _ => false
        end
      else if ((240 <=? b0) && (b0 <=? 244))%nat then
        match rest with
        | b1 :: b2 :: b3 :: r =>
            (if (b0 =? 240)%nat then ((144 <=? b1) && (b1 <=? 191))%nat
             else if (b0 =? 244)%nat then ((128 <=? b1) && (b1 <=? 143))%nat
             else continuation b1)
            && continuation b2 && continuation b3 && utf8_valid r
        | _ => false
        end
      else false
  end.

Definition bytes_decode (bytes : string) : result string :=
  if utf8_valid (map nat_of_ascii (list_ascii_of_string bytes)) then Ok bytes
  else Raise ValueError.

Section SetupMessage.

(** The identifier of the setup notification, a constant of [.const]. *)
Variable HOMEKIT_NOTIFY_ID : pyval.

(** The message shown for a pin. *)
Definition setup_message (pin : string) : string :=
  "To set up Home Assistant in the Home App, enter the following code:"
  ++ String "010"%char "### " ++ pin.

(** Both helpers take [hass] as the effects so far and give the effects
    after the call; [show_setup_message] gives its outcome with them. *)
Definition show_setup_message (hass : list effect) (pincode : string)
  : result unit * list effect :=
  match bytes_decode pincode with
  | Raise e => (Raise e, hass)
  | Ok pin =>
      let hass := (hass ++ [LogInfo "Pincode: %s" pin])%list in
      let message := setup_message pin in
      (Ok tt,
       (hass ++ [NotificationCreate message "HomeKit Setup" HOMEKIT_NOTIFY_ID])%list)
  end.

Definition dismiss_setup_message (hass : list effect) : list effect :=
  (hass ++ [NotificationDismiss HOMEKIT_NOTIFY_ID])%list.

End SetupMessage.

(** Modelled from the spec: the notification service is outside this file.
    The spec has it create a notification under an identifier and dismiss
    the notification of an identifier; a notification created under an
    identifier takes the place of the one shown under it.  [shown] is the
    message and title shown under an identifier after the effects. *)
Definition notification_step (notification_id : pyval)
           (current : option (string * string)) (e : effect) : option (string * string) :=
  match e with
  | LogInfo _ _ => current
  | NotificationCreate message title i =>
      if key_eqb i notification_id then Some (message, title) else current
  | NotificationDismiss i =>
      if key_eqb i notification_id then None else current
  end.

Definition shown (effects : list effect) (notification_id : pyval)
  : option (string * string) :=
  fold_left (notification_step notification_id) effects None.

(** The number of notifications the effects create. *)
Definition created (effects : list effect) : nat :=
  List.length
    (filter (fun e => match e with NotificationCreate _ _ _ => true | _ => false end)
            effects).

(** The identifier Home Assistant gives the setup notification, and a pin
    code. *)
Definition ha_notify_id : pyval := PInt 4663548.

Definition pin_code : string := "123-45-678".

(** * Properties *)

(** ** The density mapping *)

Lemma real_le_int_finite (q : Q) (n : Z) :
  real_le_int (Finite q) n = true <-> (q <= inject_Z n)%Q.
Proof. simpl. apply Qle_bool_iff. Qed.

Lemma real_le_int_finite_false (q : Q) (n : Z) :
  real_le_int (Finite q) n = false <-> (inject_Z n < q)%Q.
Proof.
  simpl. split; intro Hq.
  - apply Qnot_le_lt. intro Hle. apply Qle_bool_iff in Hle. congruence.
  - destruct (Qle_bool q (inject_Z n)) eqn:E; [ | reflexivity ].
    apply Qle_bool_iff in E. exfalso. apply (Qlt_not_le _ _ Hq E).
Qed.

(** C5: the level is the one the ascending thresholds 35, 75, 115 and 150
    give: 1 up to 35, 2 above 35 up to 75, 3 above 75 up to 115, 4 above 115
    up to 150 and 5 otherwise (above 150, and for a NaN); 35 gives 1, 36
    gives 2 and 151 gives 5. *)
Theorem density_to_air_quality_thresholds :
  (forall q : Q,
      ((q <= 35)%Q -> density_to_air_quality (Finite q) = 1)
      /\ ((35 < q)%Q /\ (q <= 75)%Q -> density_to_air_quality (Finite q) = 2)
      /\ ((75 < q)%Q /\ (q <= 115)%Q -> density_to_air_quality (Finite q) = 3)
      /\ ((115 < q)%Q /\ (q <= 150)%Q -> density_to_air_quality (Finite q) = 4)
      /\ ((150 < q)%Q -> density_to_air_quality (Finite q) = 5))
  /\ density_to_air_quality NegInf = 1
  /\ density_to_air_quality PosInf = 5
  /\ density_to_air_quality NaN = 5
  /\ density_to_air_quality (Finite 35) = 1
  /\ density_to_air_quality (Finite 36) = 2
  /\ density_to_air_quality (Finite 151) = 5.
Proof.
  split; [ | repeat split; reflexivity ].
  intro q. unfold density_to_air_quality.
  destruct (real_le_int (Finite q) 35) eqn:E35;
    [ apply real_le_int_finite in E35 | apply real_le_int_finite_false in E35 ];
  (destruct (real_le_int (Finite q) 75) eqn:E75;
    [ apply real_le_int_finite in E75 | apply real_le_int_finite_false in E75 ]);
  (destruct (real_le_int (Finite q) 115) eqn:E115;
    [ apply real_le_int_finite in E115 | apply real_le_int_finite_false in E115 ]);
  (destruct (real_le_int (Finite q) 150) eqn:E150;
    [ apply real_le_int_finite in E150 | apply real_le_int_finite_false in E150 ]);
  unfold inject_Z in *;
  repeat split; intros; try reflexivity; exfalso; lra.
Qed.

Lemma density_to_air_quality_thresholds_witness :
  density_to_air_quality (Finite 36) = 2.
Proof.
  apply (proj1 (proj2 (proj1 density_to_air_quality_thresholds 36%Q))).
  split; [ reflexivity | discriminate ].
Defined.

(** ** The media-player feature check *)

Lemma truthy_true (z : Z) : truthy z = true <-> z <> 0.
Proof.
  unfold truthy. rewrite negb_true_iff, Z.eqb_neq. reflexivity.
Qed.

Lemma land_absorb (p q : Z) : Z.land p (Z.lor p q) = p.
Proof.
  apply Z.bits_inj. intro n.
  rewrite Z.land_spec, Z.lor_spec.
  destruct (Z.testbit p n), (Z.testbit q n); reflexivity.
Qed.

Section MediaPlayerFeaturesProperties.
Context {C : Consts}.

Lemma supportsb_spec (bits : Z) (feature : string) :
  supportsb bits feature = true <-> supports bits feature.
Proof.
  unfold supportsb, supports.
  rewrite !orb_true_iff, !andb_true_iff, !String.eqb_eq, !truthy_true.
  tauto.
Qed.

Lemma features_of_bitmask (state : State) (bits : Z) :
  bitmask_is state bits ->
  dict_get_default (attributes state) (PStr ATTR_SUPPORTED_FEATURES) (PInt 0) = PInt bits.
Proof.
  unfold bitmask_is, dict_get_default.
  intros [-> | [-> ->]]; reflexivity.
Qed.

(** The function, once the bitmask it computes with is known. *)
Lemma validate_media_player_features_bits (state : State) (feature_list : list string)
      (bits : Z) :
  state_bitmask state = Some bits ->
  validate_media_player_features state feature_list =
  match filter (fun feature => negb (supportsb bits feature)) feature_list with
  | [] => Ok (true, [])
  | _ :: _ =>
      Ok (false,
          [{| log_entity := entity_id state;
              log_features :=
                filter (fun feature => negb (supportsb bits feature)) feature_list |}])
  end.
Proof.
  intro Hbits. unfold validate_media_player_features.
  assert (Hand : forall m,
             py_and (dict_get_default (attributes state) (PStr ATTR_SUPPORTED_FEATURES)
                                      (PInt 0)) m = Ok (Z.land bits m)).
  { intro m. unfold state_bitmask in Hbits. unfold dict_get_default.
    destruct (dict_get (attributes state) (PStr ATTR_SUPPORTED_FEATURES))
      as [ [ | b | z | x | s | l | d ] | ]; inversion Hbits; reflexivity. }
  rewrite !Hand. cbn [bind].
  match goal with
  | |- context [filter ?f feature_list] =>
      assert (Hext : forall feature, f feature = negb (supportsb bits feature))
  end.
  { intro feature. unfold supportsb, str_in. f_equal.
    destruct (truthy (Z.land bits (Z.lor SUPPORT_TURN_ON SUPPORT_TURN_OFF)));
      destruct (truthy (Z.land bits (Z.lor SUPPORT_PLAY SUPPORT_PAUSE)));
      destruct (truthy (Z.land bits (Z.lor SUPPORT_PLAY SUPPORT_STOP)));
      destruct (truthy (Z.land bits SUPPORT_VOLUME_MUTE));
      cbn [app existsb];
      destruct (String.eqb feature FEATURE_ON_OFF);
      destruct (String.eqb feature FEATURE_PLAY_PAUSE);
      destruct (String.eqb feature FEATURE_PLAY_STOP);
      destruct (String.eqb feature FEATURE_TOGGLE_MUTE);
      reflexivity. }
  rewrite (filter_ext _ _ Hext).
  reflexivity.
Qed.

Lemma state_bitmask_of_bitmask_is (state : State) (bits : Z) :
  bitmask_is state bits -> state_bitmask state = Some bits.
Proof.
  unfold bitmask_is, state_bitmask.
  intros [-> | [-> ->]]; reflexivity.
Qed.

(** The function, once the bitmask is known to be an integer. *)
Lemma validate_media_player_features_eq (state : State) (feature_list : list string)
      (bits : Z) :
  bitmask_is state bits ->
  validate_media_player_features state feature_list =
  match filter (fun feature => negb (supportsb bits feature)) feature_list with
  | [] => Ok (true, [])
  | _ :: _ =>
      Ok (false,
          [{| log_entity := entity_id state;
              log_features :=
                filter (fun feature => negb (supportsb bits feature)) feature_list |}])
  end.
Proof.
  intro Hbits. apply validate_media_player_features_bits.
  apply state_bitmask_of_bitmask_is. exact Hbits.
Qed.

Lemma validate_media_player_features_no_bitmask (state : State)
      (feature_list : list string) :
  state_bitmask state = None ->
  validate_media_player_features state feature_list = Raise TypeError.
Proof.
  unfold state_bitmask, validate_media_player_features, dict_get_default.
  destruct (dict_get (attributes state) (PStr ATTR_SUPPORTED_FEATURES))
    as [ [ | b | z | x | s | l | d ] | ]; try discriminate; reflexivity.
Qed.

Lemma no_unsupported_iff (bits : Z) (feature_list : list string) :
  filter (fun feature => negb (supportsb bits feature)) feature_list = []
  <-> Forall (supports bits) feature_list.
Proof.
  induction feature_list as [ | feature rest IH ]; cbn [filter].
  - split; [ constructor | reflexivity ].
  - destruct (supportsb bits feature) eqn:E; cbn [negb].
    + rewrite IH. apply supportsb_spec in E.
      split; [ intro Hr; constructor; assumption | intro Hr; inversion Hr; assumption ].
    + split; [ discriminate | ].
      intro Hr. inversion Hr as [ | ? ? Hs ? ]; subst.
      apply supportsb_spec in Hs. congruence.
Qed.

(** C2: when the state's bitmask is an integer (or missing, read as 0) the
    check returns true exactly when every requested feature is in the
    supported set derived from the bitmask by the four fixed tests; with
    only turn-on/turn-off bits set, a request containing play/pause gives
    false and a request of on/off alone gives true. *)
Theorem validate_media_player_features_iff
        (state : State) (feature_list : list string) (bits : Z) :
  bitmask_is state bits ->
  (exists b log,
      validate_media_player_features state feature_list = Ok (b, log)
      /\ (b = true <-> Forall (supports bits) feature_list))
  /\ (NoDup [FEATURE_ON_OFF; FEATURE_PLAY_PAUSE; FEATURE_PLAY_STOP; FEATURE_TOGGLE_MUTE] ->
      Z.land (Z.lor SUPPORT_TURN_ON SUPPORT_TURN_OFF) (Z.lor SUPPORT_PLAY SUPPORT_PAUSE) = 0 ->
      bits <> 0 ->
      Z.land bits (Z.lor SUPPORT_TURN_ON SUPPORT_TURN_OFF) = bits ->
      (In FEATURE_PLAY_PAUSE feature_list ->
       exists log, validate_media_player_features state feature_list = Ok (false, log))
      /\ (Forall (eq FEATURE_ON_OFF) feature_list ->
          validate_media_player_features state feature_list = Ok (true, []))).
Proof.
  intro Hbits.
  rewrite (validate_media_player_features_eq _ _ _ Hbits).
  pose proof (no_unsupported_iff bits feature_list) as Hiff.
  split.
  - destruct (filter _ feature_list) as [ | f errs ] eqn:E.
    + exists true, []. split; [ reflexivity | ].
      split; [ intros _; apply Hiff; reflexivity | reflexivity ].
    + eexists false, _. split; [ reflexivity | ].
      split; [ discriminate | ].
      intro Hall. apply Hiff in Hall. discriminate.
  - intros Hnames Hflags Hnz Honly. split.
    + intro Hin.
      destruct (filter _ feature_list) as [ | f errs ] eqn:E.
      * exfalso. assert (Hall : Forall (supports bits) feature_list) by (apply Hiff; reflexivity).
        rewrite Forall_forall in Hall. specialize (Hall _ Hin).
        inversion Hnames as [ | ? ? Hn1 Hr1 ]; subst.
        inversion Hr1 as [ | ? ? Hn2 Hr2 ]; subst.
        destruct Hall as [[Heq _] | [[_ Hland] | [[Heq _] | [Heq _]]]].
        -- apply Hn1. rewrite <- Heq. left. reflexivity.
        -- apply Hland. rewrite <- Honly, <- Z.land_assoc, Hflags.
           apply Z.land_0_r.
        -- apply Hn2. rewrite <- Heq. left. reflexivity.
        -- apply Hn2. rewrite <- Heq. right. left. reflexivity.
      * eexists. reflexivity.
    + intro Hall.
      assert (Hsup : Forall (supports bits) feature_list).
      { eapply Forall_impl; [ | exact Hall ].
        intros f <-. left. split; [ reflexivity | ]. rewrite Honly. exact Hnz. }
      apply Hiff in Hsup. rewrite Hsup. reflexivity.
Qed.

(** C8, as the code has it: the check raises nothing when the bitmask
    attribute is missing (read as 0), an integer or a boolean (counting as
    1 or 0): when some requested feature is unsupported the result is false
    and the unsupported features, in the order requested, are logged for
    the entity; otherwise the result is true and nothing is logged.  When
    the attribute is present with a value of any other type the check
    raises a [TypeError], whatever is requested. *)
Theorem validate_media_player_features_raises_only_type_error
        (state : State) (feature_list : list string) :
  let outcome (bits : Z) : Prop :=
    let unsupported :=
      filter (fun feature => negb (supportsb bits feature)) feature_list in
    (forall feature,
        In feature unsupported <-> In feature feature_list /\ ~ supports bits feature)
    /\ (Forall (supports bits) feature_list ->
        validate_media_player_features state feature_list = Ok (true, []))
    /\ (~ Forall (supports bits) feature_list ->
        unsupported <> []
        /\ validate_media_player_features state feature_list =
           Ok (false, [{| log_entity := entity_id state; log_features := unsupported |}]))
  in
  match dict_get (attributes state) (PStr ATTR_SUPPORTED_FEATURES) with
  | None => outcome 0
  | Some (PInt bits) => outcome bits
  | Some (PBool b) => outcome (Z.b2z b)
  | Some _ => validate_media_player_features state feature_list = Raise TypeError
  end.
Proof.
  intro outcome.
  assert (Hok : forall bits, state_bitmask state = Some bits -> outcome bits).
  { intros bits Hbits. unfold outcome. cbv zeta.
    set (unsupported := filter (fun feature => negb (supportsb bits feature)) feature_list).
    pose proof (no_unsupported_iff bits feature_list) as Hiff.
    fold unsupported in Hiff.
    rewrite (validate_media_player_features_bits _ _ _ Hbits). fold unsupported.
    split; [ | split ].
    - intro feature. unfold unsupported. rewrite filter_In. split.
      + intros [Hin Hneg]. split; [ exact Hin | ].
        intro Hs. apply supportsb_spec in Hs. rewrite Hs in Hneg. discriminate.
      + intros [Hin Hns]. split; [ exact Hin | ].
        destruct (supportsb bits feature) eqn:E; [ | reflexivity ].
        exfalso. apply Hns. apply supportsb_spec. exact E.
    - intro Hall. apply Hiff in Hall. rewrite Hall. reflexivity.
    - intro Hnot.
      destruct unsupported as [ | f errs ];
        [ exfalso; apply Hnot; apply Hiff; reflexivity | ].
      split; [ discriminate | reflexivity ]. }
  pose proof (validate_media_player_features_no_bitmask state feature_list) as Hraise.
  unfold state_bitmask in Hok, Hraise.
  destruct (dict_get (attributes state) (PStr ATTR_SUPPORTED_FEATURES))
    as [ [ | b | z | x | s | l | d ] | ];
    try (apply Hok; reflexivity); apply Hraise; reflexivity.
Qed.

(** C10: each pair of flags is tested with a bitwise or, so a bitmask that
    is the play flag alone supports both play/pause and play/stop: a
    request for either of them returns true. *)
Theorem play_bit_supports_pause_and_stop (state : State) :
  SUPPORT_PLAY <> 0 ->
  bitmask_is state SUPPORT_PLAY ->
  validate_media_player_features state [FEATURE_PLAY_PAUSE] = Ok (true, [])
  /\ validate_media_player_features state [FEATURE_PLAY_STOP] = Ok (true, []).
Proof.
  intros Hnz Hbits.
  rewrite !(validate_media_player_features_eq _ _ _ Hbits).
  assert (Hpause : supportsb SUPPORT_PLAY FEATURE_PLAY_PAUSE = true).
  { apply supportsb_spec. right. left. split; [ reflexivity | ].
    rewrite land_absorb. exact Hnz. }
  assert (Hstop : supportsb SUPPORT_PLAY FEATURE_PLAY_STOP = true).
  { apply supportsb_spec. right. right. left. split; [ reflexivity | ].
    rewrite land_absorb. exact Hnz. }
  cbn [filter]. rewrite Hpause, Hstop. split; reflexivity.
Qed.

End MediaPlayerFeaturesProperties.

Lemma validate_media_player_features_iff_witness :
  exists log, validate_media_player_features on_off_player ["play_pause"] = Ok (false, log).
Proof.
  refine (proj1 (proj2 (validate_media_player_features_iff
                          on_off_player ["play_pause"] 384 _) _ _ _ _) _).
  - left. reflexivity.
  - repeat constructor; cbn; intuition discriminate.
  - reflexivity.
  - discriminate.
  - reflexivity.
  - left. reflexivity.
Defined.

Lemma validate_media_player_features_raises_only_type_error_witness :
  validate_media_player_features flag_bitmask_player ["on_off"] =
  Ok (false, [{| log_entity := "media_player.demo"; log_features := ["on_off"] |}]).
Proof.
  refine (proj2 (proj2 (proj2 (validate_media_player_features_raises_only_type_error
                                 flag_bitmask_player ["on_off"])) _)).
  intro Hall. inversion Hall as [ | ? ? Hs ? ]; subst.
  apply supportsb_spec in Hs. discriminate.
Defined.

(** C8 as stated fails: a state whose bitmask attribute is a text makes the
    check raise a [TypeError], even when no feature is requested. *)
Lemma validate_media_player_features_raises_on_text :
  validate_media_player_features text_bitmask_player [] = Raise TypeError.
Proof. reflexivity. Qed.

Lemma play_bit_supports_pause_and_stop_witness :
  validate_media_player_features play_only_player ["play_pause"] = Ok (true, [])
  /\ validate_media_player_features play_only_player ["play_stop"] = Ok (true, []).
Proof.
  refine (play_bit_supports_pause_and_stop play_only_player _ _).
  - discriminate.
  - left. reflexivity.
Defined.

(** ** The safe float conversion *)

Lemma py_float_raises (v : pyval) (e : exn) :
  py_float v = Raise e ->
  e = TypeError \/ e = ValueError
  \/ (e = OverflowError /\ exists z, v = PInt z /\ float_of_int z = Raise OverflowError).
Proof.
  destruct v as [ | b | z | x | s | l | d ]; cbn [py_float]; intro Hr;
    try (inversion Hr; auto; fail).
  - right. right.
    assert (He : e = OverflowError).
    { unfold float_of_int in Hr.
      destruct (binary64_round (inject_Z z)); inversion Hr; reflexivity. }
    subst e. split; [ reflexivity | ]. exists z. split; [ reflexivity | exact Hr ].
  - destruct (float_of_string s); inversion Hr. auto.
Qed.

(** What the function does: the float value when [float] accepts the input,
    null when [float] raises a [ValueError] or a [TypeError]; the call
    raises only for an integer too large for a float, whose [OverflowError]
    is not caught; ["12.5"] gives 12.5, ["abc"] and [None] give null. *)
Lemma convert_to_float_cases (state : pyval) :
  (forall e,
      convert_to_float state = Raise e <->
      e = OverflowError /\ exists z, state = PInt z /\ float_of_int z = Raise OverflowError)
  /\ convert_to_float (PStr "12.5") = Ok (PFloat (Finite (25 # 2)))
  /\ convert_to_float (PStr "1e3") = Ok (PFloat (Finite 1000))
  /\ convert_to_float (PStr "1e400") = Ok (PFloat PosInf)
  /\ convert_to_float (PStr "abc") = Ok PNone
  /\ convert_to_float (PStr "1e5e5") = Ok PNone
  /\ convert_to_float (PStr "3e1x2") = Ok PNone
  /\ convert_to_float (PStr "1e2.5") = Ok PNone
  /\ convert_to_float PNone = Ok PNone.
Proof.
  unfold convert_to_float.
  split; [ | repeat split; vm_compute; reflexivity ].
  intro e. split.
  - destruct (py_float state) as [ x | e' ] eqn:E; [ discriminate | ].
    destruct (py_float_raises _ _ E) as [-> | [-> | [-> Hz]]]; try discriminate.
    intro Hr. inversion Hr. split; [ reflexivity | exact Hz ].
  - intros [-> [z [-> Hz]]]. cbn [py_float]. rewrite Hz. reflexivity.
Qed.

(** C6 fails on the code: an integer beyond the float range, here
    [10 ** 400], makes [float] raise an [OverflowError], which the
    [except] clause does not name, so that [convert_to_float] raises
    instead of returning null. *)
Theorem convert_to_float_overflow :
  convert_to_float (PInt (10 ^ 400)) = Raise OverflowError.
Proof. vm_compute. reflexivity. Qed.

(** ** The temperature conversions *)

Lemma round_half_even_close (q : Q) :
  (inject_Z (round_half_even q) - q <= 1 # 2)%Q
  /\ (q - inject_Z (round_half_even q) <= 1 # 2)%Q.
Proof.
  unfold round_half_even.
  pose proof (Qfloor_le q) as Hlo.
  pose proof (Qlt_floor q) as Hhi.
  rewrite inject_Z_plus in Hhi. change (inject_Z 1) with 1%Q in Hhi.
  destruct (Qcompare (q - inject_Z (Qfloor q)) (1 # 2)) eqn:E.
  - apply Qeq_alt in E.
    destruct (Z.even (Qfloor q));
      [ | rewrite inject_Z_plus; change (inject_Z 1) with 1%Q ]; split; lra.
  - apply Qlt_alt in E. split; lra.
  - apply Qgt_alt in E. rewrite inject_Z_plus. change (inject_Z 1) with 1%Q.
    split; lra.
Qed.

Lemma round_half_even_comp (p q : Q) :
  (p == q)%Q -> round_half_even p = round_half_even q.
Proof.
  intro Heq. unfold round_half_even.
  rewrite (Qfloor_comp _ _ Heq).
  assert (Hc : Qcompare (p - inject_Z (Qfloor q)) (1 # 2)
               = Qcompare (q - inject_Z (Qfloor q)) (1 # 2)).
  { apply Qcompare_comp; [ rewrite Heq | ]; reflexivity. }
  rewrite Hc. reflexivity.
Qed.

Lemma round_half_even_Z (n : Z) : round_half_even (inject_Z n) = n.
Proof.
  unfold round_half_even. rewrite Qfloor_Z.
  destruct (Qcompare (inject_Z n - inject_Z n) (1 # 2)) eqn:E.
  - apply Qeq_alt in E. exfalso. lra.
  - reflexivity.
  - apply Qgt_alt in E. exfalso. lra.
Qed.

(** Powers of two. *)

Lemma two_power_pos (e : Z) : (0 < two_power e)%Q.
Proof. apply Qpower_0_lt. reflexivity. Qed.

Lemma two_power_plus (a b : Z) : (two_power (a + b) == two_power a * two_power b)%Q.
Proof. apply Qpower_plus. discriminate. Qed.

Lemma two_power_Z (n : Z) : 0 <= n -> (two_power n == inject_Z (2 ^ n))%Q.
Proof. intro Hn. symmetry. apply (Zpower_Qpower 2 n Hn). Qed.

Lemma two_power_le (a b : Z) : a <= b -> (two_power a <= two_power b)%Q.
Proof. intro Hab. apply Qpower_le_compat_l; [ exact Hab | discriminate ]. Qed.

Lemma two_power_lt_inv (a b : Z) : (two_power a < two_power b)%Q -> a < b.
Proof. intro Hlt. apply (Qpower_lt_compat_l_inv 2); [ exact Hlt | reflexivity ]. Qed.

Lemma two_power_succ (a : Z) : (two_power (a + 1) == 2 * two_power a)%Q.
Proof. rewrite two_power_plus. change (two_power 1) with 2%Q. ring. Qed.

Lemma floor_log2_le (q : Q) : (0 < q)%Q -> (two_power (floor_log2 q) <= q)%Q.
Proof.
  intro Hq. unfold floor_log2.
  set (la := Z.log2 (Qnum q)). set (lb := Z.log2 (Z.pos (Qden q))).
  destruct (Qle_bool (two_power (la - lb)) q) eqn:E; [ apply Qle_bool_iff; exact E | ].
  assert (Ha : 0 < Qnum q).
  { destruct q as [a b]. unfold Qlt in Hq. cbn in *. lia. }
  destruct (Z.log2_spec (Qnum q) Ha) as [Hlo _]. fold la in Hlo.
  destruct (Z.log2_spec (Z.pos (Qden q)) eq_refl) as [_ Hhi]. fold lb in Hhi.
  assert (Hla : 0 <= la) by apply Z.log2_nonneg.
  assert (Hlb : 0 <= lb) by apply Z.log2_nonneg.
  assert (Hsplit : (two_power (la - lb - 1) * two_power (lb + 1) == two_power la)%Q).
  { rewrite <- two_power_plus. replace (la - lb - 1 + (lb + 1)) with la by lia.
    reflexivity. }
  rewrite (two_power_Z la Hla), (two_power_Z (lb + 1)) in Hsplit by lia.
  pose proof (two_power_pos (la - lb - 1)) as Hp.
  set (P := two_power (la - lb - 1)) in *.
  destruct (Qlt_le_dec q P) as [Hlt | Hle]; [ exfalso | exact Hle ].
  assert (Hq' : (q * inject_Z (Z.pos (Qden q)) == inject_Z (Qnum q))%Q).
  { destruct q as [a b]. unfold Qeq. cbn. lia. }
  rewrite Zle_Qle in Hlo. rewrite Z.succ_lt_mono in Hhi.
  replace (Z.succ (2 ^ Z.succ lb)) with (2 ^ (lb + 1) + 1) in Hhi by (unfold Z.succ; lia).
  apply Z.lt_succ_r in Hhi.
  assert (Hhi' : Z.pos (Qden q) <= 2 ^ (lb + 1)) by lia.
  rewrite Zle_Qle in Hhi'.
  assert (Hb : (0 < inject_Z (Z.pos (Qden q)))%Q) by reflexivity.
  set (B := inject_Z (Z.pos (Qden q))) in *.
  set (A := inject_Z (Qnum q)) in *.
  set (B2 := inject_Z (2 ^ (lb + 1))) in *.
  set (A2 := inject_Z (2 ^ la)) in *.
  assert (H1 : (q * B < P * B)%Q) by (apply Qmult_lt_compat_r; assumption).
  assert (H2 : (P * B <= P * B2)%Q).
  { rewrite (Qmult_comm P B), (Qmult_comm P B2).
    apply Qmult_le_compat_r; [ exact Hhi' | apply Qlt_le_weak; exact Hp ]. }
  lra.
Qed.

(** Rounding to binary64. *)

Lemma rounding_exponent_bound (q : Q) (K : Z) :
  ~ (q == 0)%Q -> (Qabs q < two_power K)%Q ->
  rounding_exponent q <= Z.max (-1074) (K - 53).
Proof.
  intros Hq HK. unfold rounding_exponent.
  assert (Hpos : (0 < Qabs q)%Q).
  { destruct (Qlt_le_dec 0 (Qabs q)) as [Hlt | Hle]; [ exact Hlt | ].
    exfalso. apply Hq. apply Qabs_Qle_condition in Hle. lra. }
  pose proof (floor_log2_le _ Hpos) as Hfl.
  assert (Hlt : floor_log2 (Qabs q) < K).
  { apply two_power_lt_inv. eapply Qle_lt_trans; eassumption. }
  lia.
Qed.

(** The rounded value before the range check: within half a unit in the
    last place. *)
Lemma rounding_close (q : Q) :
  let e := rounding_exponent q in
  let r := (inject_Z (round_half_even (q / two_power e)) * two_power e)%Q in
  (Qabs (r - q) <= two_power e / 2)%Q.
Proof.
  intros e r. unfold r.
  pose proof (two_power_pos e) as Hs.
  set (s := two_power e) in *.
  assert (Hy : (q == q / s * s)%Q) by (field; lra).
  set (y := (q / s)%Q) in *.
  destruct (round_half_even_close y) as [Hup Hdown].
  set (m := inject_Z (round_half_even y)) in *.
  assert (H1 : ((m - y) * s <= (1 # 2) * s)%Q)
    by (apply Qmult_le_compat_r; [ exact Hup | lra ]).
  assert (H2 : ((y - m) * s <= (1 # 2) * s)%Q)
    by (apply Qmult_le_compat_r; [ exact Hdown | lra ]).
  assert (Hd : (s / 2 == (1 # 2) * s)%Q) by field.
  rewrite Hd. apply Qabs_Qle_condition. split; lra.
Qed.

Lemma binary64_round_value (q : Q) :
  ~ (q == 0)%Q ->
  let e := rounding_exponent q in
  let r := (inject_Z (round_half_even (q / two_power e)) * two_power e)%Q in
  (Qabs r < two_power 1024)%Q ->
  binary64_round q = Finite (Qred r).
Proof.
  intros Hq e r Hr. unfold binary64_round.
  destruct (Qeq_bool q 0) eqn:E; [ apply Qeq_bool_iff in E; contradiction | ].
  fold e. fold r.
  destruct (Qle_bool (two_power 1024) (Qabs (Qred r))) eqn:Eo; [ | reflexivity ].
  apply Qle_bool_iff in Eo. rewrite Qred_correct in Eo. exfalso. lra.
Qed.

Lemma binary64_round_zero (q : Q) : (q == 0)%Q -> binary64_round q = Finite 0.
Proof.
  intro Hq. unfold binary64_round.
  apply Qeq_bool_iff in Hq. rewrite Hq. reflexivity.
Qed.

(** The rounding error below [2^K]: half a unit in the last place of the
    numbers of that magnitude. *)
Lemma binary64_round_close (q : Q) (K : Z) :
  -1021 <= K <= 1023 ->
  (Qabs q < two_power K)%Q ->
  exists r, binary64_round q = Finite r /\ (Qabs (r - q) <= two_power (K - 54))%Q.
Proof.
  intros HK Hlt.
  destruct (Qeq_dec q 0) as [Hz | Hnz].
  - exists 0%Q. split; [ apply binary64_round_zero; exact Hz | ].
    pose proof (two_power_pos (K - 54)) as Hp.
    apply Qabs_Qle_condition. rewrite Hz. split; lra.
  - pose proof (rounding_exponent_bound q K Hnz Hlt) as He.
    pose proof (rounding_close q) as Hc. cbv zeta in Hc.
    set (e := rounding_exponent q) in *.
    set (r := (inject_Z (round_half_even (q / two_power e)) * two_power e)%Q) in *.
    assert (Hee : e <= K - 53) by lia.
    pose proof (two_power_le _ _ Hee) as Hpe.
    pose proof (two_power_succ (K - 54)) as Hs.
    replace (K - 54 + 1) with (K - 53) in Hs by lia.
    assert (Herr : (Qabs (r - q) <= two_power (K - 54))%Q).
    { eapply Qle_trans; [ exact Hc | ].
      set (a := two_power e) in *. set (b := two_power (K - 53)) in *.
      set (c := two_power (K - 54)) in *.
      assert (Hd : (a / 2 == (1 # 2) * a)%Q) by field. rewrite Hd. lra. }
    exists (Qred r). split.
    + apply (binary64_round_value q Hnz). fold e. fold r.
      assert (H1 : (two_power K <= two_power 1023)%Q) by (apply two_power_le; lia).
      assert (H2 : (two_power (K - 54) <= two_power 969)%Q) by (apply two_power_le; lia).
      assert (H3 : (two_power 1023 + two_power 969 < two_power 1024)%Q)
        by (vm_compute; reflexivity).
      apply Qabs_Qle_condition in Herr. apply Qabs_Qlt_condition in Hlt.
      apply Qabs_Qlt_condition.
      set (a := two_power K) in *. set (c := two_power (K - 54)) in *.
      set (t1 := two_power 1023) in *. set (t2 := two_power 969) in *.
      set (t3 := two_power 1024) in *.
      split; lra.
    + rewrite Qred_correct. exact Herr.
Qed.

(** A binary64 number rounds to itself. *)
Lemma binary64_round_exact (x : Q) :
  is_binary64 x -> binary64_round x = Finite (Qred x).
Proof.
  intros [m [e0 [Hm [He0 [Hx Hrange]]]]].
  destruct (Qeq_dec x 0) as [Hz | Hnz].
  - rewrite (binary64_round_zero x Hz). f_equal.
    symmetry. apply (Qred_complete x 0 Hz).
  - assert (Hlt : (Qabs x < two_power (53 + e0))%Q).
    { rewrite Hx, Qabs_Qmult, two_power_plus.
      rewrite (Qabs_pos (two_power e0)) by (apply Qlt_le_weak, two_power_pos).
      apply Qmult_lt_compat_r; [ apply two_power_pos | ].
      rewrite (two_power_Z 53) by lia.
      change (Qabs (inject_Z m)) with (inject_Z (Z.abs m)).
      rewrite <- Zlt_Qlt. exact Hm. }
    pose proof (rounding_exponent_bound x (53 + e0) Hnz Hlt) as He.
    set (e := rounding_exponent x) in *.
    assert (Hee : e <= e0) by lia.
    assert (Hscaled : (x / two_power e == inject_Z (m * 2 ^ (e0 - e)))%Q).
    { rewrite inject_Z_mult, <- (two_power_Z (e0 - e)) by lia.
      rewrite Hx. replace e0 with (e0 - e + e) at 1 by lia.
      rewrite two_power_plus.
      pose proof (two_power_pos e) as Hp. field. lra. }
    assert (Hr : (inject_Z (round_half_even (x / two_power e)) * two_power e == x)%Q).
    { rewrite (round_half_even_comp _ _ Hscaled), round_half_even_Z.
      rewrite <- Hscaled. pose proof (two_power_pos e) as Hp. field. lra. }
    rewrite (binary64_round_value x Hnz); fold e.
    + f_equal. apply Qred_complete. exact Hr.
    + rewrite Hr. exact Hrange.
Qed.

Lemma is_binary64_comp (p q : Q) : (p == q)%Q -> is_binary64 p -> is_binary64 q.
Proof.
  intros Hpq [m [e [Hm [He [Hp Hr]]]]]. exists m, e.
  split; [ exact Hm | ]. split; [ exact He | ].
  split; [ rewrite <- Hpq; exact Hp | rewrite <- Hpq; exact Hr ].
Qed.

Lemma is_binary64_Z (n : Z) : Z.abs n < 2 ^ 53 -> is_binary64 (inject_Z n).
Proof.
  intro Hn. exists n, 0. split; [ exact Hn | ]. split; [ lia | ].
  split; [ change (two_power 0) with 1%Q; ring | ].
  change (Qabs (inject_Z n)) with (inject_Z (Z.abs n)).
  rewrite (two_power_Z 1024) by lia. rewrite <- Zlt_Qlt.
  eapply Z.lt_trans; [ exact Hn | ]. reflexivity.
Qed.

Lemma is_binary64_half_Z (n : Z) : Z.abs n < 2 ^ 53 -> is_binary64 (inject_Z n / 2).
Proof.
  intro Hn. exists n, (-1). split; [ exact Hn | ]. split; [ lia | ].
  split; [ change (two_power (-1)) with (1 # 2)%Q; field | ].
  assert (Hle : (Qabs (inject_Z n / 2) <= inject_Z (Z.abs n))%Q).
  { change (inject_Z (Z.abs n)) with (Qabs (inject_Z n)).
    set (x := inject_Z n).
    apply Qabs_Qle_condition.
    pose proof (Qabs_nonneg x) as H0. pose proof (Qle_Qabs x) as H1.
    pose proof (Qle_Qabs (- x)) as H2. rewrite Qabs_opp in H2.
    assert (Hh : (x == 2 * (x / 2))%Q) by field.
    set (h := (x / 2)%Q) in *. split; lra. }
  eapply Qle_lt_trans; [ exact Hle | ].
  rewrite (two_power_Z 1024) by lia. rewrite <- Zlt_Qlt.
  eapply Z.lt_trans; [ exact Hn | ]. reflexivity.
Qed.

(** Doubling a binary64 number below [2^1023] is exact, and the nearest
    integer of the double is a binary64 number, as is its half. *)
Lemma doubled_binary64 (t : Q) :
  is_binary64 t -> (Qabs t < two_power 1023)%Q ->
  let n := round_half_even (t * 2) in
  is_binary64 (t * 2)
  /\ is_binary64 (inject_Z n)
  /\ is_binary64 (inject_Z n / 2)
  /\ (Qabs (inject_Z n / 2) < two_power 1023)%Q.
Proof.
  intros [m [e [Hm [He [Ht Hr]]]]] Hlt n.
  assert (Ht2 : (t * 2 == inject_Z m * two_power (e + 1))%Q).
  { rewrite two_power_succ, Ht. ring. }
  assert (Hdouble : is_binary64 (t * 2)).
  { exists m, (e + 1). split; [ exact Hm | ]. split; [ lia | ].
    split; [ exact Ht2 | ].
    rewrite Qabs_Qmult. change (Qabs 2) with 2%Q.
    pose proof (two_power_succ 1023) as Hs. change (1023 + 1) with 1024 in Hs.
    rewrite Hs. lra. }
  split; [ exact Hdouble | ].
  destruct (Z_le_gt_dec 0 (e + 1)) as [Hpos | Hneg].
  - (* the double is an integer *)
    assert (Hint : (t * 2 == inject_Z (m * 2 ^ (e + 1)))%Q).
    { rewrite inject_Z_mult, <- (two_power_Z (e + 1) Hpos). exact Ht2. }
    assert (Hn : n = m * 2 ^ (e + 1)).
    { unfold n. rewrite (round_half_even_comp _ _ Hint). apply round_half_even_Z. }
    assert (Hhalf : (t == inject_Z n / 2)%Q).
    { rewrite Hn, <- Hint. field. }
    split; [ | split ].
    + apply (is_binary64_comp (t * 2)); [ rewrite Hn; exact Hint | exact Hdouble ].
    + apply (is_binary64_comp t); [ exact Hhalf | ].
      exists m, e. repeat split; assumption.
    + rewrite <- Hhalf. exact Hlt.
  - (* the double is below [2^52] *)
    assert (Hs : (two_power (e + 1) <= 1 # 2)%Q).
    { change (1 # 2)%Q with (two_power (-1)). apply two_power_le. lia. }
    pose proof (two_power_pos (e + 1)) as Hp.
    assert (Hm' : (inject_Z (Z.abs m) <= inject_Z (2 ^ 53 - 1))%Q)
      by (rewrite <- Zle_Qle; lia).
    assert (Hbound : (Qabs (t * 2) <= inject_Z (2 ^ 53 - 1) * (1 # 2))%Q).
    { rewrite Ht2, Qabs_Qmult.
      rewrite (Qabs_pos (two_power (e + 1))) by lra.
      change (Qabs (inject_Z m)) with (inject_Z (Z.abs m)).
      eapply Qle_trans.
      - apply Qmult_le_compat_r; [ exact Hm' | lra ].
      - rewrite !(Qmult_comm (inject_Z (2 ^ 53 - 1))).
        apply Qmult_le_compat_r; [ exact Hs | ].
        change 0%Q with (inject_Z 0). rewrite <- Zle_Qle. lia. }
    destruct (round_half_even_close (t * 2)) as [Hup Hdown]. fold n in Hup, Hdown.
    apply Qabs_Qle_condition in Hbound.
    assert (Hn : Z.abs n < 2 ^ 53).
    { assert (Hhi : n < 2 ^ 53).
      { rewrite Zlt_Qlt.
        change (inject_Z (2 ^ 53)) with 9007199254740992%Q.
        change (inject_Z (2 ^ 53 - 1) * (1 # 2))%Q
          with (9007199254740991 * (1 # 2))%Q in Hbound. lra. }
      assert (Hlo : - 2 ^ 53 < n).
      { rewrite Zlt_Qlt.
        change (inject_Z (- 2 ^ 53)) with (-9007199254740992)%Q.
        change (inject_Z (2 ^ 53 - 1) * (1 # 2))%Q
          with (9007199254740991 * (1 # 2))%Q in Hbound. lra. }
      lia. }
    split; [ apply is_binary64_Z; exact Hn | ].
    split; [ apply is_binary64_half_Z; exact Hn | ].
    assert (Hh : (inject_Z n == 2 * (inject_Z n / 2))%Q) by field.
    set (h := (inject_Z n / 2)%Q) in *.
    assert (Hbig : (9007199254740992 < two_power 1023)%Q) by (vm_compute; reflexivity).
    set (top := two_power 1023) in *.
    change (inject_Z (2 ^ 53 - 1) * (1 # 2))%Q
      with (9007199254740991 * (1 # 2))%Q in Hbound.
    apply Qabs_Qlt_condition. split; lra.
Qed.

Lemma int_halved_exact (n : Z) :
  is_binary64 (inject_Z n / 2) ->
  int_halved n = Ok (Finite (Qred (inject_Z n / 2))).
Proof.
  intro Hh. unfold int_halved.
  rewrite (binary64_round_exact _ Hh). reflexivity.
Qed.

(** Rounding a binary64 number below [2^1023] to the nearest half is exact
    arithmetic: the result is the nearest integer of the double, halved. *)
Lemma round_to_half_exact (t : Q) :
  is_binary64 t -> (Qabs t < two_power 1023)%Q ->
  round_to_half (Finite t) = Ok (Finite (Qred (inject_Z (round_half_even (t * 2)) / 2))).
Proof.
  intros Ht Hlt.
  destruct (doubled_binary64 t Ht Hlt) as [Hdouble [_ [Hhalf _]]].
  unfold round_to_half. cbn [float_op].
  rewrite (binary64_round_exact _ Hdouble). cbn [py_round bind].
  rewrite (round_half_even_comp _ _ (Qred_correct (t * 2))).
  apply int_halved_exact. exact Hhalf.
Qed.

(** Below [2^21] a rounding moves a number by [2^-33] at most, less than
    a billionth. *)
Lemma binary64_round_near (x : Q) :
  (Qabs x < 2097152)%Q ->
  exists r, binary64_round x = Finite r /\ (Qabs (r - x) <= 1 # 1000000000)%Q.
Proof.
  intro Hx.
  destruct (binary64_round_close x 21) as [r [Hr Herr]]; [ lia | exact Hx | ].
  exists r. split; [ exact Hr | ].
  eapply Qle_trans; [ exact Herr | ]. vm_compute. discriminate.
Qed.

Lemma fahrenheit_to_celsius_near (t : Q) :
  (Qabs t <= 1000000)%Q ->
  exists b,
    fahrenheit_to_celsius (Finite t) = Finite b
    /\ (Qabs (b * (9 # 5) - (t - 32)) <= 1 # 100000000)%Q.
Proof.
  intro Ht. apply Qabs_Qle_condition in Ht.
  unfold fahrenheit_to_celsius. cbn [float_op].
  destruct (binary64_round_near (t - 32)) as [a [Ha Hea]];
    [ apply Qabs_Qlt_condition; split; lra | ].
  rewrite Ha. cbn [float_op]. apply Qabs_Qle_condition in Hea.
  assert (Hy : (a == a / float_1_8 * float_1_8)%Q) by (field; discriminate).
  set (y := (a / float_1_8)%Q) in *. unfold float_1_8 in Hy.
  destruct (binary64_round_near y) as [b [Hb Heb]];
    [ apply Qabs_Qlt_condition; split; lra | ].
  exists b. split; [ exact Hb | ].
  apply Qabs_Qle_condition in Heb. apply Qabs_Qle_condition. split; lra.
Qed.

Lemma celsius_to_fahrenheit_near (c : Q) :
  (Qabs c <= 1000000)%Q ->
  exists f,
    celsius_to_fahrenheit (Finite c) = Finite f
    /\ (Qabs (f - (c * (9 # 5) + 32)) <= 1 # 100000000)%Q.
Proof.
  intro Hc. apply Qabs_Qle_condition in Hc.
  unfold celsius_to_fahrenheit. cbn [float_op]. unfold float_1_8.
  destruct (binary64_round_near (c * (8106479329266893 # 4503599627370496)))
    as [p [Hp Hep]]; [ apply Qabs_Qlt_condition; split; lra | ].
  rewrite Hp. cbn [float_op]. apply Qabs_Qle_condition in Hep.
  destruct (binary64_round_near (p + 32)) as [f [Hf Hef]];
    [ apply Qabs_Qlt_condition; split; lra | ].
  exists f. split; [ exact Hf | ].
  apply Qabs_Qle_condition in Hef. apply Qabs_Qle_condition. split; lra.
Qed.

Lemma round_to_half_near (x : Q) :
  (Qabs x <= 1048000)%Q ->
  exists n : Z,
    round_to_half (Finite x) = Ok (Finite (Qred (inject_Z n / 2)))
    /\ (Qabs (inject_Z n - x * 2) <= 500000001 # 1000000000)%Q.
Proof.
  intro Hx. apply Qabs_Qle_condition in Hx.
  unfold round_to_half. cbn [float_op].
  destruct (binary64_round_near (x * 2)) as [d [Hd Hed]];
    [ apply Qabs_Qlt_condition; split; lra | ].
  rewrite Hd. cbn [py_round bind]. apply Qabs_Qle_condition in Hed.
  destruct (round_half_even_close d) as [Hup Hdown].
  set (n := round_half_even d) in *.
  exists n. split.
  - apply int_halved_exact. apply is_binary64_half_Z.
    assert (Hhi : n < 2 ^ 53).
    { rewrite Zlt_Qlt. change (inject_Z (2 ^ 53)) with 9007199254740992%Q. lra. }
    assert (Hlo : - 2 ^ 53 < n).
    { rewrite Zlt_Qlt. change (inject_Z (- 2 ^ 53)) with (-9007199254740992)%Q. lra. }
    lia.
  - apply Qabs_Qle_condition. split; lra.
Qed.

Lemma celsius_round_trip (t : Q) :
  is_binary64 t -> (Qabs t < two_power 1023)%Q ->
  exists c,
    temperature_to_homekit (Finite t) TEMP_CELSIUS = Ok (Finite c)
    /\ temperature_to_states (Finite c) TEMP_CELSIUS = Ok (Finite c)
    /\ (Qabs (c - t) <= 1 # 4)%Q.
Proof.
  intros Ht Hlt.
  unfold temperature_to_homekit, temperature_to_states. cbn [convert].
  destruct (doubled_binary64 t Ht Hlt) as [_ [_ [Hhalf Hbound]]].
  set (n := round_half_even (t * 2)) in *.
  set (c := Qred (inject_Z n / 2)).
  assert (Hc : (c == inject_Z n / 2)%Q) by apply Qred_correct.
  exists c. split; [ apply (round_to_half_exact t Ht Hlt) | ].
  split.
  - rewrite round_to_half_exact.
    + assert (Hn : round_half_even (c * 2) = n).
      { rewrite (round_half_even_comp _ (inject_Z n));
          [ apply round_half_even_Z | rewrite Hc; field ]. }
      rewrite Hn. reflexivity.
    + apply (is_binary64_comp (inject_Z n / 2)); [ symmetry; exact Hc | exact Hhalf ].
    + rewrite Hc. exact Hbound.
  - rewrite Hc.
    destruct (round_half_even_close (t * 2)) as [Hup Hdown]. fold n in Hup, Hdown.
    assert (Hh : (inject_Z n == 2 * (inject_Z n / 2))%Q) by field.
    set (h := (inject_Z n / 2)%Q) in *.
    apply Qabs_Qle_condition. split; lra.
Qed.

Lemma fahrenheit_round_trip (t : Q) :
  (Qabs t <= 1000000)%Q ->
  exists c r,
    temperature_to_homekit (Finite t) TEMP_FAHRENHEIT = Ok (Finite c)
    /\ temperature_to_states (Finite c) TEMP_FAHRENHEIT = Ok (Finite r)
    /\ (Qabs (r - t) <= 650001 # 1000000)%Q.
Proof.
  intro Ht.
  unfold temperature_to_homekit, temperature_to_states. cbn [convert].
  destruct (fahrenheit_to_celsius_near t Ht) as [b [Hb Heb]]. rewrite Hb.
  apply Qabs_Qle_condition in Ht. apply Qabs_Qle_condition in Heb.
  destruct (round_to_half_near b) as [n [Hn Hen]];
    [ apply Qabs_Qle_condition; split; lra | ].
  apply Qabs_Qle_condition in Hen.
  set (c := Qred (inject_Z n / 2)) in *.
  assert (Hc : (c == inject_Z n / 2)%Q) by apply Qred_correct.
  assert (Hh : (inject_Z n == 2 * (inject_Z n / 2))%Q) by field.
  set (h := (inject_Z n / 2)%Q) in *.
  destruct (celsius_to_fahrenheit_near c) as [f [Hf Hef]];
    [ apply Qabs_Qle_condition; split; lra | ].
  apply Qabs_Qle_condition in Hef.
  destruct (round_to_half_near f) as [n2 [Hn2 Hen2]];
    [ apply Qabs_Qle_condition; split; lra | ].
  apply Qabs_Qle_condition in Hen2.
  exists c, (Qred (inject_Z n2 / 2)).
  split; [ exact Hn | ]. rewrite Hf. split; [ exact Hn2 | ].
  rewrite Qred_correct.
  (* the second rounding is of a number of fifths *)
  assert (Hd : (inject_Z (5 * n2 - 9 * n - 320)
                == 5 * inject_Z n2 - 9 * inject_Z n - 320)%Q).
  { unfold Z.sub. rewrite !inject_Z_plus, !inject_Z_opp, !inject_Z_mult.
    change (inject_Z 5) with 5%Q. change (inject_Z 9) with 9%Q.
    change (inject_Z 320) with 320%Q. ring. }
  assert (Hle : (5 * n2 - 9 * n - 320 <= 2)%Z).
  { apply Z.lt_succ_r. rewrite Zlt_Qlt. rewrite Hd.
    change (inject_Z (Z.succ 2)) with 3%Q. lra. }
  assert (Hge : (-2 <= 5 * n2 - 9 * n - 320)%Z).
  { apply Z.lt_pred_le. rewrite Zlt_Qlt. rewrite Hd.
    change (inject_Z (Z.pred (-2))) with (-3)%Q. lra. }
  rewrite Zle_Qle in Hle. rewrite Zle_Qle in Hge. rewrite Hd in Hle, Hge.
  change (inject_Z 2) with 2%Q in Hle. change (inject_Z (-2)) with (-2)%Q in Hge.
  assert (Hh2 : (inject_Z n2 == 2 * (inject_Z n2 / 2))%Q) by field.
  set (h2 := (inject_Z n2 / 2)%Q) in *.
  apply Qabs_Qle_condition. split; lra.
Qed.

(** C4, as the code has it: for a binary64 temperature, converting to
    HomeKit and back yields a value; with Celsius as the unit, for every
    temperature of magnitude below [2^1023] (whose double is a float), it
    is within 0.25 of the original; with Fahrenheit as the unit, for every
    temperature of magnitude up to a million degrees, it is within
    0.650001 of the original. *)
Theorem temperature_round_trip (t : Q) (unit : temperature_unit) :
  is_binary64 t ->
  match unit with
  | TEMP_CELSIUS => (Qabs t < two_power 1023)%Q
  | TEMP_FAHRENHEIT => (Qabs t <= 1000000)%Q
  end ->
  exists c r : Q,
    temperature_to_homekit (Finite t) unit = Ok (Finite c)
    /\ temperature_to_states (Finite c) unit = Ok (Finite r)
    /\ (Qabs (r - t) <=
        match unit with
        | TEMP_CELSIUS => 1 # 4
        | TEMP_FAHRENHEIT => 650001 # 1000000
        end)%Q.
Proof.
  intros Ht Hrange. destruct unit.
  - destruct (celsius_round_trip t Ht Hrange) as [c [Hc [Hr Hclose]]].
    exists c, c. split; [ exact Hc | ]. split; [ exact Hr | exact Hclose ].
  - apply fahrenheit_round_trip. exact Hrange.
Qed.

Lemma temperature_round_trip_witness :
  exists c r : Q,
    temperature_to_homekit (Finite (43 # 2)) TEMP_CELSIUS = Ok (Finite c)
    /\ temperature_to_states (Finite c) TEMP_CELSIUS = Ok (Finite r)
    /\ (Qabs (r - (43 # 2)) <= 1 # 4)%Q.
Proof.
  refine (temperature_round_trip (43 # 2) TEMP_CELSIUS _ _).
  - exists 43, (-1). split; [ reflexivity | ]. split; [ discriminate | ].
    split; vm_compute; reflexivity.
  - vm_compute. reflexivity.
Defined.

(** C4 as stated fails: the float 33.4, in degrees Fahrenheit, goes to 1.0
    degree Celsius and comes back as 34.0 degrees Fahrenheit, 0.6 away; and
    the float 1e308, in degrees Celsius, yields no value at all: its double
    is an infinity, which [round] refuses with an [OverflowError]. *)
Lemma fahrenheit_round_trip_off_by_more_than_half :
  binary64_round (334 # 10) = Finite float_33_4
  /\ temperature_to_homekit (Finite float_33_4) TEMP_FAHRENHEIT = Ok (Finite 1)
  /\ temperature_to_states (Finite 1) TEMP_FAHRENHEIT = Ok (Finite 34)
  /\ ~ (Qabs (34 - float_33_4) <= 1 # 2)%Q
  /\ binary64_round (inject_Z (10 ^ 308)) = Finite float_1e308
  /\ temperature_to_homekit (Finite float_1e308) TEMP_CELSIUS = Raise OverflowError.
Proof.
  split; [ vm_compute; reflexivity | ].
  split; [ vm_compute; reflexivity | ].
  split; [ vm_compute; reflexivity | ].
  split; [ intro Hle; vm_compute in Hle; apply Hle; reflexivity | ].
  split; vm_compute; reflexivity.
Qed.

(** ** Dicts *)

Lemma key_eqb_str_r (k : pyval) (s : string) :
  key_eqb k (PStr s) = true -> k = PStr s.
Proof.
  destruct k as [ | b | z | x | t | l | d ]; cbn; try discriminate.
  intro E. apply String.eqb_eq in E. congruence.
Qed.

Lemma key_eqb_str_l (k : pyval) (s : string) :
  key_eqb (PStr s) k = true -> k = PStr s.
Proof.
  destruct k as [ | b | z | x | t | l | d ]; cbn; try discriminate.
  intro E. apply String.eqb_eq in E. congruence.
Qed.

Lemma key_eqb_str_sym (k : pyval) (s : string) :
  key_eqb (PStr s) k = key_eqb k (PStr s).
Proof.
  destruct k as [ | b | z | x | t | l | d ]; cbn; try reflexivity.
  apply String.eqb_sym.
Qed.

Lemma dict_get_In (d : dict) (k v : pyval) :
  dict_get d k = Some v -> exists k', In (k', v) d /\ key_eqb k' k = true.
Proof.
  induction d as [ | [k0 v0] rest IH ]; cbn [dict_get]; [ discriminate | ].
  destruct (key_eqb k0 k) eqn:E.
  - intro Hv. inversion Hv; subst. exists k0. split; [ left; reflexivity | exact E ].
  - intro Hv. destruct (IH Hv) as [k' [Hin Hk]].
    exists k'. split; [ right; exact Hin | exact Hk ].
Qed.

Lemma dict_get_str_In (d : dict) (n : string) (v : pyval) :
  dict_get d (PStr n) = Some v -> In (PStr n, v) d.
Proof.
  intro Hv. destruct (dict_get_In _ _ _ Hv) as [k' [Hin Hk]].
  apply key_eqb_str_r in Hk. subst. exact Hin.
Qed.

Lemma In_dict_mem (d : dict) (n : string) (v : pyval) :
  In (PStr n, v) d -> dict_mem d (PStr n) = true.
Proof.
  unfold dict_mem.
  induction d as [ | [k0 v0] rest IH ]; cbn [dict_get In]; [ tauto | ].
  intros [Heq | Hin].
  - inversion Heq; subst. cbn. rewrite String.eqb_refl. reflexivity.
  - destruct (key_eqb k0 (PStr n)); [ reflexivity | apply IH; exact Hin ].
Qed.

Lemma In_dict_get (d : dict) (n : string) (v : pyval) :
  unique_keys d = true -> In (PStr n, v) d -> dict_get d (PStr n) = Some v.
Proof.
  induction d as [ | [k0 v0] rest IH ]; cbn [unique_keys dict_get In]; [ tauto | ].
  intros Hu [Heq | Hin]; apply andb_true_iff in Hu; destruct Hu as [Hfresh Hu].
  - inversion Heq; subst. cbn. rewrite String.eqb_refl. reflexivity.
  - destruct (key_eqb k0 (PStr n)) eqn:E.
    + apply key_eqb_str_r in E. subst.
      rewrite (In_dict_mem _ _ _ Hin) in Hfresh. discriminate.
    + apply IH; assumption.
Qed.

Lemma dict_get_app (a b : dict) (k : pyval) :
  dict_get (a ++ b)%list k =
  match dict_get a k with
  | Some v => Some v
  | None => dict_get b k
  end.
Proof.
  induction a as [ | [k0 v0] rest IH ]; cbn [app dict_get]; [ reflexivity | ].
  destruct (key_eqb k0 k); [ reflexivity | exact IH ].
Qed.

Lemma dict_set_absent (d : dict) (k v : pyval) :
  dict_mem d k = false -> dict_set d k v = (d ++ [(k, v)])%list.
Proof.
  unfold dict_mem.
  induction d as [ | [k0 v0] rest IH ]; cbn [dict_get dict_set app]; [ reflexivity | ].
  destruct (key_eqb k0 k); [ discriminate | ].
  intro Hm. rewrite (IH Hm). reflexivity.
Qed.

Lemma dict_get_set_str (d : dict) (a b : string) (v : pyval) :
  dict_get (dict_set d (PStr a) v) (PStr b) =
  if String.eqb a b then Some v else dict_get d (PStr b).
Proof.
  induction d as [ | [k0 v0] rest IH ]; cbn [dict_set dict_get].
  - cbn. destruct (String.eqb a b); reflexivity.
  - destruct (key_eqb k0 (PStr a)) eqn:Ea.
    + apply key_eqb_str_r in Ea. subst. cbn.
      destruct (String.eqb a b); reflexivity.
    + cbn [dict_get]. rewrite IH.
      destruct (String.eqb a b) eqn:Eab; [ | reflexivity ].
      apply String.eqb_eq in Eab. subst. rewrite Ea. reflexivity.
Qed.

Lemma unique_keys_snoc (d : dict) (n : string) (v : pyval) :
  unique_keys d = true -> dict_mem d (PStr n) = false ->
  unique_keys (d ++ [(PStr n, v)])%list = true.
Proof.
  unfold dict_mem.
  induction d as [ | [k0 v0] rest IH ]; cbn [unique_keys dict_get app]; [ reflexivity | ].
  intros Hu Hm. apply andb_true_iff in Hu. destruct Hu as [Hfresh Hu].
  destruct (key_eqb k0 (PStr n)) eqn:E; [ discriminate | ].
  apply andb_true_iff. split; [ | apply IH; assumption ].
  unfold dict_mem in *. rewrite dict_get_app.
  destruct (dict_get rest k0); [ discriminate | ].
  cbn [dict_get]. rewrite key_eqb_str_sym, E. reflexivity.
Qed.

(** ** Schemas *)

Lemma find_schema_key_some (schema : Schema) (k : pyval) (sk : schema_key) (f : validator) :
  find_schema_key schema k = Some (sk, f) ->
  k = PStr (key_schema sk) /\ In (sk, f) schema.
Proof.
  unfold find_schema_key. intro Hf.
  apply find_some in Hf. destruct Hf as [Hin Hk].
  split; [ apply key_eqb_str_r in Hk; exact Hk | exact Hin ].
Qed.

Lemma find_schema_key_in (schema : Schema) (sk : schema_key) (f : validator) :
  NoDup (schema_names schema) -> In (sk, f) schema ->
  find_schema_key schema (PStr (key_schema sk)) = Some (sk, f).
Proof.
  unfold find_schema_key, schema_names.
  induction schema as [ | [sk0 f0] rest IH ]; cbn [map find In fst]; [ tauto | ].
  intros Hnd [Heq | Hin]; inversion Hnd as [ | ? ? Hfresh Hrest ]; subst.
  - inversion Heq; subst. cbn. rewrite String.eqb_refl. reflexivity.
  - cbn [key_eqb]. destruct (String.eqb (key_schema sk) (key_schema sk0)) eqn:E.
    + exfalso. apply Hfresh. apply String.eqb_eq in E. rewrite <- E.
      apply (in_map (fun kv => key_schema (fst kv)) _ _ Hin).
    + apply IH; assumption.
Qed.

Lemma find_schema_key_none (schema : Schema) (n : string) :
  str_in n (schema_names schema) = false -> find_schema_key schema (PStr n) = None.
Proof.
  unfold find_schema_key, schema_names, str_in.
  induction schema as [ | [sk0 f0] rest IH ]; cbn [map find existsb fst key_eqb];
    [ reflexivity | ].
  intro Hn. apply orb_false_iff in Hn. destruct Hn as [Hn Hr].
  rewrite Hn. apply IH. exact Hr.
Qed.

Lemma validate_items_ok (schema : Schema) (items out : dict) :
  forallb (item_ok schema) items = true ->
  exists r, validate_items schema items out = Some r.
Proof.
  revert out.
  induction items as [ | [k v] rest IH ]; intros out; cbn [forallb validate_items].
  - intros _. exists out. reflexivity.
  - unfold item_ok at 1. cbn [fst snd].
    destruct (find_schema_key schema k) as [ [sk f] | ]; [ | discriminate ].
    destruct (f v) as [ cv | ]; [ | discriminate ].
    cbn [andb]. apply IH.
Qed.

Lemma validate_items_fail (schema : Schema) (items out : dict) :
  forallb (item_ok schema) items = false ->
  validate_items schema items out = None.
Proof.
  revert out.
  induction items as [ | [k v] rest IH ]; intros out; cbn [forallb validate_items].
  - discriminate.
  - unfold item_ok at 1. cbn [fst snd].
    destruct (find_schema_key schema k) as [ [sk f] | ]; [ | reflexivity ].
    destruct (f v) as [ cv | ]; [ | reflexivity ].
    cbn [andb]. apply IH.
Qed.

(** What the validated mapping holds under a string key. *)
Lemma validate_items_get (schema : Schema) (items out r : dict) (n : string) :
  unique_keys items = true ->
  validate_items schema items out = Some r ->
  dict_get r (PStr n) =
  match dict_get items (PStr n) with
  | Some v =>
      match find_schema_key schema (PStr n) with
      | Some (_, f) => f v
      | None => None
      end
  | None => dict_get out (PStr n)
  end.
Proof.
  revert out.
  induction items as [ | [k v] rest IH ]; intros out; cbn [unique_keys validate_items].
  - intros _ Hr. inversion Hr. reflexivity.
  - intros Hu. apply andb_true_iff in Hu. destruct Hu as [Hfresh Hu].
    destruct (find_schema_key schema k) as [ [sk f] | ] eqn:Ek; [ | discriminate ].
    destruct (f v) as [ cv | ] eqn:Ev; [ | discriminate ].
    intro Hr. rewrite (IH _ Hu Hr).
    destruct (find_schema_key_some _ _ _ _ Ek) as [-> _].
    cbn [dict_get key_eqb]. rewrite dict_get_set_str.
    destruct (String.eqb (key_schema sk) n) eqn:E.
    + apply String.eqb_eq in E. subst n.
      unfold dict_mem in Hfresh.
      destruct (dict_get rest (PStr (key_schema sk))); [ discriminate | ].
      rewrite Ek. symmetry. exact Ev.
    + reflexivity.
Qed.

Lemma foreign_key_false (allowed : list string) (d : dict) (k v : pyval) :
  foreign_key allowed d = false -> In (k, v) d ->
  exists n, k = PStr n /\ str_in n allowed = true.
Proof.
  unfold foreign_key. intros Hf Hin.
  assert (Hk : match k with PStr n => negb (str_in n allowed) | _ => true end = false).
  { destruct (match k with PStr n => negb (str_in n allowed) | _ => true end) eqn:E;
      [ | reflexivity ].
    assert (Hex : existsb
                    (fun kv => match fst kv with
                               | PStr n => negb (str_in n allowed)
                               | _ => true
                               end) d = true).
    { apply existsb_exists. exists (k, v). split; [ exact Hin | exact E ]. }
    congruence. }
  destruct k; try discriminate.
  eexists. split; [ reflexivity | ]. apply negb_false_iff. exact Hk.
Qed.

Lemma str_in_names (schema : Schema) (n : string) :
  str_in n (schema_names schema) = true ->
  exists sk f, In (sk, f) schema /\ key_schema sk = n.
Proof.
  unfold str_in, schema_names. intro Hn.
  apply existsb_exists in Hn. destruct Hn as [m [Hin Hm]].
  apply String.eqb_eq in Hm. subst m.
  apply in_map_iff in Hin. destruct Hin as [[sk f] [Hn Hin]].
  exists sk, f. split; [ exact Hin | exact Hn ].
Qed.

(** The items of a dict all match the schema when it has no key outside
    the schema and the validator of each key accepts the value under it. *)
Lemma items_ok_intro (schema : Schema) (d : dict) :
  unique_keys d = true -> NoDup (schema_names schema) ->
  foreign_key (schema_names schema) d = false ->
  (forall sk f v, In (sk, f) schema ->
                  dict_get d (PStr (key_schema sk)) = Some v -> f v <> None) ->
  forallb (item_ok schema) d = true.
Proof.
  intros Hu Hnd Hforeign Hvalid.
  apply forallb_forall. intros [k v] Hin.
  destruct (foreign_key_false _ _ _ _ Hforeign Hin) as [n [-> Hn]].
  destruct (str_in_names _ _ Hn) as [sk [f [Hs Hname]]]. subst n.
  unfold item_ok. cbn [fst snd].
  rewrite (find_schema_key_in _ _ _ Hnd Hs).
  specialize (Hvalid sk f v Hs (In_dict_get _ _ _ Hu Hin)).
  destruct (f v); [ reflexivity | congruence ].
Qed.

Lemma items_ok_elim (schema : Schema) (d : dict) :
  NoDup (schema_names schema) ->
  forallb (item_ok schema) d = true ->
  foreign_key (schema_names schema) d = false
  /\ (forall sk f v, In (sk, f) schema ->
                     dict_get d (PStr (key_schema sk)) = Some v -> f v <> None).
Proof.
  intros Hnd Hok. rewrite forallb_forall in Hok. split.
  - unfold foreign_key.
    destruct (existsb _ d) eqn:E; [ | reflexivity ].
    apply existsb_exists in E. destruct E as [[k v] [Hin Hk]].
    specialize (Hok _ Hin). unfold item_ok in Hok. cbn [fst snd] in *.
    destruct (find_schema_key schema k) as [ [sk f] | ] eqn:Ek; [ | discriminate ].
    destruct (find_schema_key_some _ _ _ _ Ek) as [-> Hs].
    apply negb_true_iff in Hk.
    assert (Hn : str_in (key_schema sk) (schema_names schema) = true).
    { apply existsb_exists. exists (key_schema sk).
      split; [ | apply String.eqb_refl ].
      apply (in_map (fun kv => key_schema (fst kv)) _ _ Hs). }
    congruence.
  - intros sk f v Hs Hv.
    specialize (Hok _ (dict_get_str_In _ _ _ Hv)).
    unfold item_ok in Hok. cbn [fst snd] in Hok.
    rewrite (find_schema_key_in _ _ _ Hnd Hs) in Hok.
    destruct (f v); [ discriminate | congruence ].
Qed.

Lemma schema_extend_new (n1 : string) (f1 f2 : validator) (k2 : schema_key) :
  n1 <> key_schema k2 ->
  schema_extend [(vol_Optional n1, f1)] [(k2, f2)] = [(vol_Optional n1, f1); (k2, f2)].
Proof.
  intro Hne. unfold schema_extend. cbn.
  apply String.eqb_neq in Hne. rewrite Hne. reflexivity.
Qed.

Lemma validate_items_some_ok (schema : Schema) (items out r : dict) :
  validate_items schema items out = Some r -> forallb (item_ok schema) items = true.
Proof.
  intro Hr. destruct (forallb (item_ok schema) items) eqn:E; [ reflexivity | ].
  rewrite (validate_items_fail _ _ out E) in Hr. discriminate.
Qed.

(** A schema of an optional name. *)
Lemma validate_optional_key (n1 : string) (f1 : validator) (d : dict) :
  unique_keys d = true ->
  match validate_mapping [(vol_Optional n1, f1)] d with
  | Some out =>
      foreign_key [n1] d = false
      /\ dict_get out (PStr n1) =
         match dict_get d (PStr n1) with Some v => f1 v | None => None end
      /\ (forall v, dict_get d (PStr n1) = Some v -> f1 v <> None)
  | None =>
      foreign_key [n1] d = true
      \/ (exists v, dict_get d (PStr n1) = Some v /\ f1 v = None)
  end.
Proof.
  intro Hu. unfold validate_mapping.
  change (insert_defaults [(vol_Optional n1, f1)] d) with d.
  change (required_keys_found [(vol_Optional n1, f1)] d) with true.
  set (schema := [(vol_Optional n1, f1)]).
  assert (Hnd : NoDup (schema_names schema)) by (repeat constructor; cbn; tauto).
  assert (Hf1 : find_schema_key schema (PStr n1) = Some (vol_Optional n1, f1)).
  { apply (find_schema_key_in schema (vol_Optional n1) f1 Hnd). left. reflexivity. }
  destruct (validate_items schema d []) as [ out | ] eqn:E.
  - destruct (items_ok_elim _ _ Hnd (validate_items_some_ok _ _ _ _ E)) as [Hforeign Hvalid].
    split; [ exact Hforeign | ]. split.
    + rewrite (validate_items_get _ _ _ _ n1 Hu E), Hf1. cbn [dict_get].
      destruct (dict_get d (PStr n1)); reflexivity.
    + intros v Hv. apply (Hvalid (vol_Optional n1) f1 v); [ left; reflexivity | exact Hv ].
  - destruct (foreign_key [n1] d) eqn:Hforeign; [ left; reflexivity | right ].
    destruct (dict_get d (PStr n1)) as [ v | ] eqn:Ev.
    + destruct (f1 v) eqn:Ef; [ | exists v; split; reflexivity || exact Ef ].
      exfalso.
      assert (Hok : forallb (item_ok schema) d = true).
      { apply items_ok_intro; try assumption.
        intros sk f v' [Heq | []] Hv'. inversion Heq; subst. cbn in Hv'. congruence. }
      destruct (validate_items_ok schema d [] Hok) as [r Hr]. congruence.
    + exfalso.
      assert (Hok : forallb (item_ok schema) d = true).
      { apply items_ok_intro; try assumption.
        intros sk f v' [Heq | []] Hv'. inversion Heq; subst. cbn in Hv'. congruence. }
      destruct (validate_items_ok schema d [] Hok) as [r Hr]. congruence.
Qed.

(** A schema of an optional name and an optional key with a default. *)
Lemma validate_name_and_key (n1 n2 : string) (f1 f2 : validator) (d2 : pyval) (d : dict) :
  n1 <> n2 ->
  unique_keys d = true ->
  match validate_mapping [(vol_Optional n1, f1); (vol_Optional_default n2 d2, f2)] d with
  | Some out =>
      foreign_key [n1; n2] d = false
      /\ dict_get out (PStr n1) =
         match dict_get d (PStr n1) with Some v => f1 v | None => None end
      /\ (forall v, dict_get d (PStr n1) = Some v -> f1 v <> None)
      /\ dict_get out (PStr n2) = f2 (dict_get_default d (PStr n2) d2)
      /\ f2 (dict_get_default d (PStr n2) d2) <> None
  | None =>
      foreign_key [n1; n2] d = true
      \/ (exists v, dict_get d (PStr n1) = Some v /\ f1 v = None)
      \/ f2 (dict_get_default d (PStr n2) d2) = None
  end.
Proof.
  intros Hne Hu. unfold validate_mapping.
  set (schema := [(vol_Optional n1, f1); (vol_Optional_default n2 d2, f2)]).
  change (required_keys_found schema (insert_defaults schema d)) with true.
  assert (Hnd : NoDup (schema_names schema)).
  { repeat constructor; cbn; [ intros [Heq | []]; congruence | tauto ]. }
  assert (Hf1 : find_schema_key schema (PStr n1) = Some (vol_Optional n1, f1)).
  { apply (find_schema_key_in schema (vol_Optional n1) f1 Hnd). left. reflexivity. }
  assert (Hf2 : find_schema_key schema (PStr n2) = Some (vol_Optional_default n2 d2, f2)).
  { apply (find_schema_key_in schema (vol_Optional_default n2 d2) f2 Hnd).
    right. left. reflexivity. }
  assert (Hneb : String.eqb n2 n1 = false) by (apply String.eqb_neq; congruence).
  set (d' := insert_defaults schema d).
  assert (Hd' : d' = if dict_mem d (PStr n2) then d else (d ++ [(PStr n2, d2)])%list).
  { unfold d', insert_defaults, schema. cbn.
    destruct (dict_mem d (PStr n2)) eqn:Em; [ reflexivity | ].
    apply dict_set_absent. exact Em. }
  assert (Hu' : unique_keys d' = true).
  { rewrite Hd'. destruct (dict_mem d (PStr n2)) eqn:Em; [ exact Hu | ].
    apply unique_keys_snoc; assumption. }
  assert (Hg1 : dict_get d' (PStr n1) = dict_get d (PStr n1)).
  { rewrite Hd'. destruct (dict_mem d (PStr n2)); [ reflexivity | ].
    rewrite dict_get_app. cbn. rewrite Hneb.
    destruct (dict_get d (PStr n1)); reflexivity. }
  assert (Hg2 : dict_get d' (PStr n2) = Some (dict_get_default d (PStr n2) d2)).
  { rewrite Hd'. unfold dict_mem, dict_get_default.
    destruct (dict_get d (PStr n2)) eqn:Eg; [ exact Eg | ].
    rewrite dict_get_app, Eg. cbn. rewrite String.eqb_refl. reflexivity. }
  assert (Hforeign' : foreign_key [n1; n2] d' = foreign_key [n1; n2] d).
  { rewrite Hd'. destruct (dict_mem d (PStr n2)); [ reflexivity | ].
    unfold foreign_key. rewrite existsb_app. cbn.
    rewrite String.eqb_refl, Hneb. cbn. apply orb_false_r. }
  destruct (validate_items schema d' []) as [ out | ] eqn:E.
  - destruct (items_ok_elim _ _ Hnd (validate_items_some_ok _ _ _ _ E)) as [Hforeign Hvalid].
    change (schema_names schema) with [n1; n2] in Hforeign.
    rewrite Hforeign' in Hforeign.
    split; [ exact Hforeign | ]. split; [ | split; [ | split ] ].
    + rewrite (validate_items_get _ _ _ _ n1 Hu' E), Hf1, Hg1. cbn [dict_get].
      destruct (dict_get d (PStr n1)); reflexivity.
    + intros v Hv. apply (Hvalid (vol_Optional n1) f1 v); [ left; reflexivity | ].
      change (dict_get d' (PStr n1) = Some v). rewrite Hg1. exact Hv.
    + rewrite (validate_items_get _ _ _ _ n2 Hu' E), Hf2, Hg2. reflexivity.
    + apply (Hvalid (vol_Optional_default n2 d2) f2); [ right; left; reflexivity | ].
      exact Hg2.
  - destruct (foreign_key [n1; n2] d) eqn:Hforeign; [ left; reflexivity | right ].
    destruct (f2 (dict_get_default d (PStr n2) d2)) eqn:Ef2; [ | right; reflexivity ].
    left.
    destruct (dict_get d (PStr n1)) as [ v | ] eqn:Ev.
    + destruct (f1 v) eqn:Ef; [ | exists v; split; reflexivity || exact Ef ].
      exfalso.
      assert (Hok : forallb (item_ok schema) d' = true).
      { apply items_ok_intro; try assumption.
        intros sk f v' [Heq | [Heq | []]] Hv'; inversion Heq; subst.
        - change (dict_get d' (PStr n1) = Some v') in Hv'. rewrite Hg1 in Hv'. congruence.
        - change (dict_get d' (PStr n2) = Some v') in Hv'. rewrite Hg2 in Hv'. congruence. }
      destruct (validate_items_ok schema d' [] Hok) as [r Hr]. congruence.
    + exfalso.
      assert (Hok : forallb (item_ok schema) d' = true).
      { apply items_ok_intro; try assumption.
        intros sk f v' [Heq | [Heq | []]] Hv'; inversion Heq; subst.
        - change (dict_get d' (PStr n1) = Some v') in Hv'. rewrite Hg1 in Hv'. congruence.
        - change (dict_get d' (PStr n2) = Some v') in Hv'. rewrite Hg2 in Hv'. congruence. }
      destruct (validate_items_ok schema d' [] Hok) as [r Hr]. congruence.
Qed.

(** A schema of one required key: the mapping is that key alone. *)
Lemma validate_required_key (n : string) (f : validator) (d : dict) :
  unique_keys d = true ->
  match validate_mapping [(vol_Required n, f)] d with
  | Some out =>
      exists v w, d = [(PStr n, v)] /\ f v = Some w /\ out = [(PStr n, w)]
  | None =>
      foreign_key [n] d = true
      \/ dict_mem d (PStr n) = false
      \/ (exists v, dict_get d (PStr n) = Some v /\ f v = None)
  end.
Proof.
  intro Hu. unfold validate_mapping.
  set (schema := [(vol_Required n, f)]).
  change (insert_defaults schema d) with d.
  assert (Hreq : required_keys_found schema d = dict_mem d (PStr n)).
  { cbn. apply andb_true_r. }
  rewrite Hreq.
  assert (Hnd : NoDup (schema_names schema)) by (repeat constructor; cbn; tauto).
  destruct d as [ | [k v] rest ].
  - cbn. right. left. reflexivity.
  - destruct (validate_items schema ((k, v) :: rest) []) as [ out | ] eqn:E.
    + pose proof (items_ok_elim _ _ Hnd (validate_items_some_ok _ _ _ _ E)) as [Hforeign _].
      change (schema_names schema) with [n] in Hforeign.
      destruct (foreign_key_false _ _ k v Hforeign (or_introl eq_refl)) as [m [-> Hm]].
      cbn in Hm. rewrite orb_false_r in Hm. apply String.eqb_eq in Hm. subst m.
      destruct rest as [ | [k2 v2] rest ].
      * cbn in E. rewrite String.eqb_refl in E.
        destruct (f v) as [ w | ] eqn:Ef; [ | discriminate ].
        inversion E; subst. unfold dict_mem. cbn. rewrite String.eqb_refl.
        exists v, w. repeat split. exact Ef.
      * exfalso.
        destruct (foreign_key_false _ _ k2 v2 Hforeign (or_intror (or_introl eq_refl)))
          as [m [-> Hm]].
        cbn in Hm. rewrite orb_false_r in Hm. apply String.eqb_eq in Hm. subst m.
        cbn in Hu. unfold dict_mem in Hu. cbn in Hu. rewrite String.eqb_refl in Hu.
        discriminate.
    + destruct (foreign_key [n] ((k, v) :: rest)) eqn:Hforeign; [ left; reflexivity | right ].
      destruct (dict_get ((k, v) :: rest) (PStr n)) as [ v' | ] eqn:Ev;
        [ | left; unfold dict_mem; rewrite Ev; reflexivity ].
      right. exists v'. split; [ reflexivity | ].
      destruct (f v') eqn:Ef; [ | reflexivity ].
      exfalso.
      assert (Hok : forallb (item_ok schema) ((k, v) :: rest) = true).
      { apply items_ok_intro; try assumption.
        intros sk f' v'' [Heq | []] Hv''. inversion Heq; subst. cbn in Hv''.
        cbn in Ev. congruence. }
      destruct (validate_items_ok schema ((k, v) :: rest) [] Hok) as [r Hr]. congruence.
Qed.

Lemma str_in_In (x : string) (l : list string) : str_in x l = true <-> In x l.
Proof.
  unfold str_in. rewrite existsb_exists. split.
  - intros [y [Hin Hy]]. apply String.eqb_eq in Hy. subst. exact Hin.
  - intro Hin. exists x. split; [ exact Hin | apply String.eqb_refl ].
Qed.

Lemma In_dict_set_str (d : dict) (n : string) (v : pyval) (x : pyval * pyval) :
  In x (dict_set d (PStr n) v) -> In x d \/ x = (PStr n, v).
Proof.
  induction d as [ | [k0 v0] rest IH ]; cbn [dict_set In].
  - intros [<- | []]. right. reflexivity.
  - destruct (key_eqb k0 (PStr n)) eqn:E.
    + apply key_eqb_str_r in E. subst.
      intros [<- | Hin]; [ right; reflexivity | left; right; exact Hin ].
    + intros [<- | Hin]; [ left; left; reflexivity | ].
      destruct (IH Hin) as [Hd | Hx]; [ left; right; exact Hd | right; exact Hx ].
Qed.

Lemma well_formed_dict (d : dict) :
  well_formed (PDict d) = true ->
  unique_keys d = true /\ forall k v, In (k, v) d -> well_formed v = true.
Proof.
  cbn [well_formed]. intro Hw. apply andb_true_iff in Hw. destruct Hw as [Hu Hall].
  split; [ exact Hu | ].
  intros k v Hin. rewrite forallb_forall in Hall. apply (Hall (k, v) Hin).
Qed.

Lemma well_formed_list (l : list pyval) :
  well_formed (PList l) = true -> Forall (fun v => well_formed v = true) l.
Proof.
  cbn [well_formed]. intro Hw. apply Forall_forall. apply forallb_forall. exact Hw.
Qed.

(** ** The configuration validator *)

Section ValidateEntityConfigProperties.
Context {C : Consts} {H : Helpers}.

Lemma enum_validator (enum : list string) (v : pyval) :
  vol_All [string_validator; vol_In enum] v =
  match cv_string v with
  | Some s => if str_in s enum then Some (PStr s) else None
  | None => None
  end.
Proof.
  cbn [vol_All]. unfold string_validator.
  destruct (cv_string v) as [ s | ]; cbn [option_map vol_In]; [ | reflexivity ].
  destruct (str_in s enum); reflexivity.
Qed.

Lemma enum_validator_none (enum : list string) (v : pyval) :
  vol_All [string_validator; vol_In enum] v = None <-> unknown_enum_value enum v = true.
Proof.
  rewrite enum_validator. unfold unknown_enum_value.
  destruct (cv_string v) as [ s | ]; [ | tauto ].
  destruct (str_in s enum); cbn; split; congruence.
Qed.

Lemma ensure_list_listed (config : dict) :
  cv_ensure_list (dict_get_default config (PStr CONF_FEATURE_LIST) PNone) =
  Some (PList (listed_features config)).
Proof.
  unfold dict_get_default, listed_features.
  destruct (dict_get config (PStr CONF_FEATURE_LIST)) as [ [ | | | | | | ] | ];
    reflexivity.
Qed.

Lemma listed_features_well_formed (config : dict) :
  well_formed (PDict config) = true ->
  Forall (fun v => well_formed v = true) (listed_features config).
Proof.
  intro Hw. destruct (well_formed_dict _ Hw) as [_ Hvalues].
  unfold listed_features.
  destruct (dict_get config (PStr CONF_FEATURE_LIST)) as [ v | ] eqn:E; [ | constructor ].
  apply dict_get_str_In in E. specialize (Hvalues _ _ E).
  destruct v; try (constructor; [ exact Hvalues | constructor ]).
  - constructor.
  - apply well_formed_list. exact Hvalues.
Qed.

(** A feature entry is accepted when it is the mapping of the feature key
    to one of the feature names. *)
Lemma media_player_schema_cases (feature : pyval) :
  well_formed feature = true ->
  match call_schema MEDIA_PLAYER_SCHEMA feature with
  | Ok params =>
      exists v s,
        feature = PDict [(PStr CONF_FEATURE, v)]
        /\ cv_string v = Some s
        /\ str_in s feature_names = true
        /\ params = [(PStr CONF_FEATURE, PStr s)]
  | Raise e =>
      e = Invalid
      /\ (malformed_feature feature = true
          \/ exists v, feature_value feature = Some v
                       /\ unknown_enum_value feature_names v = true)
  end.
Proof.
  intro Hw. unfold call_schema.
  destruct feature as [ | | | | | | p ];
    try (split; [ reflexivity | left; reflexivity ]).
  destruct (well_formed_dict _ Hw) as [Hu _].
  unfold MEDIA_PLAYER_SCHEMA.
  pose proof (validate_required_key CONF_FEATURE
                (vol_All [string_validator;
                          vol_In [FEATURE_ON_OFF; FEATURE_PLAY_PAUSE;
                                  FEATURE_PLAY_STOP; FEATURE_TOGGLE_MUTE]])
                p Hu) as Hcases.
  destruct (validate_mapping _ p) as [ out | ]; cbn [of_validated].
  - destruct Hcases as [v [w [-> [Hv ->]]]].
    rewrite enum_validator in Hv.
    destruct (cv_string v) as [ s | ] eqn:Es; [ | discriminate ].
    destruct (str_in s _) eqn:Ein; [ | discriminate ].
    inversion Hv; subst. exists v, s. repeat split; assumption.
  - split; [ reflexivity | ].
    destruct Hcases as [Hforeign | [Hmissing | [v [Hv Hnone]]]].
    + left. cbn [malformed_feature]. rewrite Hforeign. reflexivity.
    + left. cbn [malformed_feature]. rewrite Hmissing. apply orb_true_r.
    + right. exists v. split; [ exact Hv | ].
      apply enum_validator_none. exact Hnone.
Qed.

Lemma feature_name_in (features : list pyval) (feature : pyval) (n : string) :
  In feature features -> feature_name feature = Some n -> In n (names_of features).
Proof.
  intros Hin Hn. unfold names_of. apply in_flat_map.
  exists feature. split; [ exact Hin | ]. rewrite Hn. left. reflexivity.
Qed.

(** The loop over the features: it fails with [vol.Invalid] exactly on an
    entry that is malformed, names an unknown feature or names a feature
    seen before. *)
Lemma add_features_cases (features : list pyval) (feature_list : dict) :
  Forall (fun v => well_formed v = true) features ->
  match add_features features feature_list with
  | Ok out =>
      existsb malformed_feature features = false
      /\ existsb
           (fun feature =>
              match feature_value feature with
              | Some v => unknown_enum_value feature_names v
              | None => false
              end) features = false
      /\ has_repeat (names_of features) = false
      /\ (forall n, In n (names_of features) -> dict_mem feature_list (PStr n) = false)
      /\ (features = [] -> out = feature_list)
  | Raise e =>
      e = Invalid
      /\ (existsb malformed_feature features = true
          \/ existsb
               (fun feature =>
                  match feature_value feature with
                  | Some v => unknown_enum_value feature_names v
                  | None => false
                  end) features = true
          \/ has_repeat (names_of features) = true
          \/ exists n, In n (names_of features) /\ dict_mem feature_list (PStr n) = true)
  end.
Proof.
  intro Hw. revert feature_list.
  induction Hw as [ | feature rest Hf Hrest IH ]; intro feature_list.
  - cbn. repeat split; try reflexivity. intros n [].
  - cbn [add_features].
    pose proof (media_player_schema_cases feature Hf) as Hcases.
    destruct (call_schema MEDIA_PLAYER_SCHEMA feature) as [ params | e ]; cbn [bind].
    + destruct Hcases as [v [s [-> [Hs [Hin ->]]]]].
      assert (Hname : feature_name (PDict [(PStr CONF_FEATURE, v)]) = Some s).
      { unfold feature_name. cbn. rewrite String.eqb_refl. exact Hs. }
      assert (Hnames : names_of (PDict [(PStr CONF_FEATURE, v)] :: rest)
                       = s :: names_of rest).
      { unfold names_of. cbn [flat_map]. rewrite Hname. reflexivity. }
      assert (Hmal : malformed_feature (PDict [(PStr CONF_FEATURE, v)]) = false).
      { cbn. unfold dict_mem. cbn. rewrite String.eqb_refl. reflexivity. }
      assert (Hunk : match feature_value (PDict [(PStr CONF_FEATURE, v)]) with
                     | Some v => unknown_enum_value feature_names v
                     | None => false
                     end = false).
      { cbn. rewrite String.eqb_refl. unfold unknown_enum_value.
        rewrite Hs, Hin. reflexivity. }
      unfold dict_pop. cbn [dict_get key_eqb]. rewrite String.eqb_refl.
      cbn [bind dict_remove key_eqb]. rewrite String.eqb_refl.
      rewrite Hnames. cbn [existsb has_repeat]. rewrite Hmal, Hunk. cbn [orb].
      destruct (dict_mem feature_list (PStr s)) eqn:Eseen.
      * split; [ reflexivity | ]. right. right. right.
        exists s. split; [ left; reflexivity | exact Eseen ].
      * specialize (IH (dict_set feature_list (PStr s) (PDict []))).
        destruct (add_features rest _) as [ out | e ].
        -- destruct IH as [Hm [Hu [Hr [Hfresh _]]]].
           split; [ exact Hm | ]. split; [ exact Hu | ].
           assert (Hnew : str_in s (names_of rest) = false).
           { destruct (str_in s (names_of rest)) eqn:Ein; [ | reflexivity ].
             apply str_in_In in Ein. specialize (Hfresh _ Ein).
             unfold dict_mem in Hfresh. rewrite dict_get_set_str, String.eqb_refl in Hfresh.
             discriminate. }
           rewrite Hnew, Hr. split; [ reflexivity | ].
           split; [ | discriminate ].
           intros n [<- | Hn]; [ exact Eseen | ].
           specialize (Hfresh _ Hn). unfold dict_mem in *.
           rewrite dict_get_set_str in Hfresh.
           destruct (String.eqb s n); [ discriminate | exact Hfresh ].
        -- destruct IH as [-> Hwhy]. split; [ reflexivity | ].
           destruct Hwhy as [Hm | [Hu | [Hr | [n [Hn Hseen]]]]].
           ++ left. exact Hm.
           ++ right. left. exact Hu.
           ++ right. right. left. rewrite Hr. apply orb_true_r.
           ++ unfold dict_mem in Hseen. rewrite dict_get_set_str in Hseen.
              destruct (String.eqb s n) eqn:Esn.
              ** apply String.eqb_eq in Esn. subst n.
                 right. right. left. apply str_in_In in Hn. rewrite Hn. reflexivity.
              ** right. right. right. exists n. split; [ right; exact Hn | exact Hseen ].
    + destruct Hcases as [-> Hwhy]. split; [ reflexivity | ].
      destruct Hwhy as [Hm | [v [Hv Hu]]].
      * left. cbn [existsb]. rewrite Hm. reflexivity.
      * right. left. cbn [existsb]. rewrite Hv, Hu. reflexivity.
Qed.

Lemma rejected_name_cases (config : dict) :
  if rejected_name config
  then exists v, dict_get config (PStr CONF_NAME) = Some v /\ string_validator v = None
  else forall v, dict_get config (PStr CONF_NAME) = Some v -> string_validator v <> None.
Proof.
  unfold rejected_name, string_validator.
  destruct (dict_get config (PStr CONF_NAME)) as [ v | ]; [ | discriminate ].
  destruct (cv_string v) eqn:E.
  - intros v' Hv'. inversion Hv'; subst. rewrite E. discriminate.
  - exists v. rewrite E. split; reflexivity.
Qed.

Lemma rejected_code_cases (config : dict) :
  rejected_code config = true <->
  vol_Any [vol_None; string_validator]
          (dict_get_default config (PStr ATTR_CODE) PNone) = None.
Proof.
  unfold rejected_code, dict_get_default, string_validator.
  destruct (dict_get config (PStr ATTR_CODE)) as [ v | ];
    [ | cbn; split; discriminate ].
  destruct v; cbn; try (split; discriminate);
    match goal with
    | |- context [cv_string ?x] => destruct (cv_string x); cbn; split; congruence
    end.
Qed.

Section WithContracts.
(** The key constants differ, and [cv.string] accepts a string as it
    is. *)
Hypothesis Hdistinct : schema_keys_distinct = true.
Hypothesis Hstr : forall s, cv_string (PStr s) = Some s.

Lemma name_is_not_code : CONF_NAME <> ATTR_CODE.
Proof.
  unfold schema_keys_distinct in Hdistinct.
  rewrite !andb_true_iff, !negb_true_iff, !String.eqb_neq in Hdistinct. tauto.
Qed.

Lemma name_is_not_feature_list : CONF_NAME <> CONF_FEATURE_LIST.
Proof.
  unfold schema_keys_distinct in Hdistinct.
  rewrite !andb_true_iff, !negb_true_iff, !String.eqb_neq in Hdistinct. tauto.
Qed.

Lemma name_is_not_type : CONF_NAME <> CONF_TYPE.
Proof.
  unfold schema_keys_distinct in Hdistinct.
  rewrite !andb_true_iff, !negb_true_iff, !String.eqb_neq in Hdistinct. tauto.
Qed.

Lemma unknown_switch_type_cases (config : dict) :
  unknown_switch_type config = true <->
  vol_All [string_validator; vol_In switch_types]
          (dict_get_default config (PStr CONF_TYPE) (PStr TYPE_SWITCH)) = None.
Proof.
  rewrite enum_validator_none.
  unfold unknown_switch_type, dict_get_default.
  destruct (dict_get config (PStr CONF_TYPE)) as [ v | ]; [ reflexivity | ].
  unfold unknown_enum_value. rewrite Hstr.
  assert (Hin : str_in TYPE_SWITCH switch_types = true).
  { apply str_in_In. unfold switch_types. cbn. tauto. }
  rewrite Hin. cbn. split; discriminate.
Qed.

Lemma default_switch_type :
  vol_All [string_validator; vol_In switch_types] (PStr TYPE_SWITCH)
  = Some (PStr TYPE_SWITCH).
Proof.
  rewrite enum_validator, Hstr.
  assert (Hin : str_in TYPE_SWITCH switch_types = true).
  { apply str_in_In. unfold switch_types. cbn. tauto. }
  rewrite Hin. reflexivity.
Qed.

(** The branch on the domain: the normalized record, or [vol.Invalid]
    for a record with a problem. *)
Lemma validate_config_cases (domain : string) (config : dict) :
  well_formed (PDict config) = true ->
  match validate_config domain (PDict config) with
  | Ok out =>
      listed_record_problem (kind_of_domain domain) config = false
      /\ other_record_problem (kind_of_domain domain) config = false
      /\ (dict_get config (PStr CONF_NAME) = None ->
          dict_get out (PStr CONF_NAME) = None)
      /\ (kind_of_domain domain = CodeDomain ->
          dict_get config (PStr ATTR_CODE) = None ->
          dict_get out (PStr ATTR_CODE) = Some PNone)
      /\ (kind_of_domain domain = SwitchDomain ->
          dict_get config (PStr CONF_TYPE) = None ->
          dict_get out (PStr CONF_TYPE) = Some (PStr TYPE_SWITCH))
      /\ (kind_of_domain domain = MediaPlayerDomain ->
          dict_get config (PStr CONF_FEATURE_LIST) = None ->
          dict_get out (PStr CONF_FEATURE_LIST) = Some (PDict []))
  | Raise e =>
      e = Invalid
      /\ (listed_record_problem (kind_of_domain domain) config = true
          \/ other_record_problem (kind_of_domain domain) config = true)
  end.
Proof.
  intro Hw. destruct (well_formed_dict _ Hw) as [Hu _].
  unfold validate_config, kind_of_domain.
  pose proof (rejected_name_cases config) as Hname.
  destruct (str_in domain ["alarm_control_panel"; "lock"]);
    [ | destruct (String.eqb domain media_player_DOMAIN);
        [ | destruct (String.eqb domain "switch") ] ].
  - (* alarm_control_panel, lock *)
    unfold call_schema, CODE_SCHEMA, BASIC_INFO_SCHEMA.
    rewrite (schema_extend_new CONF_NAME _ _ (vol_Optional_default ATTR_CODE PNone)
               name_is_not_code).
    pose proof (validate_name_and_key CONF_NAME ATTR_CODE string_validator
                  (vol_Any [vol_None; string_validator]) PNone config
                  name_is_not_code Hu) as Hcases.
    pose proof (rejected_code_cases config) as Hcode.
    unfold other_record_problem, listed_record_problem, allowed_keys.
    destruct (validate_mapping _ config) as [ out | ]; cbn [of_validated].
    + destruct Hcases as [Hforeign [Hgn [Hn [Hgc Hc]]]].
      rewrite Hforeign. split; [ reflexivity | ].
      destruct (rejected_name config);
        [ destruct Hname as [v [Hv Hnone]]; elim (Hn v Hv Hnone) | ].
      destruct (rejected_code config);
        [ elim Hc; apply Hcode; reflexivity | ].
      split; [ reflexivity | ].
      split; [ intro Hnone; rewrite Hgn, Hnone; reflexivity | ].
      split; [ | split; discriminate ].
      intros _ Hnone. rewrite Hgc. unfold dict_get_default. rewrite Hnone. reflexivity.
    + split; [ reflexivity | right ].
      destruct Hcases as [Hforeign | [[v [Hv Hnone]] | Hnone]].
      * rewrite Hforeign. reflexivity.
      * destruct (rejected_name config); [ rewrite orb_true_r; reflexivity | ].
        elim (Hname v Hv Hnone).
      * apply Hcode in Hnone. rewrite Hnone. apply orb_true_r.
  - (* media_player *)
    unfold call_schema, FEATURE_SCHEMA, BASIC_INFO_SCHEMA.
    rewrite (schema_extend_new CONF_NAME _ _ (vol_Optional_default CONF_FEATURE_LIST PNone)
               name_is_not_feature_list).
    pose proof (validate_name_and_key CONF_NAME CONF_FEATURE_LIST string_validator
                  cv_ensure_list PNone config name_is_not_feature_list Hu) as Hcases.
    rewrite ensure_list_listed in Hcases.
    pose proof (add_features_cases (listed_features config) []
                  (listed_features_well_formed _ Hw)) as Hloop.
    unfold other_record_problem, listed_record_problem, allowed_keys,
      unknown_feature, repeated_feature.
    destruct (validate_mapping _ config) as [ out | ]; cbn [of_validated bind].
    + destruct Hcases as [Hforeign [Hgn [Hn [Hgl _]]]].
      unfold dict_getitem. rewrite Hgl. cbn [bind py_iter].
      rewrite Hforeign.
      destruct (rejected_name config);
        [ destruct Hname as [v [Hv Hnone]]; elim (Hn v Hv Hnone) | ].
      destruct (add_features (listed_features config) []) as [ feature_list | e ];
        cbn [bind].
      * destruct Hloop as [Hm [Hk [Hr [_ Hempty]]]].
        rewrite Hm, Hk, Hr. split; [ reflexivity | ]. split; [ reflexivity | ].
        split; [ | split; [ discriminate | split; [ discriminate | ] ] ].
        -- intro Hnone. rewrite dict_get_set_str.
           pose proof name_is_not_feature_list as Hne.
           apply not_eq_sym in Hne. apply String.eqb_neq in Hne. rewrite Hne.
           rewrite Hgn, Hnone. reflexivity.
        -- intros _ Hnone. rewrite dict_get_set_str, String.eqb_refl.
           rewrite Hempty; [ reflexivity | ].
           unfold listed_features. rewrite Hnone. reflexivity.
      * destruct Hloop as [-> Hwhy]. split; [ reflexivity | ].
        destruct Hwhy as [Hm | [Hk | [Hr | [n [_ Hseen]]]]].
        -- right. rewrite Hm. reflexivity.
        -- left. rewrite Hk. reflexivity.
        -- left. rewrite Hr. apply orb_true_r.
        -- discriminate.
    + split; [ reflexivity | right ].
      destruct Hcases as [Hforeign | [[v [Hv Hnone]] | Hnone]].
      * rewrite Hforeign. reflexivity.
      * destruct (rejected_name config); [ rewrite orb_true_r; reflexivity | ].
        elim (Hname v Hv Hnone).
      * discriminate.
  - (* switch *)
    unfold call_schema, SWITCH_TYPE_SCHEMA, BASIC_INFO_SCHEMA.
    rewrite (schema_extend_new CONF_NAME _ _
               (vol_Optional_default CONF_TYPE (PStr TYPE_SWITCH)) name_is_not_type).
    pose proof (validate_name_and_key CONF_NAME CONF_TYPE string_validator
                  (vol_All [string_validator; vol_In switch_types])
                  (PStr TYPE_SWITCH) config name_is_not_type Hu) as Hcases.
    pose proof (unknown_switch_type_cases config) as Htype.
    unfold other_record_problem, listed_record_problem, allowed_keys.
    change (vol_In [TYPE_FAUCET; TYPE_OUTLET; TYPE_SHOWER; TYPE_SPRINKLER;
                    TYPE_SWITCH; TYPE_VALVE]) with (vol_In switch_types).
    destruct (validate_mapping _ config) as [ out | ]; cbn [of_validated].
    + destruct Hcases as [Hforeign [Hgn [Hn [Hgt Ht]]]].
      rewrite Hforeign.
      destruct (unknown_switch_type config);
        [ elim Ht; apply Htype; reflexivity | ].
      destruct (rejected_name config);
        [ destruct Hname as [v [Hv Hnone]]; elim (Hn v Hv Hnone) | ].
      split; [ reflexivity | ]. split; [ reflexivity | ].
      split; [ intro Hnone; rewrite Hgn, Hnone; reflexivity | ].
      split; [ discriminate | ]. split; [ | discriminate ].
      intros _ Hnone. rewrite Hgt. unfold dict_get_default. rewrite Hnone.
      apply default_switch_type.
    + split; [ reflexivity | ].
      destruct Hcases as [Hforeign | [[v [Hv Hnone]] | Hnone]].
      * right. rewrite Hforeign. reflexivity.
      * right. destruct (rejected_name config); [ rewrite orb_true_r; reflexivity | ].
        elim (Hname v Hv Hnone).
      * left. apply Htype. exact Hnone.
  - (* any other domain *)
    unfold call_schema, BASIC_INFO_SCHEMA.
    pose proof (validate_optional_key CONF_NAME string_validator config Hu) as Hcases.
    unfold other_record_problem, listed_record_problem, allowed_keys.
    destruct (validate_mapping _ config) as [ out | ]; cbn [of_validated].
    + destruct Hcases as [Hforeign [Hgn Hn]].
      rewrite Hforeign.
      destruct (rejected_name config);
        [ destruct Hname as [v [Hv Hnone]]; elim (Hn v Hv Hnone) | ].
      split; [ reflexivity | ]. split; [ reflexivity | ].
      split; [ intro Hnone; rewrite Hgn, Hnone; reflexivity | ].
      repeat split; discriminate.
    + split; [ reflexivity | right ].
      destruct Hcases as [Hforeign | [v [Hv Hnone]]].
      * rewrite Hforeign. reflexivity.
      * destruct (rejected_name config); [ rewrite orb_true_r; reflexivity | ].
        elim (Hname v Hv Hnone).
Qed.

(** The loop over the entities: it fails with [vol.Invalid] exactly when
    some entry has a problem, and each entity it returns comes from an
    entry and carries the validated record of it. *)
Lemma validate_entities_cases (items entities : dict) :
  (forall k v, In (k, v) items -> well_formed v = true) ->
  match validate_entities items entities with
  | Ok out =>
      existsb (entry_problem record_problem) items = false
      /\ (forall ke vc,
             In (ke, vc) out ->
             In (ke, vc) entities
             \/ exists k config entity normalized,
                 In (k, PDict config) items
                 /\ cv_entity_id k = Some entity
                 /\ ke = PStr entity
                 /\ vc = PDict normalized
                 /\ validate_config (fst (split_entity_id entity)) (PDict config)
                    = Ok normalized)
  | Raise e =>
      e = Invalid /\ existsb (entry_problem record_problem) items = true
  end.
Proof.
  revert entities.
  induction items as [ | [k v] rest IH ]; intros entities Hw.
  - cbn. split; [ reflexivity | ]. intros ke vc Hin. left. exact Hin.
  - cbn [validate_entities existsb]. unfold entry_problem at 1 3. cbn [fst snd].
    destruct (cv_entity_id k) as [ entity | ] eqn:Ek; cbn [of_validated bind];
      [ | split; reflexivity ].
    destruct (split_entity_id entity) as [domain object_id] eqn:Es. cbn [fst].
    destruct v as [ | | | | | | config ]; try (split; reflexivity).
    assert (Hwc : well_formed (PDict config) = true)
      by (apply (Hw k); left; reflexivity).
    pose proof (validate_config_cases domain config Hwc) as Hcases.
    destruct (validate_config domain (PDict config)) as [ normalized | e ] eqn:Ev;
      cbn [bind].
    + destruct Hcases as [Hlisted [Hother _]].
      unfold record_problem at 1 3. rewrite Hlisted, Hother. cbn [orb].
      assert (Hwr : forall k' v', In (k', v') rest -> well_formed v' = true)
        by (intros k' v' Hin; apply (Hw k'); right; exact Hin).
      specialize (IH (dict_set entities (PStr entity) (PDict normalized)) Hwr).
      destruct (validate_entities rest _) as [ out | e ].
      * destruct IH as [Hnone Hout]. split; [ exact Hnone | ].
        intros ke vc Hin. destruct (Hout ke vc Hin) as [Hset | Hfrom].
        -- destruct (In_dict_set_str _ _ _ _ Hset) as [Hold | Hnew].
           ++ left. exact Hold.
           ++ right. inversion Hnew; subst.
              exists k, config, entity, normalized.
              split; [ left; reflexivity | ]. repeat split; try assumption.
              rewrite Es. exact Ev.
        -- right. destruct Hfrom as [k' [c' [e' [n' [Hin' Hrest]]]]].
           exists k', c', e', n'. split; [ right; exact Hin' | exact Hrest ].
      * destruct IH as [-> Hsome]. split; [ reflexivity | ].
        rewrite Hsome. reflexivity.
    + destruct Hcases as [-> Hwhy]. split; [ reflexivity | ].
      unfold record_problem at 1.
      destruct Hwhy as [-> | ->]; [ reflexivity | rewrite orb_true_r; reflexivity ].
Qed.

Lemma any_problem_eq (items : dict) :
  any_problem (PDict items) = existsb (entry_problem record_problem) items.
Proof. reflexivity. Qed.

Lemma listed_entry_problem_any (entry : pyval * pyval) :
  entry_problem listed_record_problem entry = true ->
  entry_problem record_problem entry = true.
Proof.
  unfold entry_problem, record_problem.
  destruct (cv_entity_id (fst entry)); [ | reflexivity ].
  destruct (snd entry); try reflexivity.
  intros ->. reflexivity.
Qed.

Lemma has_repeat_intro (features : list pyval) (i j : nat) (fi fj : pyval) (n : string) :
  (i < j)%nat ->
  nth_error features i = Some fi -> nth_error features j = Some fj ->
  feature_name fi = Some n -> feature_name fj = Some n ->
  has_repeat (names_of features) = true.
Proof.
  revert i j.
  induction features as [ | f rest IH ]; intros i j Hlt Hi Hj Hni Hnj.
  - destruct i; discriminate.
  - destruct j as [ | j ]; [ lia | ]. cbn [nth_error] in Hj.
    unfold names_of. cbn [flat_map]. fold (names_of rest).
    destruct i as [ | i ]; cbn [nth_error] in Hi.
    + inversion Hi; subst f. rewrite Hni. cbn [app has_repeat].
      apply nth_error_In in Hj.
      pose proof (feature_name_in _ _ _ Hj Hnj) as Hin.
      apply str_in_In in Hin. rewrite Hin. reflexivity.
    + assert (Hrest : has_repeat (names_of rest) = true)
        by (apply (IH i j); try assumption; lia).
      destruct (feature_name f); cbn [app has_repeat];
        [ rewrite Hrest; apply orb_true_r | exact Hrest ].
Qed.

(** C1, as the code has it: on a value Python can build, the validator
    raises a validation error exactly when the value is not a mapping or
    some entry has a problem: one the spec lists (a record that is not a
    mapping, a malformed identifier, an unknown enum value, a repeated
    feature), or a key its schema does not have, a name or code that is
    no string, a feature entry that is not a mapping of the feature key
    alone; it raises nothing else, and returns a mapping for every input
    free of these. *)
Theorem validate_entity_config_raises_iff (values : pyval) :
  well_formed values = true ->
  (validate_entity_config values = Raise Invalid <-> any_problem values = true)
  /\ (any_problem values = false ->
      exists entities, validate_entity_config values = Ok entities)
  /\ (listed_problem values = true -> any_problem values = true)
  /\ (forall e, validate_entity_config values = Raise e -> e = Invalid).
Proof.
  intro Hw.
  destruct values as [ | | | | | | items ];
    try (cbn; repeat split; try discriminate; try reflexivity;
         intros e He; inversion He; reflexivity).
  destruct (well_formed_dict _ Hw) as [_ Hvalues].
  pose proof (validate_entities_cases items [] Hvalues) as Hcases.
  rewrite any_problem_eq. cbn [validate_entity_config listed_problem].
  destruct (validate_entities items []) as [ out | e ].
  - destruct Hcases as [Hnone _]. rewrite Hnone.
    split; [ split; discriminate | ].
    split; [ intros _; exists out; reflexivity | ].
    split; [ | discriminate ].
    intro Hlisted. apply existsb_exists in Hlisted.
    destruct Hlisted as [entry [Hin Hp]].
    apply listed_entry_problem_any in Hp.
    assert (Hex : existsb (entry_problem record_problem) items = true)
      by (apply existsb_exists; exists entry; split; assumption).
    congruence.
  - destruct Hcases as [-> Hsome]. rewrite Hsome.
    split; [ split; reflexivity | ].
    split; [ discriminate | ].
    split; [ reflexivity | ].
    intros e He. inversion He. reflexivity.
Qed.

(** C3: when the record of a media-player entity lists the same feature
    name twice, the validator raises a validation error. *)
Theorem duplicate_feature_raises
        (items config : dict) (k : pyval) (entity : string)
        (i j : nat) (fi fj : pyval) (n : string) :
  well_formed (PDict items) = true ->
  In (k, PDict config) items ->
  cv_entity_id k = Some entity ->
  kind_of_domain (fst (split_entity_id entity)) = MediaPlayerDomain ->
  (i < j)%nat ->
  nth_error (listed_features config) i = Some fi ->
  nth_error (listed_features config) j = Some fj ->
  feature_name fi = Some n ->
  feature_name fj = Some n ->
  validate_entity_config (PDict items) = Raise Invalid.
Proof.
  intros Hw Hin Hk Hkind Hlt Hi Hj Hni Hnj.
  destruct (well_formed_dict _ Hw) as [_ Hvalues].
  pose proof (validate_entities_cases items [] Hvalues) as Hcases.
  cbn [validate_entity_config].
  assert (Hproblem : existsb (entry_problem record_problem) items = true).
  { apply existsb_exists. exists (k, PDict config). split; [ exact Hin | ].
    unfold entry_problem. cbn [fst snd]. rewrite Hk, Hkind.
    unfold record_problem, listed_record_problem, repeated_feature.
    rewrite (has_repeat_intro _ _ _ _ _ _ Hlt Hi Hj Hni Hnj).
    rewrite orb_true_r. reflexivity. }
  destruct (validate_entities items []) as [ out | e ].
  - destruct Hcases as [Hnone _]. congruence.
  - destruct Hcases as [-> _]. reflexivity.
Qed.

(** C9, as the code has it: for a media-player entity whose record omits
    the feature list and is valid otherwise, the validator raises
    nothing and returns the normalized record, its feature list the
    empty mapping: the null default goes through the list validator
    and is iterated as the empty list. *)
Theorem media_player_without_feature_list
        (k : pyval) (config : dict) (entity : string) :
  well_formed (PDict config) = true ->
  cv_entity_id k = Some entity ->
  kind_of_domain (fst (split_entity_id entity)) = MediaPlayerDomain ->
  dict_get config (PStr CONF_FEATURE_LIST) = None ->
  foreign_key [CONF_NAME; CONF_FEATURE_LIST] config = false ->
  rejected_name config = false ->
  exists normalized,
    validate_entity_config (PDict [(k, PDict config)])
    = Ok [(PStr entity, PDict normalized)]
    /\ dict_get normalized (PStr CONF_FEATURE_LIST) = Some (PDict []).
Proof.
  intros Hw Hk Hkind Hnone Hforeign Hname.
  pose proof (validate_config_cases (fst (split_entity_id entity)) config Hw) as Hc.
  cbn [validate_entity_config validate_entities]. rewrite Hk. cbn [of_validated bind].
  destruct (split_entity_id entity) as [domain object_id]. cbn [fst] in *.
  rewrite Hkind in Hc.
  destruct (validate_config domain (PDict config)) as [ normalized | e ]; cbn [bind].
  - exists normalized. split; [ reflexivity | ].
    destruct Hc as [_ [_ [_ [_ [_ Hlist]]]]]. apply Hlist; [ reflexivity | exact Hnone ].
  - exfalso. destruct Hc as [_ Hwhy].
    unfold listed_record_problem, other_record_problem, unknown_feature,
      repeated_feature, allowed_keys, listed_features in Hwhy.
    rewrite Hnone, Hforeign, Hname in Hwhy. cbn in Hwhy.
    destruct Hwhy; discriminate.
Qed.

End WithContracts.

End ValidateEntityConfigProperties.

Lemma ha_string_str (s : string) : cv_string (PStr s) = Some s.
Proof. reflexivity. Qed.

(** C1 as stated fails: a record with a key its schema does not have, or
    with a null name, is rejected with a validation error though none of
    the listed failures holds. *)
Lemma validate_entity_config_raises_unlisted :
  validate_entity_config unknown_key_config = Raise Invalid
  /\ listed_problem unknown_key_config = false
  /\ validate_entity_config null_name_config = Raise Invalid
  /\ listed_problem null_name_config = false.
Proof. repeat split; vm_compute; reflexivity. Qed.

Lemma validate_entity_config_raises_iff_witness :
  validate_entity_config null_name_config = Raise Invalid.
Proof.
  refine (proj2 (proj1 (validate_entity_config_raises_iff (C := ha_consts) (H := ha_helpers)
                          eq_refl ha_string_str null_name_config eq_refl)) eq_refl).
Defined.

Lemma duplicate_feature_raises_witness :
  validate_entity_config repeated_feature_config = Raise Invalid.
Proof.
  apply (duplicate_feature_raises (C := ha_consts) (H := ha_helpers) eq_refl ha_string_str
           [(PStr "media_player.demo",
             PDict [(PStr "feature_list",
                     PList [PDict [(PStr "feature", PStr "on_off")];
                            PDict [(PStr "feature", PStr "on_off")]])])]
           [(PStr "feature_list",
             PList [PDict [(PStr "feature", PStr "on_off")];
                    PDict [(PStr "feature", PStr "on_off")]])]
           (PStr "media_player.demo") "media_player.demo" 0 1
           (PDict [(PStr "feature", PStr "on_off")])
           (PDict [(PStr "feature", PStr "on_off")]) "on_off");
    try reflexivity.
  - left. reflexivity.
  - lia.
Defined.

Lemma media_player_without_feature_list_witness :
  exists normalized,
    validate_entity_config bare_media_player_config
    = Ok [(PStr "media_player.demo", PDict normalized)]
    /\ dict_get normalized (PStr CONF_FEATURE_LIST) = Some (PDict []).
Proof.
  refine (media_player_without_feature_list (C := ha_consts) (H := ha_helpers) eq_refl ha_string_str
            (PStr "media_player.demo") [] "media_player.demo"
            eq_refl eq_refl eq_refl eq_refl eq_refl eq_refl).
Defined.

(** C9 as stated fails: the record of a media player without a feature list
    is returned normalized, with the empty feature mapping; no type error is
    raised. *)
Lemma bare_media_player_is_returned :
  validate_entity_config bare_media_player_config
  = Ok [(PStr "media_player.demo", PDict [(PStr "feature_list", PDict [])])]
  /\ validate_entity_config bare_media_player_config <> Raise TypeError.
Proof. split; [ vm_compute; reflexivity | vm_compute; discriminate ]. Qed.

(** * Further properties *)

(** ** The density mapping *)

(** X1: the level is between 1 and 5 for every input, and it never goes
    down when the density goes up. *)
Theorem density_to_air_quality_monotone :
  (forall x : real_num, 1 <= density_to_air_quality x <= 5)
  /\ (forall p q : Q,
         (p <= q)%Q ->
         density_to_air_quality (Finite p) <= density_to_air_quality (Finite q)).
Proof.
  split.
  - intro x. unfold density_to_air_quality.
    destruct (real_le_int x 35); [ lia | ].
    destruct (real_le_int x 75); [ lia | ].
    destruct (real_le_int x 115); [ lia | ].
    destruct (real_le_int x 150); lia.
  - intros p q Hle. unfold density_to_air_quality.
    destruct (real_le_int (Finite q) 35) eqn:Q35;
      [ apply real_le_int_finite in Q35 | apply real_le_int_finite_false in Q35 ];
    (destruct (real_le_int (Finite q) 75) eqn:Q75;
      [ apply real_le_int_finite in Q75 | apply real_le_int_finite_false in Q75 ]);
    (destruct (real_le_int (Finite q) 115) eqn:Q115;
      [ apply real_le_int_finite in Q115 | apply real_le_int_finite_false in Q115 ]);
    (destruct (real_le_int (Finite q) 150) eqn:Q150;
      [ apply real_le_int_finite in Q150 | apply real_le_int_finite_false in Q150 ]);
    (destruct (real_le_int (Finite p) 35) eqn:P35;
      [ apply real_le_int_finite in P35 | apply real_le_int_finite_false in P35 ]);
    (destruct (real_le_int (Finite p) 75) eqn:P75;
      [ apply real_le_int_finite in P75 | apply real_le_int_finite_false in P75 ]);
    (destruct (real_le_int (Finite p) 115) eqn:P115;
      [ apply real_le_int_finite in P115 | apply real_le_int_finite_false in P115 ]);
    (destruct (real_le_int (Finite p) 150) eqn:P150;
      [ apply real_le_int_finite in P150 | apply real_le_int_finite_false in P150 ]);
    unfold inject_Z in *; try lia; exfalso; lra.
Qed.

Lemma density_to_air_quality_monotone_witness :
  density_to_air_quality (Finite 40) <= density_to_air_quality (Finite 120).
Proof.
  apply (proj2 density_to_air_quality_monotone 40%Q 120%Q). discriminate.
Defined.

(** ** The safe float conversion *)

(** X2: what [convert_to_float] returns is a float or null, and converting
    it again returns it unchanged. *)
Theorem convert_to_float_idempotent (state r : pyval) :
  convert_to_float state = Ok r ->
  (r = PNone \/ exists x, r = PFloat x) /\ convert_to_float r = Ok r.
Proof.
  unfold convert_to_float.
  destruct (py_float state) as [ x | [ | | | | ] ]; intro Hr; inversion Hr; subst;
    (split; [ | reflexivity ]); (left; reflexivity) || (right; eexists; reflexivity).
Qed.

Lemma convert_to_float_idempotent_witness :
  convert_to_float (PFloat (Finite (25 # 2))) = Ok (PFloat (Finite (25 # 2))).
Proof.
  apply (proj2 (convert_to_float_idempotent (PStr "12.5") _ eq_refl)).
Defined.

(** ** The temperature conversions *)

(** X4: the round trip in the other direction loses nothing: a HomeKit
    temperature up to 500000 degrees, a multiple of half a degree Celsius,
    converted to the unit of the states and back gives the same
    temperature, whichever the unit. *)
Theorem homekit_round_trip_exact (k : Z) (unit : temperature_unit) :
  Z.abs k <= 1000000 ->
  exists f : Q,
    temperature_to_states (Finite (inject_Z k / 2)) unit = Ok (Finite f)
    /\ temperature_to_homekit (Finite f) unit = Ok (Finite (Qred (inject_Z k / 2))).
Proof.
  intro Hk.
  assert (Hhi : (inject_Z k <= 1000000)%Q).
  { change 1000000%Q with (inject_Z 1000000). rewrite <- Zle_Qle. lia. }
  assert (Hlo : (-1000000 <= inject_Z k)%Q).
  { change (-1000000)%Q with (inject_Z (-1000000)). rewrite <- Zle_Qle. lia. }
  assert (Hh : (inject_Z k == 2 * (inject_Z k / 2))%Q) by field.
  unfold temperature_to_homekit, temperature_to_states.
  destruct unit; cbn [convert].
  - (* Celsius: both roundings are exact *)
    assert (Hbig : (1000000 < two_power 1023)%Q) by (vm_compute; reflexivity).
    assert (Hb : is_binary64 (inject_Z k / 2)) by (apply is_binary64_half_Z; lia).
    assert (Hn : forall c, (c == inject_Z k / 2)%Q -> round_half_even (c * 2) = k).
    { intros c Hc. rewrite (round_half_even_comp _ (inject_Z k));
        [ apply round_half_even_Z | rewrite Hc; field ]. }
    assert (Hr : forall c,
               (c == inject_Z k / 2)%Q ->
               round_to_half (Finite c) = Ok (Finite (Qred (inject_Z k / 2)))).
    { intros c Hc. rewrite round_to_half_exact.
      - rewrite (Hn c Hc). reflexivity.
      - apply (is_binary64_comp (inject_Z k / 2)); [ symmetry; exact Hc | exact Hb ].
      - rewrite Hc. set (h := (inject_Z k / 2)%Q) in *. set (top := two_power 1023) in *.
        apply Qabs_Qlt_condition. split; lra. }
    exists (Qred (inject_Z k / 2)). split.
    + apply Hr. reflexivity.
    + apply Hr. apply Qred_correct.
  - (* Fahrenheit: the way back undoes the rounding of the way out *)
    set (c := (inject_Z k / 2)%Q) in *.
    destruct (celsius_to_fahrenheit_near c) as [f1 [Hf1 Hef1]];
      [ apply Qabs_Qle_condition; split; lra | ].
    rewrite Hf1. apply Qabs_Qle_condition in Hef1.
    destruct (round_to_half_near f1) as [n2 [Hn2 Hen2]];
      [ apply Qabs_Qle_condition; split; lra | ].
    apply Qabs_Qle_condition in Hen2.
    exists (Qred (inject_Z n2 / 2)). split; [ exact Hn2 | ].
    assert (Hf : (Qred (inject_Z n2 / 2) == inject_Z n2 / 2)%Q) by apply Qred_correct.
    set (f := Qred (inject_Z n2 / 2)) in *.
    assert (Hh2 : (inject_Z n2 == 2 * (inject_Z n2 / 2))%Q) by field.
    set (h2 := (inject_Z n2 / 2)%Q) in *.
    destruct (fahrenheit_to_celsius_near f) as [b [Hb Heb]];
      [ apply Qabs_Qle_condition; split; lra | ].
    rewrite Hb. apply Qabs_Qle_condition in Heb.
    destruct (round_to_half_near b) as [n3 [Hn3 Hen3]];
      [ apply Qabs_Qle_condition; split; lra | ].
    apply Qabs_Qle_condition in Hen3.
    assert (Hsame : n3 = k).
    { assert (Hd : (inject_Z (n3 - k) == inject_Z n3 - inject_Z k)%Q).
      { unfold Z.sub. rewrite inject_Z_plus, inject_Z_opp. ring. }
      assert (Hlt : (n3 - k < 1)%Z).
      { rewrite Zlt_Qlt, Hd. change (inject_Z 1) with 1%Q. lra. }
      assert (Hgt : (-1 < n3 - k)%Z).
      { rewrite Zlt_Qlt, Hd. change (inject_Z (-1)) with (-1)%Q. lra. }
      lia. }
    rewrite Hn3, Hsame. reflexivity.
Qed.

Lemma homekit_round_trip_exact_witness :
  exists f : Q,
    temperature_to_states (Finite (inject_Z 43 / 2)) TEMP_FAHRENHEIT = Ok (Finite f)
    /\ temperature_to_homekit (Finite f) TEMP_FAHRENHEIT
       = Ok (Finite (Qred (inject_Z 43 / 2))).
Proof.
  apply (homekit_round_trip_exact 43 TEMP_FAHRENHEIT). vm_compute. discriminate.
Defined.

(** X5: the safe float conversion accepts the texts [nan] and [inf], and a
    temperature that is not finite makes both temperature conversions raise,
    whichever the unit: an [OverflowError] for an infinity, a [ValueError]
    for a NaN. *)
Theorem temperature_conversions_not_finite (unit : temperature_unit) :
  convert_to_float (PStr "nan") = Ok (PFloat NaN)
  /\ convert_to_float (PStr "inf") = Ok (PFloat PosInf)
  /\ convert_to_float (PStr "-inf") = Ok (PFloat NegInf)
  /\ temperature_to_homekit PosInf unit = Raise OverflowError
  /\ temperature_to_homekit NegInf unit = Raise OverflowError
  /\ temperature_to_homekit NaN unit = Raise ValueError
  /\ temperature_to_states PosInf unit = Raise OverflowError
  /\ temperature_to_states NegInf unit = Raise OverflowError
  /\ temperature_to_states NaN unit = Raise ValueError.
Proof. destruct unit; repeat split; reflexivity. Qed.

(** ** The media-player feature check *)

Section MediaPlayerFeaturesFurther.
Context {C : Consts}.

(** X6: a bitmask attribute that is present and is neither an integer nor a
    boolean (a text, a float, null) makes the check raise a [TypeError],
    whatever features are requested. *)
Theorem validate_media_player_features_type_error
        (state : State) (feature_list : list string) (v : pyval) :
  dict_get (attributes state) (PStr ATTR_SUPPORTED_FEATURES) = Some v ->
  (forall z, v <> PInt z) ->
  (forall b, v <> PBool b) ->
  validate_media_player_features state feature_list = Raise TypeError.
Proof.
  intros Hv Hint Hbool. unfold validate_media_player_features, dict_get_default.
  rewrite Hv.
  destruct v as [ | b | z | x | s | l | d ]; try reflexivity.
  - elim (Hbool b). reflexivity.
  - elim (Hint z). reflexivity.
Qed.

(** X7: checking two requests together is checking each: the result for
    the concatenation is the conjunction of the two results, and the
    features logged as unsupported are those of the first request followed
    by those of the second. *)
Theorem validate_media_player_features_app
        (state : State) (first second : list string) (bits : Z) :
  bitmask_is state bits ->
  exists b1 log1 b2 log2 b log,
    validate_media_player_features state first = Ok (b1, log1)
    /\ validate_media_player_features state second = Ok (b2, log2)
    /\ validate_media_player_features state (first ++ second)%list = Ok (b, log)
    /\ b = b1 && b2
    /\ flat_map log_features log
       = (flat_map log_features log1 ++ flat_map log_features log2)%list.
Proof.
  intro Hbits.
  rewrite !(validate_media_player_features_eq _ _ _ Hbits).
  rewrite filter_app.
  destruct (filter _ first) as [ | f1 r1 ]; destruct (filter _ second) as [ | f2 r2 ];
    cbn [app]; eexists _, _, _, _, _, _;
    (split; [ reflexivity | ]); (split; [ reflexivity | ]); (split; [ reflexivity | ]);
    (split; [ reflexivity | ]); cbn; rewrite ?app_nil_r; reflexivity.
Qed.

(** X8: a requested feature that is none of the four feature names is never
    supported: the check returns false whatever the bitmask. *)
Theorem unknown_feature_is_unsupported
        (state : State) (feature_list : list string) (bits : Z) (feature : string) :
  bitmask_is state bits ->
  In feature feature_list ->
  ~ In feature [FEATURE_ON_OFF; FEATURE_PLAY_PAUSE; FEATURE_PLAY_STOP; FEATURE_TOGGLE_MUTE] ->
  exists log, validate_media_player_features state feature_list = Ok (false, log).
Proof.
  intros Hbits Hin Hunknown.
  rewrite (validate_media_player_features_eq _ _ _ Hbits).
  destruct (filter _ feature_list) as [ | f errs ] eqn:E; [ | eexists; reflexivity ].
  exfalso. apply no_unsupported_iff in E. rewrite Forall_forall in E.
  specialize (E _ Hin). apply Hunknown. cbn.
  destruct E as [[-> _] | [[-> _] | [[-> _] | [-> _]]]]; tauto.
Qed.

Lemma land_within (bits mask flags : Z) :
  Z.land mask flags = flags -> Z.land bits flags = Z.land (Z.land bits mask) flags.
Proof.
  intro Hsub. rewrite <- Z.land_assoc, Hsub. reflexivity.
Qed.

Lemma supportsb_tested_flags (bits : Z) (feature : string) :
  supportsb bits feature = supportsb (Z.land bits tested_flags) feature.
Proof.
  assert (Hsub : forall flags,
             Z.land tested_flags flags = flags ->
             Z.land (Z.land bits tested_flags) flags = Z.land bits flags)
    by (intros flags Hf; symmetry; apply land_within; exact Hf).
  unfold supportsb.
  rewrite !Hsub; [ reflexivity | | | | ]; unfold tested_flags;
    apply Z.bits_inj; intro n; rewrite ?Z.land_spec, ?Z.lor_spec;
    destruct (Z.testbit SUPPORT_TURN_ON n), (Z.testbit SUPPORT_TURN_OFF n),
      (Z.testbit SUPPORT_PLAY n), (Z.testbit SUPPORT_PAUSE n),
      (Z.testbit SUPPORT_STOP n), (Z.testbit SUPPORT_VOLUME_MUTE n); reflexivity.
Qed.

(** X9: only the six tested flags matter: two states of one entity whose
    bitmasks agree on the turn-on, turn-off, play, pause, stop and mute
    flags get the same result and the same log for every request. *)
Theorem untested_flags_are_ignored
        (state state' : State) (feature_list : list string) (bits bits' : Z) :
  bitmask_is state bits ->
  bitmask_is state' bits' ->
  entity_id state = entity_id state' ->
  Z.land bits tested_flags = Z.land bits' tested_flags ->
  validate_media_player_features state feature_list
  = validate_media_player_features state' feature_list.
Proof.
  intros Hbits Hbits' Hid Hflags.
  rewrite (validate_media_player_features_eq _ _ _ Hbits).
  rewrite (validate_media_player_features_eq _ _ _ Hbits').
  assert (Hext : forall feature,
             negb (supportsb bits feature) = negb (supportsb bits' feature)).
  { intro feature.
    rewrite (supportsb_tested_flags bits), (supportsb_tested_flags bits'), Hflags.
    reflexivity. }
  rewrite (filter_ext _ _ Hext), Hid. reflexivity.
Qed.

End MediaPlayerFeaturesFurther.

Lemma validate_media_player_features_type_error_witness :
  validate_media_player_features text_bitmask_player ["on_off"] = Raise TypeError.
Proof.
  apply (validate_media_player_features_type_error
           text_bitmask_player ["on_off"] (PStr "384")).
  - reflexivity.
  - discriminate.
  - discriminate.
Defined.

Lemma validate_media_player_features_app_witness :
  exists b1 log1 b2 log2 b log,
    validate_media_player_features on_off_player ["on_off"] = Ok (b1, log1)
    /\ validate_media_player_features on_off_player ["play_pause"] = Ok (b2, log2)
    /\ validate_media_player_features on_off_player (["on_off"] ++ ["play_pause"])%list
       = Ok (b, log)
    /\ b = b1 && b2
    /\ flat_map log_features log
       = (flat_map log_features log1 ++ flat_map log_features log2)%list.
Proof.
  apply (validate_media_player_features_app on_off_player ["on_off"] ["play_pause"] 384).
  left. reflexivity.
Defined.

Lemma unknown_feature_is_unsupported_witness :
  exists log, validate_media_player_features on_off_player ["on_off"; "seek"] = Ok (false, log).
Proof.
  apply (unknown_feature_is_unsupported on_off_player ["on_off"; "seek"] 384 "seek").
  - left. reflexivity.
  - right. left. reflexivity.
  - cbn. intuition discriminate.
Defined.

Lemma untested_flags_are_ignored_witness :
  validate_media_player_features on_off_player ["on_off"; "play_pause"]
  = validate_media_player_features on_off_seek_player ["on_off"; "play_pause"].
Proof.
  apply (untested_flags_are_ignored on_off_player on_off_seek_player _ 384 386).
  - left. reflexivity.
  - left. reflexivity.
  - reflexivity.
  - reflexivity.
Defined.

(** ** Dicts and schemas, further *)

Lemma dict_get_set_any (d : dict) (n : string) (v k : pyval) :
  dict_get (dict_set d (PStr n) v) k =
  if key_eqb (PStr n) k then Some v else dict_get d k.
Proof.
  induction d as [ | [k0 v0] rest IH ]; cbn [dict_set dict_get]; [ reflexivity | ].
  destruct (key_eqb k0 (PStr n)) eqn:E0.
  - apply key_eqb_str_r in E0. subst k0. cbn [dict_get].
    destruct (key_eqb (PStr n) k); reflexivity.
  - cbn [dict_get]. rewrite IH.
    destruct (key_eqb (PStr n) k) eqn:En; [ | reflexivity ].
    apply key_eqb_str_l in En. subst k. rewrite E0. reflexivity.
Qed.

Lemma unique_keys_set_str (d : dict) (n : string) (v : pyval) :
  unique_keys d = true -> unique_keys (dict_set d (PStr n) v) = true.
Proof.
  induction d as [ | [k0 v0] rest IH ]; cbn [dict_set unique_keys]; [ reflexivity | ].
  intro Hu. apply andb_true_iff in Hu. destruct Hu as [Hfresh Hu].
  destruct (key_eqb k0 (PStr n)) eqn:E0.
  - cbn [unique_keys]. rewrite Hfresh, Hu. reflexivity.
  - cbn [unique_keys]. rewrite (IH Hu), andb_true_r.
    unfold dict_mem in *. rewrite dict_get_set_any.
    rewrite key_eqb_str_sym, E0. exact Hfresh.
Qed.

Lemma dict_mem_same_keys (a b : dict) (k : pyval) :
  map fst a = map fst b -> dict_mem a k = dict_mem b k.
Proof.
  unfold dict_mem. revert b.
  induction a as [ | [ka va] resta IH ]; intros [ | [kb vb] restb ] Hk;
    try discriminate; [ reflexivity | ].
  cbn in Hk. inversion Hk; subst. cbn [dict_get].
  destruct (key_eqb kb k); [ reflexivity | apply IH; assumption ].
Qed.

Lemma unique_keys_same_keys (a b : dict) :
  map fst a = map fst b -> unique_keys a = unique_keys b.
Proof.
  revert b.
  induction a as [ | [ka va] resta IH ]; intros [ | [kb vb] restb ] Hk;
    try discriminate; [ reflexivity | ].
  cbn in Hk. inversion Hk; subst. cbn [unique_keys].
  rewrite (dict_mem_same_keys resta restb kb), (IH restb); try assumption.
  reflexivity.
Qed.

Lemma item_validated_keys (schema : Schema) (items vals : dict) :
  Forall2 (item_validated schema) items vals -> map fst vals = map fst items.
Proof.
  induction 1 as [ | item val items vals [Hk _] _ IH ]; [ reflexivity | ].
  cbn. rewrite Hk, IH. reflexivity.
Qed.

Lemma fresh_after_snoc (out rest : dict) (n : string) (cv : pyval) :
  dict_mem rest (PStr n) = false ->
  (forall k v, In (k, v) rest -> dict_mem out k = false) ->
  forall k v, In (k, v) rest -> dict_mem (out ++ [(PStr n, cv)])%list k = false.
Proof.
  intros Hfresh Hout k v Hin. unfold dict_mem. rewrite dict_get_app.
  specialize (Hout k v Hin). unfold dict_mem in Hout.
  destruct (dict_get out k); [ discriminate | ].
  cbn [dict_get]. destruct (key_eqb (PStr n) k) eqn:E; [ | reflexivity ].
  apply key_eqb_str_l in E. subst k.
  rewrite (In_dict_mem _ _ _ Hin) in Hfresh. discriminate.
Qed.

(** The validated mapping holds the items in their order, each under its
    key with its validated value. *)
Lemma validate_items_struct (schema : Schema) (items out r : dict) :
  unique_keys items = true ->
  (forall k v, In (k, v) items -> dict_mem out k = false) ->
  validate_items schema items out = Some r ->
  exists vals, r = (out ++ vals)%list /\ Forall2 (item_validated schema) items vals.
Proof.
  revert out.
  induction items as [ | [k v] rest IH ]; intros out Hu Hout; cbn [validate_items].
  - intro Hr. inversion Hr. exists []. split; [ symmetry; apply app_nil_r | constructor ].
  - cbn [unique_keys] in Hu. apply andb_true_iff in Hu. destruct Hu as [Hfresh Hu].
    apply negb_true_iff in Hfresh.
    destruct (find_schema_key schema k) as [ [sk f] | ] eqn:Ek; [ | discriminate ].
    destruct (f v) as [ cv | ] eqn:Ev; [ | discriminate ].
    destruct (find_schema_key_some _ _ _ _ Ek) as [Hkey _].
    rewrite (dict_set_absent out k cv (Hout k v (or_introl eq_refl))).
    intro Hr. rewrite Hkey in Hfresh, Hr.
    assert (Hout' : forall k' v', In (k', v') rest ->
                                  dict_mem (out ++ [(PStr (key_schema sk), cv)])%list k' = false).
    { apply fresh_after_snoc; [ exact Hfresh | ].
      intros k' v' Hin. apply (Hout k' v'). right. exact Hin. }
    destruct (IH _ Hu Hout' Hr) as [vals [-> Hvals]].
    exists ((k, cv) :: vals). split.
    + rewrite <- app_assoc, Hkey. reflexivity.
    + constructor; [ | exact Hvals ].
      split; [ reflexivity | ]. exists sk, f. split; assumption.
Qed.

(** Validating the validated items again gives them back, when the
    validators return their results unchanged. *)
Lemma validate_items_again (schema : Schema) (items vals out : dict) :
  Forall2 (item_validated schema) items vals ->
  unique_keys items = true ->
  (forall k v, In (k, v) items -> dict_mem out k = false) ->
  (forall sk f, In (sk, f) schema -> idempotent_validator f) ->
  validate_items schema vals out = Some (out ++ vals)%list.
Proof.
  intros Hvals. revert out.
  induction Hvals as [ | [k v] [k' w] items vals [Hk [sk [f [Hfind Hv]]]] _ IH ];
    intros out Hu Hout Hidem.
  - cbn. rewrite app_nil_r. reflexivity.
  - cbn [fst snd] in *. subst k'.
    cbn [unique_keys] in Hu. apply andb_true_iff in Hu. destruct Hu as [Hfresh Hu].
    apply negb_true_iff in Hfresh.
    destruct (find_schema_key_some _ _ _ _ Hfind) as [Hkey Hin].
    cbn [validate_items]. rewrite Hfind, (Hidem sk f Hin v w Hv).
    rewrite (dict_set_absent out k w (Hout k v (or_introl eq_refl))).
    rewrite Hkey in Hfresh |- *.
    rewrite IH; [ rewrite <- app_assoc; reflexivity | exact Hu | | exact Hidem ].
    apply fresh_after_snoc; [ exact Hfresh | ].
    intros k' v' Hin'. apply (Hout k' v'). right. exact Hin'.
Qed.

Lemma unique_keys_insert_defaults (schema : Schema) (d : dict) :
  unique_keys d = true -> unique_keys (insert_defaults schema d) = true.
Proof.
  unfold insert_defaults. revert d.
  induction schema as [ | [sk f] rest IH ]; intros d Hu; cbn [fold_left]; [ exact Hu | ].
  apply IH. cbn [fst].
  destruct (key_default sk); [ | exact Hu ].
  destruct (dict_mem d (PStr (key_schema sk))); [ exact Hu | ].
  apply unique_keys_set_str. exact Hu.
Qed.

Lemma insert_defaults_keeps (schema : Schema) (d : dict) (k : pyval) :
  dict_mem d k = true -> dict_mem (insert_defaults schema d) k = true.
Proof.
  unfold insert_defaults. revert d.
  induction schema as [ | [sk f] rest IH ]; intros d Hm; cbn [fold_left]; [ exact Hm | ].
  apply IH. cbn [fst].
  destruct (key_default sk); [ | exact Hm ].
  destruct (dict_mem d (PStr (key_schema sk))); [ exact Hm | ].
  unfold dict_mem in *. rewrite dict_get_set_any.
  destruct (key_eqb (PStr (key_schema sk)) k); [ reflexivity | exact Hm ].
Qed.

Lemma insert_defaults_has_default (schema : Schema) (d : dict)
      (sk : schema_key) (f : validator) (default : pyval) :
  In (sk, f) schema -> key_default sk = Some default ->
  dict_mem (insert_defaults schema d) (PStr (key_schema sk)) = true.
Proof.
  revert d.
  induction schema as [ | [sk0 f0] rest IH ]; intros d Hin Hd;
    [ destruct Hin | destruct Hin as [Heq | Hin] ].
  - inversion Heq; subst.
    change (insert_defaults ((sk, f) :: rest) d)
      with (insert_defaults rest
              (match key_default sk with
               | Some default =>
                   if dict_mem d (PStr (key_schema sk)) then d
                   else dict_set d (PStr (key_schema sk)) default
               | None => d
               end)).
    apply insert_defaults_keeps. rewrite Hd.
    destruct (dict_mem d (PStr (key_schema sk))) eqn:E; [ exact E | ].
    unfold dict_mem. rewrite dict_get_set_str, String.eqb_refl. reflexivity.
  - apply (IH _ Hin Hd).
Qed.

Lemma insert_defaults_fixed (schema : Schema) (d : dict) :
  (forall sk f default,
      In (sk, f) schema -> key_default sk = Some default ->
      dict_mem d (PStr (key_schema sk)) = true) ->
  insert_defaults schema d = d.
Proof.
  unfold insert_defaults.
  induction schema as [ | [sk f] rest IH ]; intro Hall; cbn [fold_left fst];
    [ reflexivity | ].
  destruct (key_default sk) as [ default | ] eqn:Ed.
  - rewrite (Hall sk f default (or_introl eq_refl) Ed).
    apply IH. intros sk' f' d' Hin. apply (Hall sk' f' d'). right. exact Hin.
  - apply IH. intros sk' f' d' Hin. apply (Hall sk' f' d'). right. exact Hin.
Qed.

Lemma required_keys_found_same_keys (schema : Schema) (a b : dict) :
  map fst a = map fst b ->
  required_keys_found schema a = required_keys_found schema b.
Proof.
  intro Hk. unfold required_keys_found.
  induction schema as [ | [sk f] rest IH ]; cbn [forallb fst]; [ reflexivity | ].
  rewrite IH. destruct (key_marker sk); [ reflexivity | ].
  rewrite (dict_mem_same_keys _ _ _ Hk). reflexivity.
Qed.

Lemma validate_mapping_struct (schema : Schema) (d out : dict) :
  unique_keys d = true ->
  validate_mapping schema d = Some out ->
  Forall2 (item_validated schema) (insert_defaults schema d) out
  /\ required_keys_found schema (insert_defaults schema d) = true.
Proof.
  intros Hu. unfold validate_mapping.
  destruct (validate_items schema (insert_defaults schema d) []) as [ r | ] eqn:E;
    [ | discriminate ].
  destruct (required_keys_found schema (insert_defaults schema d)) eqn:Er;
    [ | discriminate ].
  intro Hr. inversion Hr; subst r.
  destruct (validate_items_struct schema _ [] _ (unique_keys_insert_defaults _ _ Hu)
              (fun _ _ _ => eq_refl) E) as [vals [Hout Hvals]].
  cbn [app] in Hout. subst vals.
  split; [ exact Hvals | reflexivity ].
Qed.

(** A mapping a schema has validated is valid, and validating it again gives
    it back, when the validators return their results unchanged. *)
Lemma validate_mapping_idempotent (schema : Schema) (d out : dict) :
  unique_keys d = true ->
  (forall sk f, In (sk, f) schema -> idempotent_validator f) ->
  validate_mapping schema d = Some out ->
  validate_mapping schema out = Some out.
Proof.
  intros Hu Hidem Hout.
  destruct (validate_mapping_struct _ _ _ Hu Hout) as [Hvals Hreq].
  pose proof (item_validated_keys _ _ _ Hvals) as Hkeys.
  assert (Hfixed : insert_defaults schema out = out).
  { apply insert_defaults_fixed. intros sk f default Hin Hd.
    rewrite (dict_mem_same_keys _ _ _ Hkeys).
    apply (insert_defaults_has_default _ _ _ _ _ Hin Hd). }
  unfold validate_mapping. rewrite Hfixed.
  rewrite (validate_items_again schema _ out [] Hvals
             (unique_keys_insert_defaults _ _ Hu) (fun _ _ _ => eq_refl) Hidem).
  rewrite (required_keys_found_same_keys _ _ _ Hkeys), Hreq. reflexivity.
Qed.

Lemma Forall2_In_r {A B : Type} (R : A -> B -> Prop) (l : list A) (l' : list B) (y : B) :
  Forall2 R l l' -> In y l' -> exists x, In x l /\ R x y.
Proof.
  induction 1 as [ | x y' l l' Hxy _ IH ]; intros Hin; [ destruct Hin | ].
  destruct Hin as [<- | Hin].
  - exists x. split; [ left; reflexivity | exact Hxy ].
  - destruct (IH Hin) as [x' [Hx' Hr]]. exists x'. split; [ right; exact Hx' | exact Hr ].
Qed.

Lemma In_insert_defaults (schema : Schema) (d : dict) (k v : pyval) :
  In (k, v) (insert_defaults schema d) ->
  In (k, v) d \/ exists sk f, In (sk, f) schema /\ key_default sk = Some v.
Proof.
  unfold insert_defaults. revert d.
  induction schema as [ | [sk f] rest IH ]; intros d Hin; cbn [fold_left fst] in Hin;
    [ left; exact Hin | ].
  destruct (IH _ Hin) as [Hd | [sk' [f' [Hs Hdef]]]].
  - destruct (key_default sk) as [ default | ] eqn:Ed; [ | left; exact Hd ].
    destruct (dict_mem d (PStr (key_schema sk))); [ left; exact Hd | ].
    destruct (In_dict_set_str _ _ _ _ Hd) as [Hold | Hnew]; [ left; exact Hold | ].
    right. inversion Hnew; subst. exists sk, f. split; [ left; reflexivity | exact Ed ].
  - right. exists sk', f'. split; [ right; exact Hs | exact Hdef ].
Qed.

(** A mapping validated by sound validators, with well-formed defaults, is
    well formed. *)
Lemma validate_mapping_well_formed (schema : Schema) (d out : dict) :
  well_formed (PDict d) = true ->
  (forall sk f, In (sk, f) schema -> sound_validator f) ->
  (forall sk f default,
      In (sk, f) schema -> key_default sk = Some default -> well_formed default = true) ->
  validate_mapping schema d = Some out ->
  well_formed (PDict out) = true.
Proof.
  intros Hw Hsound Hdefaults Hout.
  destruct (well_formed_dict _ Hw) as [Hu Hvalues].
  destruct (validate_mapping_struct _ _ _ Hu Hout) as [Hvals _].
  cbn [well_formed]. apply andb_true_iff. split.
  - rewrite (unique_keys_same_keys _ _ (item_validated_keys _ _ _ Hvals)).
    apply unique_keys_insert_defaults. exact Hu.
  - apply forallb_forall. intros [k w] Hin.
    destruct (Forall2_In_r _ _ _ _ Hvals Hin) as [[k0 v] [Hin0 [_ [sk [f [Hfind Hv]]]]]].
    cbn [fst snd] in *.
    destruct (find_schema_key_some _ _ _ _ Hfind) as [_ Hs].
    apply (Hsound sk f Hs v w); [ | exact Hv ].
    destruct (In_insert_defaults _ _ _ _ Hin0) as [Hd | [sk' [f' [Hs' Hdef]]]].
    + apply (Hvalues k0). exact Hd.
    + apply (Hdefaults sk' f' v Hs' Hdef).
Qed.

Lemma In_schema_extend (base extension : Schema) (x : schema_key * validator) :
  In x (schema_extend base extension) -> In x base \/ In x extension.
Proof.
  unfold schema_extend. revert base.
  induction extension as [ | kv rest IH ]; intros base Hin; cbn [fold_left] in Hin;
    [ left; exact Hin | ].
  destruct (IH _ Hin) as [Hb | Hr]; [ | right; right; exact Hr ].
  apply in_app_or in Hb. destruct Hb as [Hf | [<- | []]].
  - left. apply filter_In in Hf. apply Hf.
  - right. left. reflexivity.
Qed.

Lemma ensure_list_idempotent : idempotent_validator cv_ensure_list.
Proof.
  intros v w Hv. destruct v; cbn in Hv; inversion Hv; reflexivity.
Qed.

Lemma ensure_list_sound : sound_validator cv_ensure_list.
Proof.
  intros v w Hw Hv. destruct v; cbn in Hv; inversion Hv; subst; cbn [well_formed forallb];
    try reflexivity; try exact Hw.
  cbn [well_formed] in Hw. rewrite Hw. reflexivity.
Qed.

Lemma has_repeat_false_unique (names : list string) (f : string -> pyval) :
  has_repeat names = false ->
  unique_keys (map (fun n => (PStr n, f n)) names) = true.
Proof.
  induction names as [ | n rest IH ]; cbn [map unique_keys has_repeat]; [ reflexivity | ].
  intro Hr. apply orb_false_iff in Hr. destruct Hr as [Hn Hr].
  rewrite (IH Hr), andb_true_r. apply negb_true_iff.
  destruct (dict_mem (map (fun n0 => (PStr n0, f n0)) rest) (PStr n)) eqn:E; [ | reflexivity ].
  unfold dict_mem in E.
  destruct (dict_get (map (fun n0 => (PStr n0, f n0)) rest) (PStr n)) as [ v | ] eqn:Eg;
    [ | discriminate ].
  apply dict_get_str_In in Eg. apply in_map_iff in Eg. destruct Eg as [m [Hm Hin]].
  inversion Hm; subst. apply str_in_In in Hin. congruence.
Qed.

(** ** The configuration validator, further *)

Section ValidateEntityConfigFurther.
Context {C : Consts} {H : Helpers}.

(** [cv.string] accepts a string as it is. *)
Hypothesis Hstr : forall s, cv_string (PStr s) = Some s.

Lemma string_validator_idempotent : idempotent_validator string_validator.
Proof.
  intros v w Hv. unfold string_validator in *.
  destruct (cv_string v) as [ s | ]; inversion Hv. rewrite Hstr. reflexivity.
Qed.

Lemma string_validator_sound : sound_validator string_validator.
Proof.
  intros v w _ Hv. unfold string_validator in Hv.
  destruct (cv_string v) as [ s | ]; inversion Hv. reflexivity.
Qed.

Lemma code_validator_idempotent :
  idempotent_validator (vol_Any [vol_None; string_validator]).
Proof.
  intros v w Hv. cbn [vol_Any] in *.
  destruct (vol_None v) as [ r | ] eqn:En.
  - destruct v; inversion En; subst. inversion Hv. reflexivity.
  - destruct (string_validator v) as [ r | ] eqn:Es; inversion Hv; subst.
    pose proof (string_validator_idempotent _ _ Es) as Hi.
    unfold string_validator in Es. destruct (cv_string v); inversion Es; subst.
    cbn [vol_None]. rewrite Hi. reflexivity.
Qed.

Lemma code_validator_sound : sound_validator (vol_Any [vol_None; string_validator]).
Proof.
  intros v w Hw Hv. cbn [vol_Any] in Hv.
  destruct (vol_None v) as [ r | ] eqn:En.
  - destruct v; inversion En; subst. inversion Hv. reflexivity.
  - destruct (string_validator v) as [ r | ] eqn:Es; inversion Hv; subst.
    apply (string_validator_sound _ _ Hw Es).
Qed.

Lemma enum_validator_idempotent (enum : list string) :
  idempotent_validator (vol_All [string_validator; vol_In enum]).
Proof.
  intros v w Hv. rewrite enum_validator in *.
  destruct (cv_string v) as [ s | ]; [ | discriminate ].
  destruct (str_in s enum) eqn:E; inversion Hv. rewrite Hstr, E. reflexivity.
Qed.

Lemma enum_validator_sound (enum : list string) :
  sound_validator (vol_All [string_validator; vol_In enum]).
Proof.
  intros v w _ Hv. rewrite enum_validator in Hv.
  destruct (cv_string v) as [ s | ]; [ | discriminate ].
  destruct (str_in s enum); inversion Hv. reflexivity.
Qed.

Lemma name_schema_extended (x : schema_key * validator)
      (n2 : string) (d2 : pyval) (f2 : validator) :
  In x (schema_extend BASIC_INFO_SCHEMA [(vol_Optional_default n2 d2, f2)]) ->
  x = (vol_Optional CONF_NAME, string_validator) \/ x = (vol_Optional_default n2 d2, f2).
Proof.
  intro Hin. apply In_schema_extend in Hin.
  destruct Hin as [[<- | []] | [<- | []]]; [ left | right ]; reflexivity.
Qed.

(** What holds of the validators and defaults of the schema of each kind of
    domain. *)
Lemma schema_of_kind_validators (kind : domain_kind) (sk : schema_key) (f : validator) :
  In (sk, f) (schema_of_kind kind) ->
  idempotent_validator f /\ sound_validator f
  /\ (forall default, key_default sk = Some default -> well_formed default = true).
Proof.
  assert (Hname : idempotent_validator string_validator /\ sound_validator string_validator
                  /\ (forall default,
                         key_default (vol_Optional CONF_NAME) = Some default ->
                         well_formed default = true)).
  { split; [ apply string_validator_idempotent | ].
    split; [ apply string_validator_sound | discriminate ]. }
  destruct kind; cbn [schema_of_kind];
    unfold CODE_SCHEMA, FEATURE_SCHEMA, SWITCH_TYPE_SCHEMA; intro Hin.
  - apply name_schema_extended in Hin. destruct Hin as [Hin | Hin]; inversion Hin; subst;
      [ exact Hname | ].
    split; [ apply code_validator_idempotent | ].
    split; [ apply code_validator_sound | ].
    intros default Hd. inversion Hd. reflexivity.
  - apply name_schema_extended in Hin. destruct Hin as [Hin | Hin]; inversion Hin; subst;
      [ exact Hname | ].
    split; [ apply ensure_list_idempotent | ].
    split; [ apply ensure_list_sound | ].
    intros default Hd. inversion Hd. reflexivity.
  - apply name_schema_extended in Hin. destruct Hin as [Hin | Hin]; inversion Hin; subst;
      [ exact Hname | ].
    split; [ apply enum_validator_idempotent | ].
    split; [ apply enum_validator_sound | ].
    intros default Hd. inversion Hd. reflexivity.
  - destruct Hin as [Hin | []]. inversion Hin; subst. exact Hname.
Qed.

Lemma validate_config_schema (domain : string) (config : pyval) :
  kind_of_domain domain <> MediaPlayerDomain ->
  validate_config domain config = call_schema (schema_of_kind (kind_of_domain domain)) config.
Proof.
  unfold validate_config, kind_of_domain.
  destruct (str_in domain ["alarm_control_panel"; "lock"]); [ reflexivity | ].
  destruct (String.eqb domain media_player_DOMAIN); [ intro Hk; elim Hk; reflexivity | ].
  destruct (String.eqb domain "switch"); reflexivity.
Qed.

(** The normalized record of an entity that is no media player is valid,
    and normalizing it again changes nothing. *)
Lemma validate_config_again (domain : string) (config out : dict) :
  kind_of_domain domain <> MediaPlayerDomain ->
  well_formed (PDict config) = true ->
  validate_config domain (PDict config) = Ok out ->
  validate_config domain (PDict out) = Ok out.
Proof.
  intros Hkind Hw. rewrite !(validate_config_schema _ _ Hkind). cbn [call_schema].
  destruct (validate_mapping _ config) as [ r | ] eqn:E; cbn [of_validated];
    intro Hr; inversion Hr; subst r.
  destruct (well_formed_dict _ Hw) as [Hu _].
  rewrite (validate_mapping_idempotent _ _ _ Hu
             (fun sk f Hin => proj1 (schema_of_kind_validators _ sk f Hin)) E).
  reflexivity.
Qed.

Lemma well_formed_dict_intro (d : dict) :
  unique_keys d = true -> (forall k v, In (k, v) d -> well_formed v = true) ->
  well_formed (PDict d) = true.
Proof.
  intros Hu Hvalues. cbn [well_formed]. rewrite Hu. cbn [andb].
  apply forallb_forall. intros [k v] Hin. apply (Hvalues k v Hin).
Qed.

(** The loop over the features, when it succeeds, has added each feature
    name in turn with empty parameters. *)
Lemma add_features_struct (features : list pyval) (feature_list out : dict) :
  Forall (fun v => well_formed v = true) features ->
  add_features features feature_list = Ok out ->
  out = (feature_list ++ feature_mapping (names_of features))%list
  /\ Forall (fun n => In n feature_names) (names_of features)
  /\ List.length (names_of features) = List.length features.
Proof.
  intro Hw. revert feature_list.
  induction Hw as [ | feature rest Hf Hrest IH ]; intro feature_list.
  - cbn. intro Hr. inversion Hr. rewrite app_nil_r. repeat split. constructor.
  - cbn [add_features].
    pose proof (media_player_schema_cases feature Hf) as Hcases.
    destruct (call_schema MEDIA_PLAYER_SCHEMA feature) as [ params | e ]; cbn [bind];
      [ | discriminate ].
    destruct Hcases as [v [s [-> [Hs [Hin ->]]]]].
    assert (Hname : feature_name (PDict [(PStr CONF_FEATURE, v)]) = Some s).
    { unfold feature_name. cbn. rewrite String.eqb_refl. exact Hs. }
    assert (Hnames : names_of (PDict [(PStr CONF_FEATURE, v)] :: rest) = s :: names_of rest).
    { unfold names_of. cbn [flat_map]. rewrite Hname. reflexivity. }
    unfold dict_pop. cbn [dict_get key_eqb]. rewrite String.eqb_refl.
    cbn [bind dict_remove key_eqb]. rewrite String.eqb_refl.
    destruct (dict_mem feature_list (PStr s)) eqn:Eseen; [ discriminate | ].
    rewrite (dict_set_absent _ _ _ Eseen). intro Hr.
    destruct (IH _ Hr) as [-> [Hall Hlen]].
    rewrite Hnames. cbn [List.length feature_mapping map].
    split; [ rewrite <- app_assoc; reflexivity | ].
    split; [ | rewrite Hlen; reflexivity ].
    constructor; [ apply str_in_In; exact Hin | exact Hall ].
Qed.

Lemma media_player_branch (domain : string) :
  kind_of_domain domain = MediaPlayerDomain ->
  str_in domain ["alarm_control_panel"; "lock"] = false
  /\ String.eqb domain media_player_DOMAIN = true.
Proof.
  unfold kind_of_domain.
  destruct (str_in domain ["alarm_control_panel"; "lock"]); [ discriminate | ].
  destruct (String.eqb domain media_player_DOMAIN); [ split; reflexivity | ].
  destruct (String.eqb domain "switch"); discriminate.
Qed.

Section WithDistinctKeys.
Hypothesis Hdistinct : schema_keys_distinct = true.

(** The normalized record of a media player: the validated record, with the
    feature list replaced by the feature mapping. *)
Lemma validate_config_media (domain : string) (config out : dict) :
  well_formed (PDict config) = true ->
  kind_of_domain domain = MediaPlayerDomain ->
  validate_config domain (PDict config) = Ok out ->
  exists validated,
    validate_mapping FEATURE_SCHEMA config = Some validated
    /\ out = dict_set validated (PStr CONF_FEATURE_LIST)
                      (PDict (feature_mapping (names_of (listed_features config))))
    /\ has_repeat (names_of (listed_features config)) = false
    /\ Forall (fun n => In n feature_names) (names_of (listed_features config))
    /\ List.length (names_of (listed_features config))
       = List.length (listed_features config).
Proof.
  intros Hw Hkind. destruct (well_formed_dict _ Hw) as [Hu _].
  destruct (media_player_branch _ Hkind) as [Hcode Hmedia].
  unfold validate_config. rewrite Hcode, Hmedia. unfold call_schema.
  destruct (validate_mapping FEATURE_SCHEMA config) as [ validated | ] eqn:Ev;
    cbn [of_validated bind]; [ | discriminate ].
  pose proof Ev as Ev'. unfold FEATURE_SCHEMA, BASIC_INFO_SCHEMA in Ev'.
  rewrite (schema_extend_new CONF_NAME _ _ (vol_Optional_default CONF_FEATURE_LIST PNone)
             (name_is_not_feature_list Hdistinct)) in Ev'.
  pose proof (validate_name_and_key CONF_NAME CONF_FEATURE_LIST string_validator
                cv_ensure_list PNone config (name_is_not_feature_list Hdistinct) Hu)
    as Hcases.
  rewrite Ev', ensure_list_listed in Hcases.
  destruct Hcases as [_ [_ [_ [Hgl _]]]].
  unfold dict_getitem. rewrite Hgl. cbn [bind py_iter].
  pose proof (listed_features_well_formed _ Hw) as Hwf.
  pose proof (add_features_cases (listed_features config) [] Hwf) as Hloop.
  destruct (add_features (listed_features config) []) as [ feature_list | e ] eqn:Ea;
    cbn [bind]; [ | discriminate ].
  destruct (add_features_struct _ _ _ Hwf Ea) as [-> [Hall Hlen]].
  destruct Hloop as [_ [_ [Hr _]]].
  intro Hout. inversion Hout. exists validated. cbn [app]. repeat split; assumption.
Qed.

(** A normalized record is well formed. *)
Lemma validate_config_well_formed (domain : string) (config out : dict) :
  well_formed (PDict config) = true ->
  validate_config domain (PDict config) = Ok out ->
  well_formed (PDict out) = true.
Proof.
  intros Hw Hout.
  assert (Hschema : forall kind validated,
             validate_mapping (schema_of_kind kind) config = Some validated ->
             well_formed (PDict validated) = true).
  { intros kind validated Hv.
    apply (validate_mapping_well_formed (schema_of_kind kind) config validated Hw);
      [ | | exact Hv ].
    - intros sk f Hin. apply (schema_of_kind_validators kind sk f Hin).
    - intros sk f default Hin. apply (schema_of_kind_validators kind sk f Hin). }
  destruct (kind_of_domain domain) eqn:Hkind.
  2: {
    destruct (validate_config_media _ _ _ Hw Hkind Hout)
      as [validated [Hv [-> [Hr [_ _]]]]].
    pose proof (Hschema MediaPlayerDomain validated Hv) as Hwv.
    destruct (well_formed_dict _ Hwv) as [Hu Hvalues].
    apply well_formed_dict_intro; [ apply unique_keys_set_str; exact Hu | ].
    intros k v Hin. destruct (In_dict_set_str _ _ _ _ Hin) as [Hold | Hnew].
    - apply (Hvalues k v Hold).
    - inversion Hnew; subst. apply well_formed_dict_intro.
      + apply has_repeat_false_unique. exact Hr.
      + intros k' v' Hin'. unfold feature_mapping in Hin'.
        apply in_map_iff in Hin'. destruct Hin' as [n [Hn _]]. inversion Hn. reflexivity. }
  all: rewrite validate_config_schema in Hout by (rewrite Hkind; discriminate);
    rewrite Hkind in Hout; cbn [call_schema] in Hout;
    destruct (validate_mapping _ config) as [ validated | ] eqn:Ev;
    cbn [of_validated] in Hout; inversion Hout; subst;
    eapply Hschema; exact Ev.
Qed.

End WithDistinctKeys.

End ValidateEntityConfigFurther.

Section ValidateEntityConfigWhole.
Context {C : Consts} {H : Helpers}.

Lemma validate_entities_step (k v : pyval) (rest entities out : dict) :
  validate_entities ((k, v) :: rest) entities = Ok out ->
  exists entity config normalized,
    cv_entity_id k = Some entity
    /\ v = PDict config
    /\ validate_config (fst (split_entity_id entity)) (PDict config) = Ok normalized
    /\ validate_entities rest (dict_set entities (PStr entity) (PDict normalized)) = Ok out.
Proof.
  cbn [validate_entities].
  destruct (cv_entity_id k) as [ entity | ]; cbn [of_validated bind]; [ | discriminate ].
  destruct (split_entity_id entity) as [domain object_id] eqn:Es.
  destruct v as [ | | | | | | config ]; try discriminate.
  destruct (validate_config domain (PDict config)) as [ normalized | e ] eqn:Ev;
    cbn [bind]; [ | discriminate ].
  intro Hout. exists entity, config, normalized.
  split; [ reflexivity | ]. split; [ reflexivity | ].
  split; [ rewrite Es; exact Ev | exact Hout ].
Qed.

Lemma validate_entities_app (before after entities : dict) :
  validate_entities (before ++ after)%list entities =
  (reached <- validate_entities before entities ;; validate_entities after reached).
Proof.
  revert entities.
  induction before as [ | [k v] rest IH ]; intro entities; [ reflexivity | ].
  cbn [app validate_entities].
  destruct (cv_entity_id k) as [ entity | ]; cbn [of_validated bind]; [ | reflexivity ].
  destruct (split_entity_id entity) as [domain object_id].
  destruct v; try reflexivity.
  destruct (validate_config domain (PDict d)) as [ normalized | e ]; cbn [bind];
    [ apply IH | reflexivity ].
Qed.

Lemma validate_entities_unique (items entities out : dict) :
  unique_keys entities = true ->
  validate_entities items entities = Ok out ->
  unique_keys out = true.
Proof.
  revert entities.
  induction items as [ | [k v] rest IH ]; intros entities Hu Hout.
  - inversion Hout; subst. exact Hu.
  - destruct (validate_entities_step _ _ _ _ _ Hout) as [e [c [n [_ [_ [_ Hrest]]]]]].
    apply (IH _ (unique_keys_set_str _ _ _ Hu) Hrest).
Qed.

Lemma validate_entities_keeps (items entities out : dict) (key : pyval) :
  dict_mem entities key = true ->
  validate_entities items entities = Ok out ->
  dict_mem out key = true.
Proof.
  revert entities.
  induction items as [ | [k v] rest IH ]; intros entities Hm Hout.
  - inversion Hout; subst. exact Hm.
  - destruct (validate_entities_step _ _ _ _ _ Hout) as [e [c [n [_ [_ [_ Hrest]]]]]].
    apply (IH (dict_set entities (PStr e) (PDict n))); [ | exact Hrest ].
    unfold dict_mem in *. rewrite dict_get_set_any.
    destruct (key_eqb (PStr e) key); [ reflexivity | exact Hm ].
Qed.

Lemma validate_entities_has (items entities out : dict) (k v : pyval) (entity : string) :
  In (k, v) items -> cv_entity_id k = Some entity ->
  validate_entities items entities = Ok out ->
  dict_mem out (PStr entity) = true.
Proof.
  revert entities.
  induction items as [ | [k0 v0] rest IH ]; intros entities Hin Hk Hout; [ destruct Hin | ].
  destruct (validate_entities_step _ _ _ _ _ Hout) as [e [c [n [Hk0 [_ [_ Hrest]]]]]].
  destruct Hin as [Heq | Hin].
  - inversion Heq; subst. rewrite Hk in Hk0. inversion Hk0; subst.
    apply (validate_entities_keeps rest (dict_set entities (PStr e) (PDict n)));
      [ | exact Hrest ].
    unfold dict_mem. rewrite dict_get_set_str, String.eqb_refl. reflexivity.
  - apply (IH _ Hin Hk Hrest).
Qed.

Lemma validate_entities_from (items entities out : dict) (ke vc : pyval) :
  validate_entities items entities = Ok out ->
  In (ke, vc) out ->
  In (ke, vc) entities
  \/ exists k config entity normalized,
      In (k, PDict config) items
      /\ cv_entity_id k = Some entity
      /\ ke = PStr entity
      /\ vc = PDict normalized
      /\ validate_config (fst (split_entity_id entity)) (PDict config) = Ok normalized.
Proof.
  revert entities.
  induction items as [ | [k v] rest IH ]; intros entities Hout Hin.
  - inversion Hout; subst. left. exact Hin.
  - destruct (validate_entities_step _ _ _ _ _ Hout) as [e [c [n [Hk [-> [Hn Hrest]]]]]].
    destruct (IH _ Hrest Hin) as [Hset | [k' [c' [e' [n' [Hin' Hmore]]]]]].
    + destruct (In_dict_set_str _ _ _ _ Hset) as [Hold | Hnew]; [ left; exact Hold | ].
      right. inversion Hnew; subst. exists k, c, e, n.
      split; [ left; reflexivity | ]. repeat split; assumption.
    + right. exists k', c', e', n'. split; [ right; exact Hin' | exact Hmore ].
Qed.

Lemma validate_entities_untouched (items entities out : dict) (entity : string) :
  (forall k v, In (k, v) items -> cv_entity_id k <> Some entity) ->
  validate_entities items entities = Ok out ->
  dict_get out (PStr entity) = dict_get entities (PStr entity).
Proof.
  revert entities.
  induction items as [ | [k v] rest IH ]; intros entities Hother Hout.
  - inversion Hout; subst. reflexivity.
  - destruct (validate_entities_step _ _ _ _ _ Hout) as [e [c [n [Hk [_ [_ Hrest]]]]]].
    rewrite (IH _ (fun k' v' Hin => Hother k' v' (or_intror Hin)) Hrest).
    rewrite dict_get_set_str.
    destruct (String.eqb e entity) eqn:E; [ | reflexivity ].
    apply String.eqb_eq in E. subst e.
    elim (Hother k v (or_introl eq_refl) Hk).
Qed.

Lemma validate_entities_length (items entities out : dict) :
  validate_entities items entities = Ok out ->
  (List.length out <= List.length entities + List.length items)%nat.
Proof.
  revert entities.
  induction items as [ | [k v] rest IH ]; intros entities Hout.
  - inversion Hout; subst. cbn. lia.
  - destruct (validate_entities_step _ _ _ _ _ Hout) as [e [c [n [_ [_ [_ Hrest]]]]]].
    specialize (IH _ Hrest).
    assert (Hset : forall d key val,
               (List.length (dict_set d key val) <= S (List.length d))%nat).
    { induction d as [ | [k0 v0] d IHd ]; intros key val; cbn [dict_set];
        [ cbn; lia | ].
      destruct (key_eqb k0 key); cbn [List.length]; [ lia | ].
      specialize (IHd key val). lia. }
    specialize (Hset entities (PStr e) (PDict n)). cbn [List.length]. lia.
Qed.

(** X10: the mapping returned holds each validated identifier once: every
    entry is represented under its identifier, every identifier returned
    comes from an entry, and there are no more entities than entries. *)
Theorem validate_entity_config_keys (items entities : dict) :
  validate_entity_config (PDict items) = Ok entities ->
  unique_keys entities = true
  /\ (forall k v entity,
         In (k, v) items -> cv_entity_id k = Some entity ->
         dict_mem entities (PStr entity) = true)
  /\ (forall ke vc,
         In (ke, vc) entities ->
         exists k v entity, In (k, v) items /\ cv_entity_id k = Some entity /\ ke = PStr entity)
  /\ (List.length entities <= List.length items)%nat.
Proof.
  cbn [validate_entity_config]. intro Hout.
  split; [ apply (validate_entities_unique items [] entities eq_refl Hout) | ].
  split; [ intros k v entity Hin Hk; apply (validate_entities_has _ _ _ _ _ _ Hin Hk Hout) | ].
  split; [ | apply (validate_entities_length _ _ _ Hout) ].
  intros ke vc Hin.
  destruct (validate_entities_from _ _ _ _ _ Hout Hin) as [[] | [k [c [e [n Hfrom]]]]].
  destruct Hfrom as [Hitem [Hk [-> _]]]. exists k, (PDict c), e. repeat split; assumption.
Qed.

(** X11: when several entries give one identifier (two spellings of it),
    the record returned for the entity is the normalized record of the last
    of them. *)
Theorem last_entry_wins
        (before after entities config : dict) (k : pyval) (entity : string) :
  cv_entity_id k = Some entity ->
  (forall k' v', In (k', v') after -> cv_entity_id k' <> Some entity) ->
  validate_entity_config (PDict (before ++ (k, PDict config) :: after)%list) = Ok entities ->
  exists normalized,
    validate_config (fst (split_entity_id entity)) (PDict config) = Ok normalized
    /\ dict_get entities (PStr entity) = Some (PDict normalized).
Proof.
  intros Hk Hafter. cbn [validate_entity_config]. rewrite validate_entities_app.
  destruct (validate_entities before []) as [ reached | e ]; cbn [bind]; [ | discriminate ].
  intro Hout.
  destruct (validate_entities_step _ _ _ _ _ Hout) as [e [c [n [Hk' [Hc [Hn Hrest]]]]]].
  rewrite Hk in Hk'. inversion Hk'; subst e. inversion Hc; subst c.
  exists n. split; [ exact Hn | ].
  rewrite (validate_entities_untouched _ _ _ _ Hafter Hrest).
  rewrite dict_get_set_str, String.eqb_refl. reflexivity.
Qed.

End ValidateEntityConfigWhole.

Lemma validate_entity_config_keys_witness :
  (List.length [(PStr "lock.demo", PDict [(PStr "code", PNone)])]
   <= List.length twice_configured_lock)%nat.
Proof.
  apply (proj2 (proj2 (proj2
           (validate_entity_config_keys (C := ha_consts) (H := ha_helpers)
              twice_configured_lock
              [(PStr "lock.demo", PDict [(PStr "code", PNone)])] eq_refl)))).
Defined.

Lemma last_entry_wins_witness :
  exists normalized,
    validate_config (fst (split_entity_id "lock.demo")) (PDict []) = Ok normalized
    /\ dict_get [(PStr "lock.demo", PDict [(PStr "code", PNone)])] (PStr "lock.demo")
       = Some (PDict normalized).
Proof.
  apply (last_entry_wins (C := ha_consts) (H := ha_helpers)
           [(PStr "Lock.Demo", str_dict [("code", PStr "1234")])] []
           [(PStr "lock.demo", PDict [(PStr "code", PNone)])] []
           (PStr "lock.demo") "lock.demo").
  - reflexivity.
  - intros k' v' [].
  - reflexivity.
Defined.

Section ValidateEntityConfigAgain.
Context {C : Consts} {H : Helpers}.

(** The key constants differ, and [cv.string] accepts a string as it is. *)
Hypothesis Hdistinct : schema_keys_distinct = true.
Hypothesis Hstr : forall s, cv_string (PStr s) = Some s.

(** Entities that validate to themselves are returned as they are. *)
Lemma validate_entities_again (l entities : dict) :
  unique_keys l = true ->
  (forall k v, In (k, v) l -> dict_mem entities k = false) ->
  (forall ke vc,
      In (ke, vc) l ->
      exists entity normalized,
        ke = PStr entity /\ vc = PDict normalized
        /\ cv_entity_id (PStr entity) = Some entity
        /\ validate_config (fst (split_entity_id entity)) (PDict normalized)
           = Ok normalized) ->
  validate_entities l entities = Ok (entities ++ l)%list.
Proof.
  revert entities.
  induction l as [ | [ke vc] rest IH ]; intros entities Hu Hfresh Hstable.
  - cbn. rewrite app_nil_r. reflexivity.
  - cbn [unique_keys] in Hu. apply andb_true_iff in Hu. destruct Hu as [Hnew Hu].
    apply negb_true_iff in Hnew.
    destruct (Hstable ke vc (or_introl eq_refl)) as [e [n [-> [-> [Hid Hn]]]]].
    cbn [validate_entities]. rewrite Hid. cbn [of_validated bind].
    destruct (split_entity_id e) as [domain object_id]. cbn [fst] in Hn.
    rewrite Hn. cbn [bind].
    rewrite (dict_set_absent _ _ _ (Hfresh _ _ (or_introl eq_refl))).
    rewrite IH; [ rewrite <- app_assoc; reflexivity | exact Hu | | ].
    + apply fresh_after_snoc; [ exact Hnew | ].
      intros k v Hin. apply (Hfresh k v). right. exact Hin.
    + intros ke' vc' Hin. apply (Hstable ke' vc'). right. exact Hin.
Qed.

(** X12: a returned mapping without media player can be validated again and
    comes back unchanged, provided the identifiers in it validate to
    themselves. *)
Theorem validate_entity_config_idempotent (values : pyval) (entities : dict) :
  well_formed values = true ->
  validate_entity_config values = Ok entities ->
  (forall entity vc,
      In (PStr entity, vc) entities ->
      cv_entity_id (PStr entity) = Some entity
      /\ kind_of_domain (fst (split_entity_id entity)) <> MediaPlayerDomain) ->
  validate_entity_config (PDict entities) = Ok entities.
Proof.
  intros Hw Hout Hstable.
  destruct values as [ | | | | | | items ]; try discriminate.
  destruct (well_formed_dict _ Hw) as [_ Hvalues].
  cbn [validate_entity_config] in *.
  rewrite (validate_entities_again entities []); [ reflexivity | | | ].
  - apply (validate_entities_unique items [] entities eq_refl Hout).
  - reflexivity.
  - intros ke vc Hin.
    destruct (validate_entities_from _ _ _ _ _ Hout Hin) as [[] | [k [c [e [n Hfrom]]]]].
    destruct Hfrom as [Hitem [Hk [-> [-> Hn]]]].
    destruct (Hstable e (PDict n) Hin) as [Hid Hkind].
    exists e, n. repeat split; try assumption.
    apply (validate_config_again Hstr _ c n Hkind); [ | exact Hn ].
    apply (Hvalues k). exact Hitem.
Qed.

(** X13: the normalized record of a media player holds, under the feature
    list key, the mapping of each listed feature's name, in the order of the
    list, to empty parameters; the names are pairwise distinct feature
    names, one for each listed feature. *)
Theorem media_player_feature_mapping
        (values : pyval) (entities : dict) (ke vc : pyval) :
  well_formed values = true ->
  validate_entity_config values = Ok entities ->
  In (ke, vc) entities ->
  exists items k config entity normalized,
    values = PDict items
    /\ In (k, PDict config) items
    /\ cv_entity_id k = Some entity
    /\ ke = PStr entity
    /\ vc = PDict normalized
    /\ (kind_of_domain (fst (split_entity_id entity)) = MediaPlayerDomain ->
        dict_get normalized (PStr CONF_FEATURE_LIST)
        = Some (PDict (feature_mapping (names_of (listed_features config))))
        /\ has_repeat (names_of (listed_features config)) = false
        /\ Forall (fun n => In n feature_names) (names_of (listed_features config))
        /\ List.length (names_of (listed_features config))
           = List.length (listed_features config)).
Proof.
  intros Hw Hout Hin.
  destruct values as [ | | | | | | items ]; try discriminate.
  destruct (well_formed_dict _ Hw) as [_ Hvalues].
  cbn [validate_entity_config] in Hout.
  destruct (validate_entities_from _ _ _ _ _ Hout Hin) as [[] | [k [c [e [n Hfrom]]]]].
  destruct Hfrom as [Hitem [Hk [-> [-> Hn]]]].
  exists items, k, c, e, n.
  split; [ reflexivity | ]. split; [ exact Hitem | ]. split; [ exact Hk | ].
  split; [ reflexivity | ]. split; [ reflexivity | ].
  intro Hkind.
  destruct (validate_config_media Hdistinct _ _ _ (Hvalues _ _ Hitem) Hkind Hn)
    as [validated [_ [-> [Hr [Hall Hlen]]]]].
  split; [ rewrite dict_get_set_str, String.eqb_refl; reflexivity | ].
  split; [ exact Hr | ]. split; [ exact Hall | exact Hlen ].
Qed.

Lemma feature_mapping_get (names : list string) (n : string) (v : pyval) :
  dict_get (feature_mapping names) (PStr n) = Some v -> In n names.
Proof.
  intro Hv. apply dict_get_str_In in Hv. unfold feature_mapping in Hv.
  apply in_map_iff in Hv. destruct Hv as [m [Hm Hin]]. inversion Hm; subst. exact Hin.
Qed.

(** X14: a returned mapping with a media player in it is not a valid
    configuration: its feature list has become a mapping of feature names,
    which is no list of feature entries, so validating the returned mapping
    raises a validation error. *)
Theorem normalized_media_player_is_rejected
        (values : pyval) (entities : dict) (entity : string) (vc : pyval) :
  ~ In CONF_FEATURE feature_names ->
  well_formed values = true ->
  validate_entity_config values = Ok entities ->
  In (PStr entity, vc) entities ->
  cv_entity_id (PStr entity) = Some entity ->
  kind_of_domain (fst (split_entity_id entity)) = MediaPlayerDomain ->
  validate_entity_config (PDict entities) = Raise Invalid.
Proof.
  intros Hfeature Hw Hout Hin Hid Hkind.
  destruct values as [ | | | | | | items ]; try discriminate.
  destruct (well_formed_dict _ Hw) as [_ Hvalues].
  cbn [validate_entity_config] in *.
  assert (Hwf : forall k v, In (k, v) entities -> well_formed v = true).
  { intros k v Hkv.
    destruct (validate_entities_from _ _ _ _ _ Hout Hkv) as [[] | [k0 [c [e [n Hfrom]]]]].
    destruct Hfrom as [Hitem [_ [_ [-> Hn]]]].
    apply (validate_config_well_formed Hstr Hdistinct _ c n (Hvalues _ _ Hitem) Hn). }
  pose proof (validate_entities_cases Hdistinct Hstr entities [] Hwf) as Hcases.
  assert (Hproblem : existsb (entry_problem record_problem) entities = true).
  { apply existsb_exists. exists (PStr entity, vc). split; [ exact Hin | ].
    destruct (validate_entities_from _ _ _ _ _ Hout Hin) as [[] | [k0 [c [e [n Hfrom]]]]].
    destruct Hfrom as [Hitem [_ [He [-> Hn]]]]. inversion He; subst e.
    destruct (validate_config_media Hdistinct _ _ _ (Hvalues _ _ Hitem) Hkind Hn)
      as [validated [_ [-> [_ [Hall _]]]]].
    assert (Hmissing : dict_mem (feature_mapping (names_of (listed_features c)))
                                (PStr CONF_FEATURE) = false).
    { unfold dict_mem.
      destruct (dict_get (feature_mapping (names_of (listed_features c)))
                         (PStr CONF_FEATURE)) as [ v | ] eqn:E; [ | reflexivity ].
      exfalso. apply Hfeature. apply feature_mapping_get in E.
      rewrite Forall_forall in Hall. apply (Hall _ E). }
    set (mapping := feature_mapping (names_of (listed_features c))) in *.
    unfold entry_problem. cbn [fst snd]. rewrite Hid, Hkind.
    unfold record_problem, other_record_problem, listed_features.
    rewrite dict_get_set_str, String.eqb_refl. cbn [existsb malformed_feature].
    rewrite Hmissing. cbn [negb]. rewrite !orb_true_r. reflexivity. }
  destruct (validate_entities entities []) as [ out | e ].
  - destruct Hcases as [Hnone _]. congruence.
  - destruct Hcases as [-> _]. reflexivity.
Qed.

End ValidateEntityConfigAgain.

Lemma validate_entity_config_idempotent_witness :
  validate_entity_config (PDict lock_and_switch_entities) = Ok lock_and_switch_entities.
Proof.
  apply (validate_entity_config_idempotent (C := ha_consts) (H := ha_helpers)
           ha_string_str lock_and_switch_config lock_and_switch_entities).
  - reflexivity.
  - reflexivity.
  - intros entity vc [Heq | [Heq | []]]; inversion Heq; subst;
      (split; [ reflexivity | discriminate ]).
Defined.

Lemma media_player_feature_mapping_witness :
  exists items k config entity normalized,
    media_player_config = PDict items
    /\ In (k, PDict config) items
    /\ cv_entity_id k = Some entity
    /\ PStr "media_player.demo" = PStr entity
    /\ PDict [(PStr "feature_list",
               PDict [(PStr "on_off", PDict []); (PStr "play_pause", PDict [])])]
       = PDict normalized
    /\ (kind_of_domain (fst (split_entity_id entity)) = MediaPlayerDomain ->
        dict_get normalized (PStr CONF_FEATURE_LIST)
        = Some (PDict (feature_mapping (names_of (listed_features config))))
        /\ has_repeat (names_of (listed_features config)) = false
        /\ Forall (fun n => In n feature_names) (names_of (listed_features config))
        /\ List.length (names_of (listed_features config))
           = List.length (listed_features config)).
Proof.
  apply (media_player_feature_mapping (C := ha_consts) (H := ha_helpers)
           eq_refl media_player_config media_player_entities).
  - reflexivity.
  - reflexivity.
  - left. reflexivity.
Defined.

Lemma normalized_media_player_is_rejected_witness :
  validate_entity_config (PDict media_player_entities) = Raise Invalid.
Proof.
  apply (normalized_media_player_is_rejected (C := ha_consts) (H := ha_helpers)
           eq_refl ha_string_str media_player_config media_player_entities
           "media_player.demo"
           (PDict [(PStr "feature_list",
                    PDict [(PStr "on_off", PDict []); (PStr "play_pause", PDict [])])])).
  - cbn. intuition discriminate.
  - reflexivity.
  - reflexivity.
  - left. reflexivity.
  - reflexivity.
  - reflexivity.
Defined.

(** ** The setup notification *)

Lemma ascii_is_utf8 (cs : list ascii) :
  forallb (fun c => (nat_of_ascii c <? 128)%nat) cs = true ->
  utf8_valid (map nat_of_ascii cs) = true.
Proof.
  induction cs as [ | c rest IH ]; cbn [forallb map utf8_valid]; [ reflexivity | ].
  intro Hall. apply andb_true_iff in Hall. destruct Hall as [Hb Hrest].
  rewrite Hb. apply IH. exact Hrest.
Qed.

Lemma shown_snoc (effects : list effect) (e : effect) (notification_id : pyval) :
  shown (effects ++ [e])%list notification_id
  = notification_step notification_id (shown effects notification_id) e.
Proof.
  unfold shown. rewrite fold_left_app. reflexivity.
Qed.

Lemma created_snoc (effects : list effect) (e : effect) :
  created (effects ++ [e])%list
  = (created effects
     + match e with NotificationCreate _ _ _ => 1 | _ => 0 end)%nat.
Proof.
  unfold created. rewrite filter_app, length_app. destruct e; reflexivity.
Qed.

Section SetupMessageProperties.
Variable HOMEKIT_NOTIFY_ID : pyval.

(** X15: [show_setup_message] decodes the pin before it does anything: a
    pincode that is not UTF-8 makes it raise a [ValueError] with nothing
    logged and no notification created; a pincode of ASCII bytes is always
    accepted, and then the pin is logged and one notification is created,
    after the effects there were. *)
Theorem show_setup_message_decodes_first (hass : list effect) (pincode : string) :
  (utf8_valid (map nat_of_ascii (list_ascii_of_string pincode)) = false ->
   show_setup_message HOMEKIT_NOTIFY_ID hass pincode = (Raise ValueError, hass))
  /\ (forallb (fun c => (nat_of_ascii c <? 128)%nat) (list_ascii_of_string pincode) = true ->
      exists hass',
        show_setup_message HOMEKIT_NOTIFY_ID hass pincode = (Ok tt, hass')
        /\ hass' = (hass ++ [LogInfo "Pincode: %s" pincode;
                              NotificationCreate (setup_message pincode) "HomeKit Setup"
                                                 HOMEKIT_NOTIFY_ID])%list
        /\ created hass' = S (created hass)).
Proof.
  unfold show_setup_message, bytes_decode. split.
  - intros ->. reflexivity.
  - intro Hascii.
    assert (Hvalid : utf8_valid (map nat_of_ascii (list_ascii_of_string pincode)) = true).
    { apply ascii_is_utf8. exact Hascii. }
    rewrite Hvalid. eexists. split; [ reflexivity | ].
    split; [ rewrite <- app_assoc; reflexivity | ].
    rewrite !created_snoc. lia.
Qed.

(** X16: after [show_setup_message] the setup notification shows the message
    of the pin, whatever was shown before; [dismiss_setup_message] then
    leaves no setup notification, and the two calls together leave the
    notification of every other identifier as it was. *)
Theorem dismiss_undoes_show (hass hass' : list effect) (pincode : string) :
  key_eqb HOMEKIT_NOTIFY_ID HOMEKIT_NOTIFY_ID = true ->
  show_setup_message HOMEKIT_NOTIFY_ID hass pincode = (Ok tt, hass') ->
  shown hass' HOMEKIT_NOTIFY_ID = Some (setup_message pincode, "HomeKit Setup")
  /\ shown (dismiss_setup_message HOMEKIT_NOTIFY_ID hass') HOMEKIT_NOTIFY_ID = None
  /\ (forall other,
         key_eqb HOMEKIT_NOTIFY_ID other = false ->
         shown (dismiss_setup_message HOMEKIT_NOTIFY_ID hass') other = shown hass other).
Proof.
  intros Hid. unfold show_setup_message, dismiss_setup_message, bytes_decode.
  destruct (utf8_valid _); [ | discriminate ].
  intro Hshow. inversion Hshow; subst hass'.
  rewrite !shown_snoc. cbn [notification_step]. rewrite Hid.
  split; [ reflexivity | ]. split; [ reflexivity | ].
  intros other Hother. rewrite !shown_snoc. cbn [notification_step].
  rewrite Hother. reflexivity.
Qed.

End SetupMessageProperties.

Lemma show_setup_message_decodes_first_witness :
  exists hass',
    show_setup_message ha_notify_id [] pin_code = (Ok tt, hass')
    /\ hass' = ([] ++ [LogInfo "Pincode: %s" pin_code;
                       NotificationCreate (setup_message pin_code) "HomeKit Setup"
                                          ha_notify_id])%list
    /\ created hass' = S (created []).
Proof.
  apply (proj2 (show_setup_message_decodes_first ha_notify_id [] pin_code)).
  reflexivity.
Defined.

Lemma dismiss_undoes_show_witness :
  shown (dismiss_setup_message ha_notify_id
           [LogInfo "Pincode: %s" pin_code;
            NotificationCreate (setup_message pin_code) "HomeKit Setup" ha_notify_id])
        ha_notify_id = None.
Proof.
  apply (proj1 (proj2 (dismiss_undoes_show ha_notify_id [] _ pin_code eq_refl eq_refl))).
Defined.

(** ** The configuration validator: the values given *)

Section ValidateEntityConfigGiven.
Context {C : Consts} {H : Helpers}.
Hypothesis Hdistinct : schema_keys_distinct = true.

Lemma string_validator_some (v w : pyval) :
  string_validator v = Some w -> exists s, cv_string v = Some s /\ w = PStr s.
Proof.
  unfold string_validator. destruct (cv_string v) as [ s | ]; intro Hw; inversion Hw.
  exists s. split; reflexivity.
Qed.

(** What a validated mapping holds under the name and under the other key
    of the schema of its kind. *)
Lemma schema_of_kind_values (kind : domain_kind) (config validated : dict) :
  unique_keys config = true ->
  validate_mapping (schema_of_kind kind) config = Some validated ->
  (forall v, dict_get config (PStr CONF_NAME) = Some v ->
             exists s, cv_string v = Some s
                       /\ dict_get validated (PStr CONF_NAME) = Some (PStr s))
  /\ (kind = CodeDomain ->
      forall v, dict_get config (PStr ATTR_CODE) = Some v ->
                (v = PNone /\ dict_get validated (PStr ATTR_CODE) = Some PNone)
                \/ exists s, cv_string v = Some s
                             /\ dict_get validated (PStr ATTR_CODE) = Some (PStr s))
  /\ (kind = SwitchDomain ->
      forall v, dict_get config (PStr CONF_TYPE) = Some v ->
                exists s, cv_string v = Some s /\ In s switch_types
                          /\ dict_get validated (PStr CONF_TYPE) = Some (PStr s)).
Proof.
  intros Hu Hv.
  assert (Hname : forall out,
             dict_get out (PStr CONF_NAME)
             = match dict_get config (PStr CONF_NAME) with
               | Some v => string_validator v
               | None => None
               end ->
             (forall v, dict_get config (PStr CONF_NAME) = Some v ->
                        string_validator v <> None) ->
             forall v, dict_get config (PStr CONF_NAME) = Some v ->
                       exists s, cv_string v = Some s
                                 /\ dict_get out (PStr CONF_NAME) = Some (PStr s)).
  { intros out Hg Hn v Hgiven. specialize (Hn v Hgiven). rewrite Hgiven in Hg.
    destruct (string_validator v) as [ w | ] eqn:Ew; [ | congruence ].
    destruct (string_validator_some _ _ Ew) as [s [Hs ->]].
    exists s. split; assumption. }
  destruct kind; cbn [schema_of_kind] in Hv.
  - unfold CODE_SCHEMA, BASIC_INFO_SCHEMA in Hv.
    rewrite (schema_extend_new CONF_NAME _ _ (vol_Optional_default ATTR_CODE PNone)
               (name_is_not_code Hdistinct)) in Hv.
    pose proof (validate_name_and_key CONF_NAME ATTR_CODE string_validator
                  (vol_Any [vol_None; string_validator]) PNone config
                  (name_is_not_code Hdistinct) Hu) as Hcases.
    rewrite Hv in Hcases. destruct Hcases as [_ [Hgn [Hn [Hgc Hc]]]].
    split; [ apply (Hname validated Hgn Hn) | ]. split; [ | discriminate ].
    intros _ v Hgiven. unfold dict_get_default in Hgc, Hc. rewrite Hgiven in Hgc, Hc.
    cbn [vol_Any] in Hgc, Hc.
    destruct v; cbn [vol_None] in Hgc, Hc;
      try (left; split; [ reflexivity | exact Hgc ]);
      right;
      match type of Hgc with
      | _ = match string_validator ?x with _ => _ end =>
          destruct (string_validator x) as [ w | ] eqn:Ew; [ | congruence ];
          destruct (string_validator_some _ _ Ew) as [text [Htext ->]];
          exists text; split; assumption
      end.
  - unfold FEATURE_SCHEMA, BASIC_INFO_SCHEMA in Hv.
    rewrite (schema_extend_new CONF_NAME _ _ (vol_Optional_default CONF_FEATURE_LIST PNone)
               (name_is_not_feature_list Hdistinct)) in Hv.
    pose proof (validate_name_and_key CONF_NAME CONF_FEATURE_LIST string_validator
                  cv_ensure_list PNone config (name_is_not_feature_list Hdistinct) Hu)
      as Hcases.
    rewrite Hv in Hcases. destruct Hcases as [_ [Hgn [Hn _]]].
    split; [ apply (Hname validated Hgn Hn) | ]. split; discriminate.
  - unfold SWITCH_TYPE_SCHEMA, BASIC_INFO_SCHEMA in Hv.
    rewrite (schema_extend_new CONF_NAME _ _
               (vol_Optional_default CONF_TYPE (PStr TYPE_SWITCH))
               (name_is_not_type Hdistinct)) in Hv.
    pose proof (validate_name_and_key CONF_NAME CONF_TYPE string_validator
                  (vol_All [string_validator; vol_In switch_types])
                  (PStr TYPE_SWITCH) config (name_is_not_type Hdistinct) Hu) as Hcases.
    change (vol_In [TYPE_FAUCET; TYPE_OUTLET; TYPE_SHOWER; TYPE_SPRINKLER;
                    TYPE_SWITCH; TYPE_VALVE]) with (vol_In switch_types) in Hv.
    rewrite Hv in Hcases. destruct Hcases as [_ [Hgn [Hn [Hgt Ht]]]].
    split; [ apply (Hname validated Hgn Hn) | ]. split; [ discriminate | ].
    intros _ v Hgiven. unfold dict_get_default in Hgt, Ht. rewrite Hgiven in Hgt, Ht.
    rewrite enum_validator in Hgt, Ht.
    destruct (cv_string v) as [ s | ]; [ | congruence ].
    destruct (str_in s switch_types) eqn:Ein; [ | congruence ].
    exists s. split; [ reflexivity | ]. split; [ apply str_in_In; exact Ein | exact Hgt ].
  - unfold BASIC_INFO_SCHEMA in Hv.
    pose proof (validate_optional_key CONF_NAME string_validator config Hu) as Hcases.
    rewrite Hv in Hcases. destruct Hcases as [_ [Hgn Hn]].
    split; [ apply (Hname validated Hgn Hn) | ]. split; discriminate.
Qed.

(** X17: the values given are returned as text: in every returned record a
    given name is the string [cv.string] makes of it, a given code of an
    alarm or lock is null when it was null and such a string otherwise, and
    a given type of a switch is such a string, one of the switch types. *)
Theorem given_values_are_returned_as_text
        (values : pyval) (entities : dict) (ke vc : pyval) :
  well_formed values = true ->
  validate_entity_config values = Ok entities ->
  In (ke, vc) entities ->
  exists items k config entity normalized,
    values = PDict items
    /\ In (k, PDict config) items
    /\ cv_entity_id k = Some entity
    /\ ke = PStr entity
    /\ vc = PDict normalized
    /\ (forall v, dict_get config (PStr CONF_NAME) = Some v ->
                  exists s, cv_string v = Some s
                            /\ dict_get normalized (PStr CONF_NAME) = Some (PStr s))
    /\ (kind_of_domain (fst (split_entity_id entity)) = CodeDomain ->
        forall v, dict_get config (PStr ATTR_CODE) = Some v ->
                  (v = PNone /\ dict_get normalized (PStr ATTR_CODE) = Some PNone)
                  \/ exists s, cv_string v = Some s
                               /\ dict_get normalized (PStr ATTR_CODE) = Some (PStr s))
    /\ (kind_of_domain (fst (split_entity_id entity)) = SwitchDomain ->
        forall v, dict_get config (PStr CONF_TYPE) = Some v ->
                  exists s, cv_string v = Some s /\ In s switch_types
                            /\ dict_get normalized (PStr CONF_TYPE) = Some (PStr s)).
Proof.
  intros Hw Hout Hin.
  destruct values as [ | | | | | | items ]; try discriminate.
  destruct (well_formed_dict _ Hw) as [_ Hvalues].
  cbn [validate_entity_config] in Hout.
  destruct (validate_entities_from _ _ _ _ _ Hout Hin) as [[] | [k [c [e [n Hfrom]]]]].
  destruct Hfrom as [Hitem [Hk [-> [-> Hn]]]].
  exists items, k, c, e, n.
  split; [ reflexivity | ]. split; [ exact Hitem | ]. split; [ exact Hk | ].
  split; [ reflexivity | ]. split; [ reflexivity | ].
  pose proof (Hvalues _ _ Hitem) as Hwc.
  destruct (well_formed_dict _ Hwc) as [Hu _].
  destruct (kind_of_domain (fst (split_entity_id e))) eqn:Hkind.
  2: {
    destruct (validate_config_media Hdistinct _ _ _ Hwc Hkind Hn)
      as [validated [Hv [-> _]]].
    destruct (schema_of_kind_values MediaPlayerDomain c validated Hu Hv) as [Hname _].
    split; [ | split; discriminate ].
    intros v Hgiven. destruct (Hname v Hgiven) as [s [Hs Hg]].
    exists s. split; [ exact Hs | ].
    rewrite dict_get_set_str.
    pose proof (name_is_not_feature_list Hdistinct) as Hne.
    apply not_eq_sym in Hne. apply String.eqb_neq in Hne. rewrite Hne. exact Hg. }
  all: rewrite validate_config_schema in Hn by (rewrite Hkind; discriminate);
    rewrite Hkind in Hn; cbn [call_schema] in Hn;
    destruct (validate_mapping _ c) as [ validated | ] eqn:Ev;
    cbn [of_validated] in Hn; inversion Hn; subst;
    match type of Ev with
    | validate_mapping (schema_of_kind ?kind) _ = _ =>
        destruct (schema_of_kind_values kind c n Hu Ev) as [Hname [Hcode Htype]]
    end;
    (split; [ exact Hname | ]); (split; [ exact Hcode | exact Htype ]).
Qed.

End ValidateEntityConfigGiven.

Lemma given_values_are_returned_as_text_witness :
  exists items k config entity normalized,
    lock_and_switch_config = PDict items
    /\ In (k, PDict config) items
    /\ cv_entity_id k = Some entity
    /\ PStr "lock.demo" = PStr entity
    /\ PDict [(PStr "code", PStr "1234")] = PDict normalized
    /\ (forall v, dict_get config (PStr CONF_NAME) = Some v ->
                  exists s, cv_string v = Some s
                            /\ dict_get normalized (PStr CONF_NAME) = Some (PStr s))
    /\ (kind_of_domain (fst (split_entity_id entity)) = CodeDomain ->
        forall v, dict_get config (PStr ATTR_CODE) = Some v ->
                  (v = PNone /\ dict_get normalized (PStr ATTR_CODE) = Some PNone)
                  \/ exists s, cv_string v = Some s
                               /\ dict_get normalized (PStr ATTR_CODE) = Some (PStr s))
    /\ (kind_of_domain (fst (split_entity_id entity)) = SwitchDomain ->
        forall v, dict_get config (PStr CONF_TYPE) = Some v ->
                  exists s, cv_string v = Some s /\ In s switch_types
                            /\ dict_get normalized (PStr CONF_TYPE) = Some (PStr s)).
Proof.
  apply (given_values_are_returned_as_text (C := ha_consts) (H := ha_helpers)
           eq_refl lock_and_switch_config lock_and_switch_entities).
  - reflexivity.
  - reflexivity.
  - left. reflexivity.
Defined.

(** ** The defaults of the entity configuration *)

Section ValidateEntityConfigDefaults.
Context {C : Consts} {H : Helpers}.

(** The key constants differ, and [cv.string] accepts a string as it is. *)
Hypothesis Hdistinct : schema_keys_distinct = true.
Hypothesis Hstr : forall s, cv_string (PStr s) = Some s.



End ValidateEntityConfigDefaults.

